(** * eth-suiResolver: hash-time-locked escrows between Ethereum and Sui

    A shallow embedding of the parts of the repository that decide the
    escrow protocol: the hash utilities of both ledgers and of the relayer,
    the Sui [safe_escrow] module and its registry [safe_record], the
    [ETHWSUISwap] and [SafeEscrow] contracts, the relayer's timeout
    manager, retry loops, event listeners and [createCrossChainSafe], and
    the resolver's monitoring step.

    Conventions.  A byte is a [Z] in [0, 256); a [u64] or [uint256] is a [Z]
    with the overflow check of the ledger written out (Move and Solidity
    0.8 abort on overflow, they do not wrap).  A transaction that aborts
    changes nothing, so every entry point returns either the new state and
    its effects or the abort code. *)

From Stdlib Require Import ZArith List Bool Lia Ascii.
From stdpp Require Import base option gmap strings list pretty.
Import ListNotations.

Local Open Scope Z_scope.

(** ** Bytes and words *)

Module Bytes.

Definition bytes := list Z.

Definition is_byte (b : Z) : bool := (0 <=? b) && (b <? 256).

(** Big-endian and little-endian serialisation of an [n]-byte word. *)
Fixpoint be_bytes (n : nat) (w : Z) : bytes :=
  match n with
  | O => []
  | S k => be_bytes k (Z.shiftr w 8) ++ [Z.land w 255]
  end.

Fixpoint le_bytes (n : nat) (w : Z) : bytes :=
  match n with
  | O => []
  | S k => Z.land w 255 :: le_bytes k (Z.shiftr w 8)
  end.

Definition be_word (bs : bytes) : Z :=
  fold_left (fun acc b => Z.lor (Z.shiftl acc 8) b) bs 0.

Definition le_word (bs : bytes) : Z :=
  fold_right (fun b acc => Z.lor (Z.shiftl acc 8) b) 0 bs.

(** Cut a byte string into [n] consecutive chunks of [size] bytes. *)
Fixpoint chunks (n size : nat) (bs : bytes) : list bytes :=
  match n with
  | O => []
  | S k => take size bs :: chunks k size (drop size bs)
  end.

Definition bytes_eqb (a b : bytes) : bool := bool_decide (a = b).

(** The bytes of an ASCII string literal. *)
Fixpoint of_string (s : string) : bytes :=
  match s with
  | EmptyString => []
  | String c r => Z.of_N (Ascii.N_of_ascii c) :: of_string r
  end.

(** Lower-case hex, as [Buffer.toString('hex')] prints a digest. *)
Definition hex_digit (d : Z) : Ascii.ascii :=
  Ascii.ascii_of_N (Z.to_N (if d <? 10 then 48 + d else 87 + d)).

Fixpoint to_hex (bs : bytes) : string :=
  match bs with
  | [] => EmptyString
  | b :: r => String (hex_digit (Z.shiftr b 4)) (String (hex_digit (Z.land b 15)) (to_hex r))
  end.

(** [Buffer.from(s, 'hex')]: two digits make a byte, either case is read;
    decoding stops at the first pair that is not two hex digits, and a
    last odd digit is dropped. *)
Definition unhex (c : Ascii.ascii) : option Z :=
  let n := Z.of_N (Ascii.N_of_ascii c) in
  if (48 <=? n) && (n <=? 57) then Some (n - 48)
  else if (97 <=? n) && (n <=? 102) then Some (n - 87)
  else if (65 <=? n) && (n <=? 70) then Some (n - 55)
  else None.

Fixpoint from_hex (s : string) : bytes :=
  match s with
  | String a (String b r) =>
      match unhex a, unhex b with
      | Some x, Some y => 16 * x + y :: from_hex r
      | _, _ => []
      end
  | _ => []
  end.

End Bytes.

(** ** The hash primitives of the platforms

    [crypto.createHash('sha256')] / Solidity's [sha256] are SHA-256 of
    FIPS 180-4; Solidity's [keccak256] and [sui::hash::keccak256] are the
    original Keccak-256 (padding byte 0x01); [crypto.createHash('sha3-256')]
    is SHA3-256 of FIPS 202 (padding byte 0x06). *)

Module SHA256.
Import Bytes.

Definition mask32 : Z := 2 ^ 32 - 1.
Definition add32 (x y : Z) : Z := Z.land (x + y) mask32.
Definition rotr (n x : Z) : Z :=
  Z.lor (Z.shiftr x n) (Z.land (Z.shiftl x (32 - n)) mask32).
Definition not32 (x : Z) : Z := Z.lxor x mask32.

Definition Ch (x y z : Z) := Z.lxor (Z.land x y) (Z.land (not32 x) z).
Definition Maj (x y z : Z) := Z.lxor (Z.lxor (Z.land x y) (Z.land x z)) (Z.land y z).
Definition bsig0 x := Z.lxor (Z.lxor (rotr 2 x) (rotr 13 x)) (rotr 22 x).
Definition bsig1 x := Z.lxor (Z.lxor (rotr 6 x) (rotr 11 x)) (rotr 25 x).
Definition ssig0 x := Z.lxor (Z.lxor (rotr 7 x) (rotr 18 x)) (Z.shiftr x 3).
Definition ssig1 x := Z.lxor (Z.lxor (rotr 17 x) (rotr 19 x)) (Z.shiftr x 10).

(** The constants are defined the way the standard derives them: the
    first 32 bits of the fractional parts of the square roots (initial
    hash value) and cube roots (round constants) of the first primes. *)
Definition primes64 : list Z :=
  [2; 3; 5; 7; 11; 13; 17; 19; 23; 29; 31; 37; 41; 43; 47; 53;
   59; 61; 67; 71; 73; 79; 83; 89; 97; 101; 103; 107; 109; 113; 127; 131;
   137; 139; 149; 151; 157; 163; 167; 173; 179; 181; 191; 193; 197; 199; 211; 223;
   227; 229; 233; 239; 241; 251; 257; 263; 269; 271; 277; 281; 283; 293; 307; 311].

(** Integer cube root by bisection on the bits of the result. *)
Fixpoint icbrt_bits (n : nat) (x r : Z) : Z :=
  match n with
  | O => r
  | S k =>
      let c := Z.lor r (Z.shiftl 1 (Z.of_nat k)) in
      icbrt_bits k x (if c * c * c <=? x then c else r)
  end.
Definition icbrt (x : Z) : Z := icbrt_bits 48 x 0.

Definition K : list Z :=
  Eval vm_compute in map (fun p => Z.land (icbrt (p * 2 ^ 96)) mask32) primes64.
Definition H0 : list Z :=
  Eval vm_compute in map (fun p => Z.land (Z.sqrt (p * 2 ^ 64)) mask32) (take 8 primes64).

Definition word_at (l : list Z) (i : nat) : Z := nth i l 0.

(** Message schedule: 16 words of the block, then 48 derived words. *)
Fixpoint schedule (n : nat) (w : list Z) : list Z :=
  match n with
  | O => w
  | S k =>
      let t := length w in
      let x := add32 (add32 (ssig1 (word_at w (t - 2))) (word_at w (t - 7)))
                     (add32 (ssig0 (word_at w (t - 15))) (word_at w (t - 16))) in
      schedule k (w ++ [x])
  end.

Record regs := Regs { ra : Z; rb : Z; rc : Z; rd : Z; re : Z; rf : Z; rg : Z; rh : Z }.

Definition round (s : regs) (kw : Z * Z) : regs :=
  let t1 := add32 (add32 (add32 (rh s) (bsig1 (re s))) (Ch (re s) (rf s) (rg s)))
                  (add32 (fst kw) (snd kw)) in
  let t2 := add32 (bsig0 (ra s)) (Maj (ra s) (rb s) (rc s)) in
  Regs (add32 t1 t2) (ra s) (rb s) (rc s) (add32 (rd s) t1) (re s) (rf s) (rg s).

Definition regs_of (h : list Z) : regs :=
  Regs (word_at h 0) (word_at h 1) (word_at h 2) (word_at h 3)
       (word_at h 4) (word_at h 5) (word_at h 6) (word_at h 7).
Definition regs_list (s : regs) : list Z :=
  [ra s; rb s; rc s; rd s; re s; rf s; rg s; rh s].

Definition compress (h : list Z) (block : bytes) : list Z :=
  let w := schedule 48 (map be_word (chunks 16 4 block)) in
  let s := fold_left round (combine K w) (regs_of h) in
  zip_with add32 h (regs_list s).

(** Padding: 0x80, zeros up to 56 mod 64, then the bit length on 8 bytes. *)
Definition pad (msg : bytes) : bytes :=
  let len := Z.of_nat (length msg) in
  let zeros := Z.to_nat ((55 - len) mod 64) in
  msg ++ [128] ++ repeat 0 zeros ++ be_bytes 8 (8 * len).

Definition sha256 (msg : bytes) : bytes :=
  let p := pad msg in
  let blocks := chunks (length p / 64) 64 p in
  concat (map (be_bytes 4) (fold_left compress blocks H0)).

End SHA256.

Module Keccak.
Import Bytes.

Definition mask64 : Z := 2 ^ 64 - 1.
Definition rol (x n : Z) : Z :=
  Z.lor (Z.land (Z.shiftl x n) mask64) (Z.shiftr x (64 - n)).

(** The state is 25 lanes of 64 bits, lane (x, y) at index x + 5 y. *)
Definition lane (A : list Z) (x y : Z) : Z :=
  nth (Z.to_nat (x mod 5 + 5 * (y mod 5))) A 0.
Definition tabulate (f : Z -> Z -> Z) : list Z :=
  map (fun i => f (Z.of_nat i mod 5) (Z.of_nat i / 5)) (seq 0 25).

(** Round constants from the degree-8 LFSR of the Keccak reference. *)
Fixpoint lfsr (t : nat) (r : Z) : Z :=
  match t with
  | O => r
  | S k =>
      let r2 := Z.shiftl r 1 in
      lfsr k (if Z.testbit r2 8 then Z.lxor r2 369 else r2)
  end.
Definition rc_bit (t : Z) : Z := Z.land (lfsr (Z.to_nat (t mod 255)) 1) 1.
Definition round_constant (i : Z) : Z :=
  fold_left (fun acc j => Z.lor acc (Z.shiftl (rc_bit (j + 7 * i)) (2 ^ j - 1)))
            [0; 1; 2; 3; 4; 5; 6] 0.
Definition RC : list Z :=
  Eval vm_compute in map (fun i => round_constant (Z.of_nat i)) (seq 0 24).

(** Rotation offsets: lane (0,0) is not rotated; walking
    (x, y) -> (y, 2x + 3y) from (1, 0), step t rotates by (t+1)(t+2)/2. *)
Fixpoint offsets_walk (n : nat) (t x y : Z) (acc : list (Z * Z * Z)) : list (Z * Z * Z) :=
  match n with
  | O => acc
  | S k => offsets_walk k (t + 1) y ((2 * x + 3 * y) mod 5)
                        ((x, y, ((t + 1) * (t + 2) / 2) mod 64) :: acc)
  end.
Definition offsets : list Z :=
  Eval vm_compute in
    let walk := offsets_walk 24 0 1 0 [] in
    tabulate (fun x y =>
      match find (fun e => (fst (fst e) =? x) && (snd (fst e) =? y)) walk with
      | Some e => snd e
      | None => 0
      end).

Definition theta (A : list Z) : list Z :=
  let C := map (fun x => fold_left Z.lxor (map (lane A x) [1; 2; 3; 4]) (lane A x 0))
               [0; 1; 2; 3; 4] in
  let c x := nth (Z.to_nat (x mod 5)) C 0 in
  tabulate (fun x y => Z.lxor (lane A x y) (Z.lxor (c (x - 1)) (rol (c (x + 1)) 1))).

(** rho and pi together: B[y][2x + 3y] = rol(A[x][y], r[x][y]). *)
Definition rho_pi (A : list Z) : list Z :=
  tabulate (fun X Y => let x := (X + 3 * Y) mod 5 in rol (lane A x X) (lane offsets x X)).

Definition chi (B : list Z) : list Z :=
  tabulate (fun x y => Z.lxor (lane B x y) (Z.ldiff (lane B (x + 2) y) (lane B (x + 1) y))).

Definition iota (rc : Z) (A : list Z) : list Z :=
  match A with
  | [] => []
  | a :: r => Z.lxor a rc :: r
  end.

Definition keccak_f (A : list Z) : list Z :=
  fold_left (fun S rc => iota rc (chi (rho_pi (theta S)))) RC A.

Definition rate : nat := 136.

(** Multi-rate padding with the domain byte [dom] in front. *)
Definition pad (dom : Z) (msg : bytes) : bytes :=
  let q := (rate - (length msg) mod rate)%nat in
  match q with
  | 1%nat => msg ++ [Z.lor dom 128]
  | _ => msg ++ [dom] ++ repeat 0 (q - 2)%nat ++ [128]
  end.

Definition absorb (A : list Z) (block : bytes) : list Z :=
  let lanes := map le_word (chunks 17 8 block) ++ repeat 0 8%nat in
  keccak_f (zip_with Z.lxor A lanes).

Definition sponge256 (dom : Z) (msg : bytes) : bytes :=
  let p := pad dom msg in
  let blocks := chunks (length p / rate) rate p in
  let A := fold_left absorb blocks (repeat 0 25%nat) in
  concat (map (le_bytes 8) (take 4 A)).

Definition keccak256 : bytes -> bytes := sponge256 1.
Definition sha3_256 : bytes -> bytes := sponge256 6.

End Keccak.

(** ** JavaScript strings

    A JavaScript string is a sequence of UTF-16 code units.  Node's
    [hash.update(input, 'utf8')] hashes its UTF-8 encoding: a surrogate pair
    becomes one four-byte sequence, a lone surrogate becomes U+FFFD. *)

Module JsString.
Import Bytes.

Definition js_string := list Z.

Definition is_high (c : Z) : bool := (55296 <=? c) && (c <=? 56319).
Definition is_low (c : Z) : bool := (56320 <=? c) && (c <=? 57343).

Definition cont (c : Z) : Z := Z.lor 128 (Z.land c 63).
Definition replacement : bytes := [239; 191; 189].

Fixpoint utf8 (s : js_string) : bytes :=
  match s with
  | [] => []
  | c :: r =>
      if c <? 128 then c :: utf8 r
      else if c <? 2048 then Z.lor 192 (Z.shiftr c 6) :: cont c :: utf8 r
      else if is_high c then
        match r with
        | d :: r' =>
            if is_low d then
              let cp := 65536 + Z.shiftl (c - 55296) 10 + (d - 56320) in
              Z.lor 240 (Z.shiftr cp 18) :: cont (Z.shiftr cp 12)
                :: cont (Z.shiftr cp 6) :: cont cp :: utf8 r'
            else replacement ++ utf8 r
        | [] => replacement
        end
      else if is_low c then replacement ++ utf8 r
      else Z.lor 224 (Z.shiftr c 12) :: cont (Z.shiftr c 6) :: cont c :: utf8 r
  end.

(** The code units of an ASCII literal. *)
Definition of_ascii (s : string) : js_string := of_string s.

End JsString.

(** ** src/utils/HashUtility.js *)

Module HashUtility.
Import Bytes JsString.

(** What the methods accept: a string or a Buffer. *)
Inductive input :=
| Str (s : js_string)
| Buf (b : bytes).

(** [crypto.createHash(alg).update(input[, 'utf8']).digest()] *)
Definition update_bytes (i : input) : bytes :=
  match i with
  | Str s => utf8 s
  | Buf b => b
  end.

Definition keccak256 (i : input) : bytes := Keccak.sha3_256 (update_bytes i).
Definition sha256 (i : input) : bytes := SHA256.sha256 (update_bytes i).

Definition keccak256FromBytes (data : bytes) : bytes := Keccak.sha3_256 data.
Definition sha256FromBytes (data : bytes) : bytes := SHA256.sha256 data.

(** [computedHash.equals(expectedHash)] on two Buffers. *)
Definition verifySecretKeccak256 (secret : input) (expectedHash : bytes) : bool :=
  let computedHash := keccak256 secret in
  bytes_eqb computedHash expectedHash.

Definition verifySecretSha256 (secret : input) (expectedHash : bytes) : bool :=
  let computedHash := sha256 secret in
  bytes_eqb computedHash expectedHash.

Definition batchKeccak256 (secrets : list input) : list bytes := map keccak256 secrets.
Definition batchSha256 (secrets : list input) : list bytes := map sha256 secrets.

Definition toHexString (hash : bytes) : string := to_hex hash.
Definition toSuiHash (hash : bytes) : list Z := hash.

(** [s.replace(pattern, '')] with a string pattern: the first occurrence
    of the pattern is removed, wherever it is. *)
Fixpoint strip_prefix (pattern s : string) : option string :=
  match pattern, s with
  | EmptyString, _ => Some s
  | String p pr, String c r => if Ascii.eqb p c then strip_prefix pr r else None
  | String _ _, EmptyString => None
  end.

Fixpoint remove_first (pattern s : string) : string :=
  match strip_prefix pattern s with
  | Some rest => rest
  | None =>
      match s with
      | EmptyString => EmptyString
      | String c r => String c (remove_first pattern r)
      end
  end.

Definition fromHexString (hexString : string) : bytes :=
  from_hex (remove_first "0x" hexString).

Definition toEthereumHash (hash : bytes) : string := "0x" +:+ toHexString hash.

End HashUtility.

(** ** contracts/sui: module [sui_resolver::hash_utility]

    A Move [String] is its UTF-8 byte vector; [string::as_bytes] reads it. *)

Module SuiHashUtility.
Import Bytes.

Definition calculate_hash (key : bytes) : bytes :=
  let key_bytes := key in
  Keccak.keccak256 key_bytes.

(** The source notes that Sui has no native sha256 and calls keccak256. *)
Definition calculate_sha256_hash (key : bytes) : bytes :=
  let key_bytes := key in
  Keccak.keccak256 key_bytes.

Definition calculate_hash_from_bytes (data : bytes) : bytes := Keccak.keccak256 data.
Definition calculate_sha256_from_bytes (data : bytes) : bytes := Keccak.keccak256 data.

Definition verify_secret (secret : bytes) (expected_hash : bytes) : bool :=
  let secret_hash := calculate_hash secret in
  bytes_eqb secret_hash expected_hash.

Definition verify_secret_sha256 (secret : bytes) (expected_hash : bytes) : bool :=
  let secret_hash := calculate_sha256_hash secret in
  bytes_eqb secret_hash expected_hash.

End SuiHashUtility.

(** ** contracts/ethereum: contract [HashUtility]

    [abi.encodePacked] of one [string] is the string's bytes; a [bytes32]
    result is kept as its 32 bytes. *)

Module EthHashUtility.
Import Bytes.

Definition calculateHash (_key : bytes) : bytes := Keccak.keccak256 _key.
Definition calculateSha256Hash (_key : bytes) : bytes := SHA256.sha256 _key.
Definition calculateHashFromBytes (_data : bytes) : bytes := Keccak.keccak256 _data.
Definition calculateSha256FromBytes (_data : bytes) : bytes := SHA256.sha256 _data.

Definition verifySecret (_secret : bytes) (_expectedHash : bytes) : bool :=
  bytes_eqb (Keccak.keccak256 _secret) _expectedHash.
Definition verifySecretSha256 (_secret : bytes) (_expectedHash : bytes) : bool :=
  bytes_eqb (SHA256.sha256 _secret) _expectedHash.

End EthHashUtility.

(** ** Transactions

    An entry point either completes with a value or aborts with an error;
    an aborted transaction leaves every object as it was. *)

Inductive tx (E A : Type) : Type :=
| Done (a : A)
| Aborted (e : E).
Arguments Done {E A} a.
Arguments Aborted {E A} e.

Definition succeeded {E A} (r : tx E A) : bool :=
  match r with Done _ => true | Aborted _ => false end.

#[global] Instance tx_ret {E} : MRet (tx E) := fun _ a => Done a.
#[global] Instance tx_bind {E} : MBind (tx E) := fun _ _ f m =>
  match m with
  | Done a => f a
  | Aborted e => Aborted e
  end.
#[global] Instance tx_fmap {E} : FMap (tx E) := fun _ _ f m =>
  match m with
  | Done a => Done (f a)
  | Aborted e => Aborted e
  end.

(** ** contracts/sui/sources/safe_escrow.move *)

Module SuiSafeEscrow.
Import Bytes.

Definition EInvalidSecret : Z := 1.
Definition ETooEarly : Z := 2.
Definition ENotOwner : Z := 3.
Definition EAlreadyWithdrawn : Z := 4.
Definition EAlreadyRefunded : Z := 5.
Definition EInvalidAmount : Z := 6.

(** A failed [assert!] aborts with its code; u64 arithmetic out of range
    aborts in the virtual machine. *)
Inductive abort :=
| Code (c : Z)
| ArithmeticError.

Definition U64_MAX : Z := 2 ^ 64 - 1.

Definition add_u64 (a b : Z) : tx abort Z :=
  if a + b <=? U64_MAX then Done (a + b) else Aborted ArithmeticError.

Definition address := Z.
(** An object id: the creating transaction and the index in it. *)
Definition ID := (Z * Z)%type.

Record TxContext := { sender : address; tx_hash : Z; ids_created : Z }.

Definition object_new (ctx : TxContext) : ID * TxContext :=
  ((tx_hash ctx, ids_created ctx),
   {| sender := sender ctx; tx_hash := tx_hash ctx; ids_created := ids_created ctx + 1 |}).

(** A [Coin<SUI>] is modelled by its value; [Clock] by its timestamp. *)
Definition Coin := Z.
Definition Clock := Z.

Record SafeEscrow := {
  id : ID;
  owner : address;
  beneficiary : address;
  locked_coin : Coin;
  secret_hash : bytes;
  start_time : Z;
  lock_duration : Z;
  is_withdrawn : bool;
  is_refunded : bool;
  use_sha256 : bool
}.

Record SafeOwnerCap := { cap_id : ID; safe_id : ID }.

Inductive Event :=
| SafeCreated (safe : ID) (owner beneficiary : address) (amount : Z)
              (secret_hash : bytes) (start_time lock_duration : Z) (use_sha256 : bool)
| SafeWithdrawn (safe : ID) (withdrawer beneficiary : address) (amount : Z) (secret : bytes)
| SafeRefunded (safe : ID) (owner : address) (amount : Z).

Definition create_safe_internal (coin : Coin) (beneficiary : address)
    (secret_hash : bytes) (lock_duration : Z) (use_sha256 : bool)
    (clock : Clock) (ctx : TxContext)
    : tx abort (SafeEscrow * SafeOwnerCap * list Event * TxContext) :=
  if negb (0 <? coin) then Aborted (Code EInvalidAmount) else
  let '(safe_id, ctx1) := object_new ctx in
  let owner := sender ctx in
  let amount := coin in
  let start_time := clock in
  let safe := {| id := safe_id; owner := owner; beneficiary := beneficiary;
                 locked_coin := coin; secret_hash := secret_hash;
                 start_time := start_time; lock_duration := lock_duration;
                 is_withdrawn := false; is_refunded := false;
                 use_sha256 := use_sha256 |} in
  let ev := SafeCreated safe_id owner beneficiary amount secret_hash
                        start_time lock_duration use_sha256 in
  let '(cap, ctx2) := object_new ctx1 in
  Done (safe, {| cap_id := cap; safe_id := safe_id |}, [ev], ctx2).

Definition create_safe coin beneficiary secret_hash lock_duration clock ctx :=
  create_safe_internal coin beneficiary secret_hash lock_duration false clock ctx.

Definition create_safe_sha256 coin beneficiary secret_hash lock_duration clock ctx :=
  create_safe_internal coin beneficiary secret_hash lock_duration true clock ctx.

Definition set_withdrawn (safe : SafeEscrow) : SafeEscrow :=
  {| id := id safe; owner := owner safe; beneficiary := beneficiary safe;
     locked_coin := locked_coin safe; secret_hash := secret_hash safe;
     start_time := start_time safe; lock_duration := lock_duration safe;
     is_withdrawn := true; is_refunded := is_refunded safe;
     use_sha256 := use_sha256 safe |}.

Definition set_refunded (safe : SafeEscrow) : SafeEscrow :=
  {| id := id safe; owner := owner safe; beneficiary := beneficiary safe;
     locked_coin := locked_coin safe; secret_hash := secret_hash safe;
     start_time := start_time safe; lock_duration := lock_duration safe;
     is_withdrawn := is_withdrawn safe; is_refunded := true;
     use_sha256 := use_sha256 safe |}.

(** [coin::split(&mut safe.locked_coin, amount, ctx)]: takes [amount] out
    of the locked coin. *)
Definition coin_split (safe : SafeEscrow) (amount : Z) : SafeEscrow * Coin :=
  ({| id := id safe; owner := owner safe; beneficiary := beneficiary safe;
      locked_coin := locked_coin safe - amount; secret_hash := secret_hash safe;
      start_time := start_time safe; lock_duration := lock_duration safe;
      is_withdrawn := is_withdrawn safe; is_refunded := is_refunded safe;
      use_sha256 := use_sha256 safe |}, amount).

(** [withdraw] takes no clock: it reads neither the time nor the lock. *)
Definition withdraw (safe : SafeEscrow) (secret : bytes) (ctx : TxContext)
    : tx abort (SafeEscrow * Coin * list Event) :=
  if is_withdrawn safe then Aborted (Code EAlreadyWithdrawn) else
  if is_refunded safe then Aborted (Code EAlreadyRefunded) else
  let is_valid :=
    if use_sha256 safe
    then SuiHashUtility.verify_secret_sha256 secret (secret_hash safe)
    else SuiHashUtility.verify_secret secret (secret_hash safe) in
  if negb is_valid then Aborted (Code EInvalidSecret) else
  let safe1 := set_withdrawn safe in
  let amount := locked_coin safe1 in
  let '(safe2, withdrawn_coin) := coin_split safe1 amount in
  Done (safe2, withdrawn_coin,
        [SafeWithdrawn (id safe2) (sender ctx) (beneficiary safe2) amount secret]).

Definition refund (safe : SafeEscrow) (owner_cap : SafeOwnerCap) (clock : Clock)
    (ctx : TxContext) : tx abort (SafeEscrow * Coin * list Event) :=
  if is_withdrawn safe then Aborted (Code EAlreadyWithdrawn) else
  if is_refunded safe then Aborted (Code EAlreadyRefunded) else
  if negb (bool_decide (safe_id owner_cap = id safe)) then Aborted (Code ENotOwner) else
  let current_time := clock in
  match add_u64 (start_time safe) (lock_duration safe) with
  | Aborted e => Aborted e
  | Done deadline =>
      if negb (deadline <=? current_time) then Aborted (Code ETooEarly) else
      let safe1 := set_refunded safe in
      let amount := locked_coin safe1 in
      let '(safe2, refunded_coin) := coin_split safe1 amount in
      Done (safe2, refunded_coin, [SafeRefunded (id safe2) (owner safe2) amount])
  end.

Definition create_secret_hash (secret : bytes) : bytes :=
  SuiHashUtility.calculate_hash secret.
Definition create_secret_hash_sha256 (secret : bytes) : bytes :=
  SuiHashUtility.calculate_sha256_hash secret.

Definition is_lock_expired (safe : SafeEscrow) (clock : Clock) : tx abort bool :=
  let current_time := clock in
  match add_u64 (start_time safe) (lock_duration safe) with
  | Aborted e => Aborted e
  | Done deadline => Done (deadline <=? current_time)
  end.

Definition is_safe_available (safe : SafeEscrow) : bool :=
  negb (is_withdrawn safe) && negb (is_refunded safe).

(** The calls a shared safe can receive, and the safe after each: an
    aborted call leaves it as it was. *)
Inductive call :=
| CallWithdraw (secret : bytes) (ctx : TxContext)
| CallRefund (owner_cap : SafeOwnerCap) (clock : Clock) (ctx : TxContext).

Definition apply_call (safe : SafeEscrow) (c : call) : SafeEscrow :=
  match c with
  | CallWithdraw secret ctx =>
      match withdraw safe secret ctx with
      | Done (safe', _, _) => safe'
      | Aborted _ => safe
      end
  | CallRefund cap clock ctx =>
      match refund safe cap clock ctx with
      | Done (safe', _, _) => safe'
      | Aborted _ => safe
      end
  end.

Definition run (safe : SafeEscrow) (cs : list call) : SafeEscrow :=
  fold_left apply_call cs safe.

(** The view functions. *)
Definition get_safe_info (safe : SafeEscrow)
    : address * address * Z * bytes * Z * Z * bool * bool * bool :=
  (owner safe, beneficiary safe, locked_coin safe, secret_hash safe,
   start_time safe, lock_duration safe, is_withdrawn safe, is_refunded safe,
   use_sha256 safe).

Definition get_owner_cap_safe_id (cap : SafeOwnerCap) : ID := safe_id cap.

Definition get_safe_hash (safe : SafeEscrow) : bytes := secret_hash safe.

(** [destroy_empty_safe] unpacks the safe, asserts with code 0 that the
    locked coin is empty, and deletes the object. *)
Definition destroy_empty_safe (safe : SafeEscrow) : tx abort unit :=
  let locked_coin := locked_coin safe in
  if negb (locked_coin =? 0) then Aborted (Code 0) else Done tt.

(** The safe after a list of calls together with the coins the calls
    handed out, in order. *)
Definition apply_call_paid (r : SafeEscrow * list Coin) (c : call)
    : SafeEscrow * list Coin :=
  match c with
  | CallWithdraw secret ctx =>
      match withdraw (fst r) secret ctx with
      | Done (safe', coin, _) => (safe', snd r ++ [coin])
      | Aborted _ => r
      end
  | CallRefund cap clock ctx =>
      match refund (fst r) cap clock ctx with
      | Done (safe', coin, _) => (safe', snd r ++ [coin])
      | Aborted _ => r
      end
  end.

Definition run_paid (safe : SafeEscrow) (cs : list call) : SafeEscrow * list Coin :=
  fold_left apply_call_paid cs (safe, []).

End SuiSafeEscrow.

(** ** contracts/sui/sources/safe_record.move

    A [Table] is a finite map; [table::add] aborts when the key is
    present and [table::borrow] when it is absent (the aborts of
    [sui::dynamic_field]).  [table::new] takes a fresh object id from the
    transaction context, like [object::new]. *)

Module SuiSafeRecord.
Import Bytes.

Definition ESafeAlreadyExists : Z := 1.
Definition ESafeNotFound : Z := 2.
Definition EInvalidAmount : Z := 3.
Definition EUnauthorized : Z := 4.

Inductive abort :=
| Code (c : Z)
| Escrow (a : SuiSafeEscrow.abort)
| FieldAlreadyExists
| FieldDoesNotExist.

Record SafeMetadata := {
  safe_id : SuiSafeEscrow.ID;
  owner : SuiSafeEscrow.address;
  beneficiary : SuiSafeEscrow.address;
  amount : Z;
  secret_hash : bytes;
  start_time : Z;
  lock_duration : Z;
  use_sha256 : bool;
  is_active : bool
}.

Record SafeRegistry := {
  registry_id : SuiSafeEscrow.ID;
  hash_to_safe : gmap bytes SuiSafeEscrow.ID;
  safe_metadata : gmap SuiSafeEscrow.ID SafeMetadata;
  safe_addresses : list SuiSafeEscrow.ID;
  registry_owner : SuiSafeEscrow.address
}.

Inductive Event :=
| EscrowEvent (e : SuiSafeEscrow.Event)
| SafeRegistered (safe_id : SuiSafeEscrow.ID) (owner beneficiary : SuiSafeEscrow.address)
                 (amount : Z) (secret_hash : bytes) (registry_id : SuiSafeEscrow.ID)
| SafeDeactivated (safe_id registry_id : SuiSafeEscrow.ID).

Definition table_add {K V : Type} `{Countable K} (t : gmap K V) (k : K) (v : V)
    : tx abort (gmap K V) :=
  match t !! k with
  | Some _ => Aborted FieldAlreadyExists
  | None => Done (<[k := v]> t)
  end.

Definition init (ctx : SuiSafeEscrow.TxContext) : SafeRegistry * SuiSafeEscrow.TxContext :=
  let '(id, ctx1) := SuiSafeEscrow.object_new ctx in
  let '(_, ctx2) := SuiSafeEscrow.object_new ctx1 in
  let '(_, ctx3) := SuiSafeEscrow.object_new ctx2 in
  ({| registry_id := id; hash_to_safe := ∅; safe_metadata := ∅;
      safe_addresses := []; registry_owner := SuiSafeEscrow.sender ctx |}, ctx3).

Definition create_and_register_safe_with_hash (registry : SafeRegistry)
    (coin : SuiSafeEscrow.Coin) (beneficiary : SuiSafeEscrow.address)
    (secret_hash : bytes) (lock_duration : Z) (use_sha256 : bool)
    (clock : SuiSafeEscrow.Clock) (ctx : SuiSafeEscrow.TxContext)
    : tx abort (SafeRegistry * SuiSafeEscrow.SafeEscrow * SuiSafeEscrow.SafeOwnerCap
                * list Event * SuiSafeEscrow.TxContext) :=
  if negb (0 <? coin) then Aborted (Code EInvalidAmount) else
  let amount := coin in
  match (if use_sha256
         then SuiSafeEscrow.create_safe_sha256 coin beneficiary secret_hash
                                               lock_duration clock ctx
         else SuiSafeEscrow.create_safe coin beneficiary secret_hash
                                        lock_duration clock ctx) with
  | Aborted a => Aborted (Escrow a)
  | Done (safe, owner_cap, created, ctx1) =>
      let safe_id := SuiSafeEscrow.get_owner_cap_safe_id owner_cap in
      let owner := SuiSafeEscrow.sender ctx1 in
      let start_time := clock in
      let metadata :=
        {| safe_id := safe_id; owner := owner; beneficiary := beneficiary;
           amount := amount; secret_hash := secret_hash; start_time := start_time;
           lock_duration := lock_duration; use_sha256 := use_sha256;
           is_active := true |} in
      hashes ← table_add (hash_to_safe registry) secret_hash safe_id;
      metadatas ← table_add (safe_metadata registry) safe_id metadata;
      Done ({| registry_id := registry_id registry; hash_to_safe := hashes;
               safe_metadata := metadatas;
               safe_addresses := safe_addresses registry ++ [safe_id];
               registry_owner := registry_owner registry |},
            safe, owner_cap,
            map EscrowEvent created
              ++ [SafeRegistered safe_id owner beneficiary amount secret_hash
                                 (registry_id registry)],
            ctx1)
  end.

Definition create_and_register_safe (registry : SafeRegistry) (coin : SuiSafeEscrow.Coin)
    (beneficiary : SuiSafeEscrow.address) (secret : bytes) (lock_duration : Z)
    (clock : SuiSafeEscrow.Clock) (ctx : SuiSafeEscrow.TxContext) :=
  let secret_hash := SuiHashUtility.calculate_hash secret in
  create_and_register_safe_with_hash registry coin beneficiary secret_hash
                                     lock_duration false clock ctx.

Definition create_and_register_safe_sha256 (registry : SafeRegistry)
    (coin : SuiSafeEscrow.Coin) (beneficiary : SuiSafeEscrow.address) (secret : bytes)
    (lock_duration : Z) (clock : SuiSafeEscrow.Clock) (ctx : SuiSafeEscrow.TxContext) :=
  let secret_hash := SuiHashUtility.calculate_sha256_hash secret in
  create_and_register_safe_with_hash registry coin beneficiary secret_hash
                                     lock_duration true clock ctx.

Definition set_inactive (metadata : SafeMetadata) : SafeMetadata :=
  {| safe_id := safe_id metadata; owner := owner metadata;
     beneficiary := beneficiary metadata; amount := amount metadata;
     secret_hash := secret_hash metadata; start_time := start_time metadata;
     lock_duration := lock_duration metadata; use_sha256 := use_sha256 metadata;
     is_active := false |}.

(** [deactivate_safe] reads neither the sender nor the registry's owner. *)
Definition deactivate_safe (registry : SafeRegistry) (safe_id : SuiSafeEscrow.ID)
    (_ctx : SuiSafeEscrow.TxContext) : tx abort (SafeRegistry * list Event) :=
  match safe_metadata registry !! safe_id with
  | None => Aborted (Code ESafeNotFound)
  | Some metadata =>
      Done ({| registry_id := registry_id registry;
               hash_to_safe := hash_to_safe registry;
               safe_metadata := <[safe_id := set_inactive metadata]> (safe_metadata registry);
               safe_addresses := safe_addresses registry;
               registry_owner := registry_owner registry |},
            [SafeDeactivated safe_id (registry_id registry)])
  end.

Definition get_safe_by_hash (registry : SafeRegistry) (hash : bytes)
    : option SuiSafeEscrow.ID :=
  hash_to_safe registry !! hash.

Definition get_safe_metadata (registry : SafeRegistry) (safe_id : SuiSafeEscrow.ID)
    : option SafeMetadata :=
  safe_metadata registry !! safe_id.

(** The loop of [get_all_active_safes] over the vector of addresses,
    from the index where [addresses] starts. *)
Fixpoint active_safes_loop (registry : SafeRegistry) (addresses : list SuiSafeEscrow.ID)
    (active_safes : list SuiSafeEscrow.ID) : tx abort (list SuiSafeEscrow.ID) :=
  match addresses with
  | [] => Done active_safes
  | safe_id :: rest =>
      match safe_metadata registry !! safe_id with
      | None => Aborted FieldDoesNotExist
      | Some metadata =>
          active_safes_loop registry rest
            (if is_active metadata then active_safes ++ [safe_id] else active_safes)
      end
  end.

Definition get_all_active_safes (registry : SafeRegistry) : tx abort (list SuiSafeEscrow.ID) :=
  active_safes_loop registry (safe_addresses registry) [].

Definition is_safe_registered (registry : SafeRegistry) (hash : bytes) : bool :=
  bool_decide (is_Some (hash_to_safe registry !! hash)).

(** The calls the shared registry can receive, and the registry after
    each: an aborted call leaves it as it was. *)
Inductive call :=
| CallCreateAndRegister (sha256 : bool) (coin : SuiSafeEscrow.Coin)
                        (beneficiary : SuiSafeEscrow.address) (secret : bytes)
                        (lock_duration : Z) (clock : SuiSafeEscrow.Clock)
                        (ctx : SuiSafeEscrow.TxContext)
| CallDeactivate (safe_id : SuiSafeEscrow.ID) (ctx : SuiSafeEscrow.TxContext).

Definition apply_call (registry : SafeRegistry) (c : call) : SafeRegistry :=
  match c with
  | CallCreateAndRegister sha256 coin beneficiary secret lock_duration clock ctx =>
      match (if sha256
             then create_and_register_safe_sha256 registry coin beneficiary secret
                                                  lock_duration clock ctx
             else create_and_register_safe registry coin beneficiary secret
                                           lock_duration clock ctx) with
      | Done (registry', _, _, _, _) => registry'
      | Aborted _ => registry
      end
  | CallDeactivate safe_id ctx =>
      match deactivate_safe registry safe_id ctx with
      | Done (registry', _) => registry'
      | Aborted _ => registry
      end
  end.

Definition run (registry : SafeRegistry) (cs : list call) : SafeRegistry :=
  fold_left apply_call cs registry.

End SuiSafeRecord.

(** ** ETHWSUISwap.sol (evm-eth-wsui-swap)

    Solidity ^0.8.19: arithmetic on [uint256] is checked and panics with
    code 0x11 out of range.  A [bytes32] is the [Z] it denotes.  What lies
    outside the contract (whether a low-level ETH call or a token transfer
    goes through) is given by the environment of the call.  A call enters
    with the reentrancy guard free, since the environment does not call
    back.  Only [initiateETHToWSUI] is [payable]: every other function
    reverts, before its modifiers run and with no reason, when the call
    carries value. *)

Module ETHWSUISwap.
Import Bytes.

Definition UINT256_MAX : Z := 2 ^ 256 - 1.

Inductive revert :=
| Require (msg : string)
| Panic (code : Z)
| TokenRevert
| NonPayable.

Definition require (cond : bool) (msg : string) : tx revert unit :=
  if cond then Done tt else Aborted (Require msg).

Definition checked_add (a b : Z) : tx revert Z :=
  if a + b <=? UINT256_MAX then Done (a + b) else Aborted (Panic 17).
Definition checked_sub (a b : Z) : tx revert Z :=
  if b <=? a then Done (a - b) else Aborted (Panic 17).
Definition checked_mul (a b : Z) : tx revert Z :=
  if a * b <=? UINT256_MAX then Done (a * b) else Aborted (Panic 17).

Definition address := Z.

Inductive SwapType := ETH_TO_WSUI | WSUI_TO_ETH.

Record Swap := {
  secretHash : Z;
  ethAmount : Z;
  wsuiAmount : Z;
  initiator : address;
  participant : address;
  timelock : Z;
  withdrawn : bool;
  refunded : bool;
  swapType : SwapType
}.

(** The value of a mapping slot that was never written. *)
Definition zero_swap : Swap :=
  {| secretHash := 0; ethAmount := 0; wsuiAmount := 0; initiator := 0;
     participant := 0; timelock := 0; withdrawn := false; refunded := false;
     swapType := ETH_TO_WSUI |}.

Definition MIN_TIMELOCK : Z := 3600.
Definition MAX_TIMELOCK : Z := 172800.
Definition MAX_FEE : Z := 1000.

Record State := {
  swaps : gmap Z Swap;
  swapFee : Z;
  feeRecipient : address;
  owner : address;
  paused : bool
}.

Record Env := {
  msg_sender : address;
  msg_value : Z;
  block_timestamp : Z;
  (** does [payable(to).call{value: v}("")] succeed *)
  eth_call : address -> Z -> bool;
  (** does [wsuiToken.safeTransfer(to, v)] go through *)
  wsui_transfer : address -> Z -> bool;
  (** does [wsuiToken.safeTransferFrom(from, this, v)] go through *)
  wsui_transferFrom : address -> Z -> bool
}.

Inductive Effect :=
| SendETH (to : address) (amount : Z)
| SendWSUI (to : address) (amount : Z)
| PullWSUI (from : address) (amount : Z)
| SwapInitiated (swapId secretHash : Z) (initiator participant : address)
                (ethAmount wsuiAmount timelock : Z) (swapType : SwapType)
| SwapWithdrawn (swapId : Z) (withdrawer : address) (secret : Z)
| SwapRefunded (swapId : Z) (refunder : address).

Definition swap_at (st : State) (swapId : Z) : Swap :=
  default zero_swap (swaps st !! swapId).

Definition store (st : State) (swapId : Z) (sw : Swap) : State :=
  {| swaps := <[swapId := sw]> (swaps st); swapFee := swapFee st;
     feeRecipient := feeRecipient st; owner := owner st; paused := paused st |}.

Definition mark_withdrawn (sw : Swap) : Swap :=
  {| secretHash := secretHash sw; ethAmount := ethAmount sw;
     wsuiAmount := wsuiAmount sw; initiator := initiator sw;
     participant := participant sw; timelock := timelock sw;
     withdrawn := true; refunded := refunded sw; swapType := swapType sw |}.

Definition mark_refunded (sw : Swap) : Swap :=
  {| secretHash := secretHash sw; ethAmount := ethAmount sw;
     wsuiAmount := wsuiAmount sw; initiator := initiator sw;
     participant := participant sw; timelock := timelock sw;
     withdrawn := withdrawn sw; refunded := true; swapType := swapType sw |}.

(** The two hashes the contract computes.  The rules of the contract do
    not depend on which functions they are; [evm] gives what the EVM
    computes: [sha256(abi.encodePacked(secret))] for a [bytes32] secret,
    and [keccak256(abi.encodePacked(a, b, h, t, v, w))] for two addresses
    on 20 bytes followed by four 32-byte words. *)
Class Hashes := {
  sha256_bytes32 : Z -> Z;
  swap_id : address -> address -> Z -> Z -> Z -> Z -> Z
}.

Definition evm : Hashes :=
  {| sha256_bytes32 secret := be_word (SHA256.sha256 (be_bytes 32 secret));
     swap_id a b h t v w :=
       be_word (Keccak.keccak256
         (be_bytes 20 a ++ be_bytes 20 b ++ be_bytes 32 h ++ be_bytes 32 t
          ++ be_bytes 32 v ++ be_bytes 32 w)) |}.

Definition constructor (deployer _wsuiToken _feeRecipient : address) : tx revert State :=
  _ ← require (negb (_wsuiToken =? 0)) "ETHWSUISwap: invalid wSUI token address";
  _ ← require (negb (_feeRecipient =? 0)) "ETHWSUISwap: invalid fee recipient";
  Done {| swaps := ∅; swapFee := 30; feeRecipient := _feeRecipient;
          owner := deployer; paused := false |}.

(** The check the compiler puts at the head of a function that is not
    [payable]. *)
Definition nonpayable (env : Env) : tx revert unit :=
  if msg_value env =? 0 then Done tt else Aborted NonPayable.

(** Modifiers. *)
Definition validSwap (st : State) (swapId : Z) : tx revert unit :=
  require (0 <? timelock (swap_at st swapId)) "ETHWSUISwap: swap does not exist".

Definition withdrawable `{Hashes} (st : State) (env : Env) (swapId secret : Z) : tx revert unit :=
  _ ← require (negb (withdrawn (swap_at st swapId))) "ETHWSUISwap: already withdrawn";
  _ ← require (negb (refunded (swap_at st swapId))) "ETHWSUISwap: already refunded";
  _ ← require (block_timestamp env <=? timelock (swap_at st swapId))
              "ETHWSUISwap: timelock expired";
  require (sha256_bytes32 secret =? secretHash (swap_at st swapId))
          "ETHWSUISwap: invalid secret".

Definition refundable (st : State) (env : Env) (swapId : Z) : tx revert unit :=
  _ ← require (negb (withdrawn (swap_at st swapId))) "ETHWSUISwap: already withdrawn";
  _ ← require (negb (refunded (swap_at st swapId))) "ETHWSUISwap: already refunded";
  _ ← require (timelock (swap_at st swapId) <? block_timestamp env)
              "ETHWSUISwap: timelock not expired";
  require (msg_sender env =? initiator (swap_at st swapId))
          "ETHWSUISwap: only initiator can refund".

Definition whenNotPaused (st : State) : tx revert unit :=
  require (negb (paused st)) "Pausable: paused".

Definition onlyOwner (st : State) (env : Env) : tx revert unit :=
  require (msg_sender env =? owner st) "Ownable: caller is not the owner".

Definition timelock_is_zero (st : State) (swapId : Z) : bool :=
  timelock (swap_at st swapId) =? 0.

Definition safeTransfer (env : Env) (to : address) (amount : Z) : tx revert unit :=
  if wsui_transfer env to amount then Done tt else Aborted TokenRevert.

Definition safeTransferFrom (env : Env) (from : address) (amount : Z) : tx revert unit :=
  if wsui_transferFrom env from amount then Done tt else Aborted TokenRevert.

Definition initiateETHToWSUI `{Hashes} (st : State) (env : Env)
    (secretHash : Z) (participant : address) (wsuiAmount timelock : Z)
    : tx revert (State * list Effect) :=
  _ ← whenNotPaused st;
  _ ← require (0 <? msg_value env) "ETHWSUISwap: ETH amount must be greater than 0";
  _ ← require (negb (participant =? 0)) "ETHWSUISwap: invalid participant address";
  _ ← require (negb (participant =? msg_sender env))
              "ETHWSUISwap: participant cannot be initiator";
  _ ← require (0 <? wsuiAmount) "ETHWSUISwap: wSUI amount must be greater than 0";
  lo ← checked_add (block_timestamp env) MIN_TIMELOCK;
  _ ← require (lo <=? timelock) "ETHWSUISwap: timelock too short";
  hi ← checked_add (block_timestamp env) MAX_TIMELOCK;
  _ ← require (timelock <=? hi) "ETHWSUISwap: timelock too long";
  _ ← require (negb (secretHash =? 0)) "ETHWSUISwap: invalid secret hash";
  let swapId := swap_id (msg_sender env) participant secretHash
                        (block_timestamp env) (msg_value env) wsuiAmount in
  _ ← require (timelock_is_zero st swapId) "ETHWSUISwap: swap already exists";
  let sw := {| secretHash := secretHash; ethAmount := msg_value env;
               wsuiAmount := wsuiAmount; initiator := msg_sender env;
               participant := participant; timelock := timelock;
               withdrawn := false; refunded := false; swapType := ETH_TO_WSUI |} in
  Done (store st swapId sw,
        [SwapInitiated swapId secretHash (msg_sender env) participant
                       (msg_value env) wsuiAmount timelock ETH_TO_WSUI]).

Definition initiateWSUIToETH `{Hashes} (st : State) (env : Env)
    (secretHash : Z) (participant : address) (wsuiAmount ethAmount timelock : Z)
    : tx revert (State * list Effect) :=
  _ ← nonpayable env;
  _ ← whenNotPaused st;
  _ ← require (0 <? wsuiAmount) "ETHWSUISwap: wSUI amount must be greater than 0";
  _ ← require (0 <? ethAmount) "ETHWSUISwap: ETH amount must be greater than 0";
  _ ← require (negb (participant =? 0)) "ETHWSUISwap: invalid participant address";
  _ ← require (negb (participant =? msg_sender env))
              "ETHWSUISwap: participant cannot be initiator";
  lo ← checked_add (block_timestamp env) MIN_TIMELOCK;
  _ ← require (lo <=? timelock) "ETHWSUISwap: timelock too short";
  hi ← checked_add (block_timestamp env) MAX_TIMELOCK;
  _ ← require (timelock <=? hi) "ETHWSUISwap: timelock too long";
  _ ← require (negb (secretHash =? 0)) "ETHWSUISwap: invalid secret hash";
  let swapId := swap_id (msg_sender env) participant secretHash
                        (block_timestamp env) wsuiAmount ethAmount in
  _ ← require (timelock_is_zero st swapId) "ETHWSUISwap: swap already exists";
  _ ← safeTransferFrom env (msg_sender env) wsuiAmount;
  let sw := {| secretHash := secretHash; ethAmount := ethAmount;
               wsuiAmount := wsuiAmount; initiator := msg_sender env;
               participant := participant; timelock := timelock;
               withdrawn := false; refunded := false; swapType := WSUI_TO_ETH |} in
  Done (store st swapId sw,
        [PullWSUI (msg_sender env) wsuiAmount;
         SwapInitiated swapId secretHash (msg_sender env) participant
                       ethAmount wsuiAmount timelock WSUI_TO_ETH]).

(** The fee split of [withdraw]: [fee = (amount * swapFee) / 10000] and
    [netAmount = amount - fee], both checked. *)
Definition fee_split (amount fee_bps : Z) : tx revert (Z * Z) :=
  product ← checked_mul amount fee_bps;
  let fee := product / 10000 in
  netAmount ← checked_sub amount fee;
  Done (fee, netAmount).

Definition withdraw `{Hashes} (st : State) (env : Env) (swapId secret : Z)
    : tx revert (State * list Effect) :=
  _ ← nonpayable env;
  _ ← validSwap st swapId;
  _ ← withdrawable st env swapId secret;
  _ ← require (msg_sender env =? participant (swap_at st swapId))
              "ETHWSUISwap: only participant can withdraw";
  let swap := mark_withdrawn (swap_at st swapId) in
  let st1 := store st swapId swap in
  match swapType swap with
  | ETH_TO_WSUI =>
      '(fee, netAmount) ← fee_split (ethAmount swap) (swapFee st1);
      _ ← require (eth_call env (participant swap) netAmount)
                  "ETHWSUISwap: ETH transfer failed";
      paid ← (if 0 <? fee
              then _ ← require (eth_call env (feeRecipient st1) fee)
                               "ETHWSUISwap: fee transfer failed";
                   Done [SendETH (feeRecipient st1) fee]
              else Done []);
      Done (st1, SendETH (participant swap) netAmount :: paid
                 ++ [SwapWithdrawn swapId (msg_sender env) secret])
  | WSUI_TO_ETH =>
      '(fee, netAmount) ← fee_split (wsuiAmount swap) (swapFee st1);
      _ ← safeTransfer env (participant swap) netAmount;
      paid ← (if 0 <? fee
              then _ ← safeTransfer env (feeRecipient st1) fee;
                   Done [SendWSUI (feeRecipient st1) fee]
              else Done []);
      Done (st1, SendWSUI (participant swap) netAmount :: paid
                 ++ [SwapWithdrawn swapId (msg_sender env) secret])
  end.

Definition refund (st : State) (env : Env) (swapId : Z)
    : tx revert (State * list Effect) :=
  _ ← nonpayable env;
  _ ← validSwap st swapId;
  _ ← refundable st env swapId;
  let swap := mark_refunded (swap_at st swapId) in
  let st1 := store st swapId swap in
  match swapType swap with
  | ETH_TO_WSUI =>
      _ ← require (eth_call env (initiator swap) (ethAmount swap))
                  "ETHWSUISwap: ETH refund failed";
      Done (st1, [SendETH (initiator swap) (ethAmount swap);
                  SwapRefunded swapId (msg_sender env)])
  | WSUI_TO_ETH =>
      _ ← safeTransfer env (initiator swap) (wsuiAmount swap);
      Done (st1, [SendWSUI (initiator swap) (wsuiAmount swap);
                  SwapRefunded swapId (msg_sender env)])
  end.

(** The views, as a call without value reads them: of the environment
    they take the block time only. *)
Definition isWithdrawable `{Hashes} (st : State) (env : Env) (swapId secret : Z) : bool :=
  let swap := swap_at st swapId in
  (0 <? timelock swap) && negb (withdrawn swap) && negb (refunded swap)
  && (block_timestamp env <=? timelock swap)
  && (sha256_bytes32 secret =? secretHash swap).

Definition isRefundable (st : State) (env : Env) (swapId : Z) : bool :=
  let swap := swap_at st swapId in
  (0 <? timelock swap) && negb (withdrawn swap) && negb (refunded swap)
  && (timelock swap <? block_timestamp env).

Definition setSwapFee (st : State) (env : Env) (_swapFee : Z) : tx revert State :=
  _ ← nonpayable env;
  _ ← onlyOwner st env;
  _ ← require (_swapFee <=? MAX_FEE) "ETHWSUISwap: fee too high";
  Done {| swaps := swaps st; swapFee := _swapFee; feeRecipient := feeRecipient st;
          owner := owner st; paused := paused st |}.

Definition setFeeRecipient (st : State) (env : Env) (_feeRecipient : address)
    : tx revert State :=
  _ ← nonpayable env;
  _ ← onlyOwner st env;
  _ ← require (negb (_feeRecipient =? 0)) "ETHWSUISwap: invalid fee recipient";
  Done {| swaps := swaps st; swapFee := swapFee st; feeRecipient := _feeRecipient;
          owner := owner st; paused := paused st |}.

Definition pause (st : State) (env : Env) : tx revert State :=
  _ ← nonpayable env;
  _ ← onlyOwner st env;
  _ ← require (negb (paused st)) "Pausable: paused";
  Done {| swaps := swaps st; swapFee := swapFee st; feeRecipient := feeRecipient st;
          owner := owner st; paused := true |}.

Definition unpause (st : State) (env : Env) : tx revert State :=
  _ ← nonpayable env;
  _ ← onlyOwner st env;
  _ ← require (paused st) "Pausable: not paused";
  Done {| swaps := swaps st; swapFee := swapFee st; feeRecipient := feeRecipient st;
          owner := owner st; paused := false |}.

(** The calls the contract can receive.  The two emergency withdrawals
    move balances only and touch no swap. *)
Inductive call :=
| CallInitiateETHToWSUI (secretHash : Z) (participant : address) (wsuiAmount timelock : Z)
| CallInitiateWSUIToETH (secretHash : Z) (participant : address)
                        (wsuiAmount ethAmount timelock : Z)
| CallWithdraw (swapId secret : Z)
| CallRefund (swapId : Z)
| CallSetSwapFee (_swapFee : Z)
| CallSetFeeRecipient (_feeRecipient : address)
| CallPause
| CallUnpause.

Definition dispatch `{Hashes} (st : State) (env : Env) (c : call) : tx revert State :=
  match c with
  | CallInitiateETHToWSUI h p w t => fst <$> initiateETHToWSUI st env h p w t
  | CallInitiateWSUIToETH h p w e t => fst <$> initiateWSUIToETH st env h p w e t
  | CallWithdraw i s => fst <$> withdraw st env i s
  | CallRefund i => fst <$> refund st env i
  | CallSetSwapFee f => setSwapFee st env f
  | CallSetFeeRecipient r => setFeeRecipient st env r
  | CallPause => pause st env
  | CallUnpause => unpause st env
  end.

(** A reverted call leaves the storage as it was. *)
Definition apply_call `{Hashes} (st : State) (ec : Env * call) : State :=
  match dispatch st (fst ec) (snd ec) with
  | Done st' => st'
  | Aborted _ => st
  end.

Definition run `{Hashes} (st : State) (cs : list (Env * call)) : State :=
  fold_left apply_call cs st.

(** The amount a swap locks, and the transfer that pays it out: ETH for
    an ETH-to-wSUI swap, wSUI for the other direction. *)
Definition locked_amount (sw : Swap) : Z :=
  match swapType sw with
  | ETH_TO_WSUI => ethAmount sw
  | WSUI_TO_ETH => wsuiAmount sw
  end.

Definition pay (sw : Swap) (to : address) (amount : Z) : Effect :=
  match swapType sw with
  | ETH_TO_WSUI => SendETH to amount
  | WSUI_TO_ETH => SendWSUI to amount
  end.

Definition transfer_ok (env : Env) (sw : Swap) (to : address) (amount : Z) : bool :=
  match swapType sw with
  | ETH_TO_WSUI => eth_call env to amount
  | WSUI_TO_ETH => wsui_transfer env to amount
  end.

(** The invariant of the storage: no swap carries both terminal flags,
    and a swap that carries one exists (its timelock is not zero). *)
Definition settled (sw : Swap) : bool := withdrawn sw || refunded sw.

Definition flags_ok (st : State) : Prop :=
  forall i : Z,
    withdrawn (swap_at st i) && refunded (swap_at st i) = false
    /\ (settled (swap_at st i) = true -> 0 < timelock (swap_at st i)).

(** [getSwap] returns the nine fields of the slot. *)
Definition getSwap (st : State) (swapId : Z)
    : Z * Z * Z * address * address * Z * bool * bool * SwapType :=
  let swap := swap_at st swapId in
  (secretHash swap, ethAmount swap, wsuiAmount swap, initiator swap,
   participant swap, timelock swap, withdrawn swap, refunded swap, swapType swap).

(** The terms of a swap: what [getSwap] returns apart from the two
    flags. *)
Definition terms (st : State) (swapId : Z)
    : Z * Z * Z * address * address * Z * SwapType :=
  let '(h, e, w, i, p, t, _, _, ty) := getSwap st swapId in (h, e, w, i, p, t, ty).

(** The fee settings the administrative calls keep: the fee is at most
    [MAX_FEE], there is a fee recipient, and no swap locks a negative
    amount. *)
Definition fees_ok (st : State) : Prop :=
  swapFee st <= MAX_FEE /\ feeRecipient st <> 0
  /\ forall i : Z, 0 <= locked_amount (swap_at st i).

End ETHWSUISwap.

(** ** contracts/ethereum: contract [SafeEscrow]

    One contract per safe.  The secret is a [string], hashed as its
    bytes; [payable(a).transfer(v)] reverts when the transfer fails,
    which the environment of the call decides.  Only the constructor is
    [payable]: [withdraw] and [refund] revert, before anything else and
    with no reason, when the call carries value. *)

Module EthSafeEscrow.
Import Bytes.

Definition UINT256_MAX : Z := 2 ^ 256 - 1.

Inductive revert :=
| Require (msg : string)
| Panic (code : Z)
| TransferFailed
| NonPayable.

Definition require (cond : bool) (msg : string) : tx revert unit :=
  if cond then Done tt else Aborted (Require msg).

Definition checked_add (a b : Z) : tx revert Z :=
  if a + b <=? UINT256_MAX then Done (a + b) else Aborted (Panic 17).

Definition address := Z.

Record State := {
  startTime : Z;
  lockDuration : Z;
  secretHash : bytes;
  owner : address;
  beneficiary : address;
  amount : Z;
  revealedSecret : bytes;
  isWithdrawn : bool;
  isRefunded : bool;
  useSha256 : bool
}.

Record Env := {
  this : address;
  msg_sender : address;
  msg_value : Z;
  block_timestamp : Z;
  (** does [payable(to).transfer(v)] go through *)
  transfer : address -> Z -> bool
}.

Inductive Effect :=
| Transfer (to : address) (amount : Z)
| SafeCreated (safeAddress owner beneficiary : address) (amount : Z) (secretHash : bytes)
              (startTime lockDuration : Z) (useSha256 : bool)
| SafeWithdrawn (safeAddress withdrawer beneficiary : address) (amount : Z) (secret : bytes)
| SafeRefunded (safeAddress owner : address) (amount : Z).

Definition constructor (env : Env) (_secretHash : bytes) (_owner _beneficiary : address)
    (_lockDuration : Z) (_useSha256 : bool) : tx revert (State * list Effect) :=
  _ ← require (0 <? msg_value env) "Amount must be greater than 0";
  _ ← require (negb (_beneficiary =? 0)) "Invalid beneficiary address";
  _ ← require (negb (_owner =? 0)) "Invalid owner address";
  Done ({| startTime := block_timestamp env; lockDuration := _lockDuration;
           secretHash := _secretHash; owner := _owner; beneficiary := _beneficiary;
           amount := msg_value env; revealedSecret := [];
           isWithdrawn := false; isRefunded := false; useSha256 := _useSha256 |},
        [SafeCreated (this env) _owner _beneficiary (msg_value env) _secretHash
                     (block_timestamp env) _lockDuration _useSha256]).

Definition payable_transfer (env : Env) (to : address) (value : Z) : tx revert unit :=
  if transfer env to value then Done tt else Aborted TransferFailed.

(** The check the compiler puts at the head of a function that is not
    [payable]. *)
Definition nonpayable (env : Env) : tx revert unit :=
  if msg_value env =? 0 then Done tt else Aborted NonPayable.

Definition withdraw (st : State) (env : Env) (_secret : bytes)
    : tx revert (State * list Effect) :=
  _ ← nonpayable env;
  _ ← require (negb (isWithdrawn st)) "Already withdrawn";
  _ ← require (negb (isRefunded st)) "Already refunded";
  deadline ← checked_add (startTime st) (lockDuration st);
  _ ← require (block_timestamp env <=? deadline) "Lock period expired";
  let computedHash :=
    if useSha256 st then SHA256.sha256 _secret else Keccak.keccak256 _secret in
  _ ← require (bytes_eqb computedHash (secretHash st)) "Invalid secret";
  let st1 := {| startTime := startTime st; lockDuration := lockDuration st;
                secretHash := secretHash st; owner := owner st;
                beneficiary := beneficiary st; amount := amount st;
                revealedSecret := _secret; isWithdrawn := true;
                isRefunded := isRefunded st; useSha256 := useSha256 st |} in
  _ ← payable_transfer env (msg_sender env) (amount st1);
  Done (st1, [Transfer (msg_sender env) (amount st1);
              SafeWithdrawn (this env) (msg_sender env) (beneficiary st1) (amount st1)
                            _secret]).

Definition refund (st : State) (env : Env) : tx revert (State * list Effect) :=
  _ ← nonpayable env;
  _ ← require (msg_sender env =? owner st) "Only owner can refund";
  _ ← require (negb (isWithdrawn st)) "Already withdrawn";
  _ ← require (negb (isRefunded st)) "Already refunded";
  deadline ← checked_add (startTime st) (lockDuration st);
  _ ← require (deadline <? block_timestamp env) "Lock period not expired yet";
  let st1 := {| startTime := startTime st; lockDuration := lockDuration st;
                secretHash := secretHash st; owner := owner st;
                beneficiary := beneficiary st; amount := amount st;
                revealedSecret := revealedSecret st; isWithdrawn := isWithdrawn st;
                isRefunded := true; useSha256 := useSha256 st |} in
  _ ← payable_transfer env (owner st1) (amount st1);
  Done (st1, [Transfer (owner st1) (amount st1);
              SafeRefunded (this env) (owner st1) (amount st1)]).

(** The views, as a call without value reads them: of the environment
    they take the block time only. *)
Definition isLockExpired (st : State) (env : Env) : tx revert bool :=
  deadline ← checked_add (startTime st) (lockDuration st);
  Done (deadline <? block_timestamp env).

Definition isSafeAvailable (st : State) : bool :=
  negb (isWithdrawn st) && negb (isRefunded st).

Definition getTimeLeft (st : State) (env : Env) : tx revert Z :=
  deadline ← checked_add (startTime st) (lockDuration st);
  if deadline <=? block_timestamp env then Done 0
  else deadline ← checked_add (startTime st) (lockDuration st);
       Done (deadline - block_timestamp env).

(** The calls the safe can receive; a reverted call leaves it as it was. *)
Inductive call :=
| CallWithdraw (_secret : bytes)
| CallRefund.

Definition apply_call (st : State) (ec : Env * call) : State :=
  match (match snd ec with
         | CallWithdraw _secret => withdraw st (fst ec) _secret
         | CallRefund => refund st (fst ec)
         end) with
  | Done (st', _) => st'
  | Aborted _ => st
  end.

Definition run (st : State) (cs : list (Env * call)) : State :=
  fold_left apply_call cs st.

(** The safe after a list of calls together with the ETH transfers the
    calls made, in order. *)
Definition transfers (fx : list Effect) : list (address * Z) :=
  omap (fun e => match e with Transfer to value => Some (to, value) | _ => None end) fx.

Definition apply_call_paid (r : State * list (address * Z)) (ec : Env * call)
    : State * list (address * Z) :=
  match (match snd ec with
         | CallWithdraw _secret => withdraw (fst r) (fst ec) _secret
         | CallRefund => refund (fst r) (fst ec)
         end) with
  | Done (st', fx) => (st', snd r ++ transfers fx)
  | Aborted _ => r
  end.

Definition run_paid (st : State) (cs : list (Env * call)) : State * list (address * Z) :=
  fold_left apply_call_paid cs (st, []).

End EthSafeEscrow.

(** ** JavaScript values

    The fragment the timeout configuration needs: numbers (integers, and
    NaN), [undefined], object literals, and the members every object
    inherits from [Object.prototype].  A number is the integer it
    denotes, added and compared as an integer: that is what JavaScript
    computes on doubles as long as the operands and the sum are safe
    integers ([is_safe_integer], as [Number.isSafeInteger]), which
    durations and times in milliseconds are; past that range a sum is
    rounded, which the model leaves out. *)

Module Js.

#[warnings="-register-all"]
Inductive value :=
| Undefined
| Num (n : Z)
| NaN
| Obj (props : list (string * value))
| Builtin (name : string).

(** The own property names of [Object.prototype]: eleven functions and
    the accessor [__proto__], whose value is the prototype object. *)
Definition object_prototype_keys : list string :=
  ["constructor"; "__defineGetter__"; "__defineSetter__"; "hasOwnProperty";
   "__lookupGetter__"; "__lookupSetter__"; "isPrototypeOf";
   "propertyIsEnumerable"; "toString"; "valueOf"; "__proto__";
   "toLocaleString"]%string.

Definition MAX_SAFE_INTEGER : Z := 2 ^ 53 - 1.

Definition is_safe_integer (n : Z) : Prop :=
  - MAX_SAFE_INTEGER <= n <= MAX_SAFE_INTEGER.

Definition inherited (key : string) : value :=
  if bool_decide (key ∈ object_prototype_keys) then Builtin key else Undefined.

Fixpoint own (props : list (string * value)) (key : string) : option value :=
  match props with
  | [] => None
  | (k, v) :: r => if String.eqb k key then Some v else own r key
  end.

Inductive error :=
| TypeError.

(** [o[key]]: own properties first, then the prototype chain.  Reading a
    property of [undefined] throws.  Of a function or a number only the
    members inherited from [Object.prototype] are modelled; the keys the
    program reads from a configuration are none of their own members. *)
Definition get (o : value) (key : string) : tx error value :=
  match o with
  | Undefined => Aborted TypeError
  | Obj props =>
      match own props key with
      | Some v => Done v
      | None => Done (inherited key)
      end
  | Builtin _ | Num _ | NaN => Done (inherited key)
  end.

Definition truthy (v : value) : bool :=
  match v with
  | Undefined | NaN => false
  | Num n => negb (n =? 0)
  | Obj _ | Builtin _ => true
  end.

(** [a || b] *)
Definition or (a b : value) : value := if truthy a then a else b.

(** Numeric comparison and addition after [ToNumber]: anything that is
    not a number compares false and adds to NaN. *)
Definition lt (a b : value) : bool :=
  match a, b with Num x, Num y => x <? y | _, _ => false end.
Definition le (a b : value) : bool :=
  match a, b with Num x, Num y => x <=? y | _, _ => false end.
Definition add (a b : value) : value :=
  match a, b with Num x, Num y => Num (x + y) | _, _ => NaN end.
Definition max (a b : value) : value :=
  match a, b with Num x, Num y => Num (Z.max x y) | _, _ => NaN end.

(** [parseInt(process.env.X) || d], given what [parseInt] returned
    ([None] for NaN). *)
Definition parseInt_or (parsed : option Z) (d : Z) : Z :=
  match parsed with
  | Some n => if n =? 0 then d else n
  | None => d
  end.

End Js.

(** ** src/utils/TimeoutManager.js *)

Module TimeoutManager.
Import Js.

Definition profile (sourceTimeout destTimeout safetyMargin minTimeout : Z) : value :=
  Obj [("sourceTimeout", Num sourceTimeout); ("destTimeout", Num destTimeout);
       ("safetyMargin", Num safetyMargin); ("minTimeout", Num minTimeout)]%string.

Definition configs : value :=
  Obj [("mainnet",
        profile (3 * 60 * 60 * 1000) (30 * 60 * 1000) (30 * 60 * 1000) (10 * 60 * 1000));
       ("testnet",
        profile (30 * 60 * 1000) (5 * 60 * 1000) (5 * 60 * 1000) (2 * 60 * 1000));
       ("devnet",
        profile (10 * 60 * 1000) (2 * 60 * 1000) (2 * 60 * 1000) (1 * 60 * 1000))]%string.

(** [configs[network] || configs.testnet] *)
Definition _getTimeoutConfig (network : string) : tx error value :=
  chosen ← get configs network;
  fallback ← get configs "testnet";
  Done (or chosen fallback).

Record t := { network : string; config : value }.

(** [constructor(network = 'testnet')]: [None] is a missing or
    [undefined] argument. *)
Definition constructor (network : option string) : tx error t :=
  let network := default "testnet"%string network in
  config ← _getTimeoutConfig network;
  Done {| network := network; config := config |}.

Definition getDefaultSourceTimeout (this : t) : tx error value :=
  get (config this) "sourceTimeout".
Definition getDefaultDestTimeout (this : t) : tx error value :=
  get (config this) "destTimeout".
Definition getSafetyMargin (this : t) : tx error value :=
  get (config this) "safetyMargin".

Record timeouts := { sourceTimeout : value; destTimeout : value; safetyMargin : value }.

Definition calculateOptimalTimeouts (this : t) (estimatedExecutionTime : Z)
    : tx error timeouts :=
  cfgDest ← get (config this) "destTimeout";
  margin ← get (config this) "safetyMargin";
  minTimeout ← get (config this) "minTimeout";
  let baseDestTimeout := max cfgDest (add (Num estimatedExecutionTime) margin) in
  let baseSourceTimeout := add baseDestTimeout margin in
  Done {| sourceTimeout := max baseSourceTimeout minTimeout;
          destTimeout := max baseDestTimeout minTimeout;
          safetyMargin := margin |}.

(** What [validateTimeouts] throws: the three [Error]s of the source with
    the numbers their messages print, or the error of a failed read. *)
Inductive failure :=
| SourceBelowMinimum (sourceTimeout : Z) (minTimeout : value)
| DestBelowMinimum (destTimeout : Z) (minTimeout : value)
| SafetyMarginViolated (sourceTimeout destTimeout : Z) (safetyMargin required : value)
| Thrown (e : error).

Definition read (this : t) (key : string) : tx failure value :=
  match get (config this) key with
  | Done v => Done v
  | Aborted e => Aborted (Thrown e)
  end.

Definition validateTimeouts (this : t) (sourceTimeout destTimeout : Z) : tx failure bool :=
  minTimeout ← read this "minTimeout";
  if lt (Num sourceTimeout) minTimeout
  then Aborted (SourceBelowMinimum sourceTimeout minTimeout) else
  if lt (Num destTimeout) minTimeout
  then Aborted (DestBelowMinimum destTimeout minTimeout) else
  margin ← read this "safetyMargin";
  let requiredSourceTimeout := add (Num destTimeout) margin in
  if le (Num sourceTimeout) requiredSourceTimeout
  then Aborted (SafetyMarginViolated sourceTimeout destTimeout margin requiredSourceTimeout)
  else Done true.

(** A manager whose configuration is a profile of four numbers. *)
Definition with_profile (name : string) (S D M m : Z) : t :=
  {| network := name; config := profile S D M m |}.

(** [Date.now()] is the argument [currentTime]. *)
Definition isSafeExpired (currentTime startTime lockDuration : Z) : bool :=
  startTime + lockDuration <? currentTime.

Definition getRemainingTime (currentTime startTime lockDuration : Z) : Z :=
  let expiryTime := startTime + lockDuration in
  if expiryTime <=? currentTime then 0 else expiryTime - currentTime.

(** [formatDuration] of a whole number of milliseconds.  [Math.floor] of
    a quotient by a positive number is [Z.div]; [%] takes the sign of the
    dividend, as [Z.rem]; a template prints an integer in decimal. *)
Definition formatDuration (milliseconds : Z) : string :=
  let seconds := milliseconds / 1000 in
  let minutes := seconds / 60 in
  let hours := minutes / 60 in
  let days := hours / 24 in
  if 0 <? days then
    pretty days +:+ "d " +:+ pretty (Z.rem hours 24) +:+ "h "
      +:+ pretty (Z.rem minutes 60) +:+ "m"
  else if 0 <? hours then
    pretty hours +:+ "h " +:+ pretty (Z.rem minutes 60) +:+ "m"
  else if 0 <? minutes then
    pretty minutes +:+ "m " +:+ pretty (Z.rem seconds 60) +:+ "s"
  else pretty seconds +:+ "s".

Record warning := { level : string; message : string }.

Definition getTimeoutWarnings (remainingTime : Z) : list warning :=
  let oneHour := 60 * 60 * 1000 in
  let thirtyMinutes := 30 * 60 * 1000 in
  let fiveMinutes := 5 * 60 * 1000 in
  if remainingTime <=? 0 then
    [{| level := "critical"; message := "Safe has expired" |}]
  else if remainingTime <=? fiveMinutes then
    [{| level := "critical";
        message := "Safe expires in " +:+ formatDuration remainingTime |}]
  else if remainingTime <=? thirtyMinutes then
    [{| level := "warning";
        message := "Safe expires in " +:+ formatDuration remainingTime |}]
  else if remainingTime <=? oneHour then
    [{| level := "info";
        message := "Safe expires in " +:+ formatDuration remainingTime |}]
  else [].

End TimeoutManager.

(** ** ConfigManager: the [timeouts] table and [getTimeoutConfig] *)

Module ConfigManager.
Import Js.

(** What [parseInt] returned for each environment variable, and
    [process.env.NETWORK]. *)
Record environment := {
  NETWORK : option string;
  MAINNET_SOURCE_TIMEOUT : option Z;
  MAINNET_DEST_TIMEOUT : option Z;
  TESTNET_SOURCE_TIMEOUT : option Z;
  TESTNET_DEST_TIMEOUT : option Z
}.

Record t := { network : string; timeouts : value }.

Definition string_or (s : option string) (d : string) : string :=
  match s with
  | Some x => if String.eqb x "" then d else x
  | None => d
  end.

Definition _loadConfig (env : environment) : t :=
  {| network := string_or (NETWORK env) "testnet";
     timeouts :=
       Obj [("mainnet",
             Obj [("source", Num (parseInt_or (MAINNET_SOURCE_TIMEOUT env) 10800000));
                  ("dest", Num (parseInt_or (MAINNET_DEST_TIMEOUT env) 1800000))]);
            ("testnet",
             Obj [("source", Num (parseInt_or (TESTNET_SOURCE_TIMEOUT env) 1800000));
                  ("dest", Num (parseInt_or (TESTNET_DEST_TIMEOUT env) 300000))])]%string |}.

(** [getTimeoutConfig(network = null)] *)
Definition getTimeoutConfig (this : t) (network : option string) : tx error value :=
  let targetNetwork := string_or network (ConfigManager.network this) in
  chosen ← get (timeouts this) targetNetwork;
  fallback ← get (timeouts this) "testnet";
  Done (or chosen fallback).

End ConfigManager.

(** ** RelayerService: the two withdraw-with-retry loops

    The loops are the same up to the chain they name.  Whether the k-th
    call of [escrowManager.withdrawFromSafe] resolves is given by
    [resolves k]; the loop's observable behaviour is the sequence of calls,
    log lines and delays it makes. *)

Module RelayerService.

Inductive chain := ethereum | sui.

Record t := { retryAttempts : Z; retryDelay : Z }.

(** [parseInt(process.env.RELAYER_RETRY_ATTEMPTS) || 3] and the fixed
    5 second delay. *)
Definition constructor (RELAYER_RETRY_ATTEMPTS : option Z) : t :=
  {| retryAttempts := Js.parseInt_or RELAYER_RETRY_ATTEMPTS 3; retryDelay := 5000 |}.

Inductive action :=
| LogAttempt (c : chain) (attempt total : Z)
| WithdrawFromSafe (c : chain) (safe : string) (secret : Bytes.bytes)
| LogSuccess (c : chain)
| LogFailure (c : chain) (attempt total : Z)
| Delay (milliseconds : Z)
| LogMaxRetries (c : chain).

(** [for (let attempt = 1; attempt <= this.retryAttempts; attempt++)],
    run for at most [fuel] iterations from [attempt]. *)
Fixpoint retry_loop (this : t) (c : chain) (safe : string) (secret : Bytes.bytes)
    (resolves : Z -> bool) (fuel : nat) (attempt : Z) : list action :=
  match fuel with
  | O => []
  | S k =>
      if attempt <=? retryAttempts this then
        LogAttempt c attempt (retryAttempts this) :: WithdrawFromSafe c safe secret ::
        (if resolves attempt then [LogSuccess c]
         else
           LogFailure c attempt (retryAttempts this) ::
           (if attempt <? retryAttempts this
            then Delay (retryDelay this * attempt)
            else LogMaxRetries c)
           :: retry_loop this c safe secret resolves k (attempt + 1))
      else []
  end.

Definition _withdrawFromEthereumSafeWithRetry (this : t) (safeAddress : string)
    (secret : Bytes.bytes) (resolves : Z -> bool) : list action :=
  retry_loop this ethereum safeAddress secret resolves (Z.to_nat (retryAttempts this)) 1.

Definition _withdrawFromSuiSafeWithRetry (this : t) (safeId : string)
    (secret : Bytes.bytes) (resolves : Z -> bool) : list action :=
  retry_loop this sui safeId secret resolves (Z.to_nat (retryAttempts this)) 1.

(** What a run did: the attempts it made and the delays it waited. *)
Definition attempts (tr : list action) : list Z :=
  omap (fun a => match a with LogAttempt _ k _ => Some k | _ => None end) tr.
Definition delays (tr : list action) : list Z :=
  omap (fun a => match a with Delay ms => Some ms | _ => None end) tr.
Definition withdrew (tr : list action) : bool :=
  existsb (fun a => match a with LogSuccess _ => true | _ => false end) tr.

(** The loop of either chain, and the world in which no call resolves. *)
Definition withdrawWithRetry (c : chain) :
    t -> string -> Bytes.bytes -> (Z -> bool) -> list action :=
  match c with
  | ethereum => _withdrawFromEthereumSafeWithRetry
  | sui => _withdrawFromSuiSafeWithRetry
  end.

Definition never_resolves : Z -> bool := fun _ => false.

End RelayerService.

(** ** src/core/CrossChainEscrowManager.js: [createCrossChainSafe]

    The two chain managers are outside the module: [creates r] tells
    whether the manager asked for the safe [r] returns it ([Some], with
    what it returns) or throws.  The run of [createCrossChainSafe] is the
    list of requests it sent to the managers, in order, and its result;
    the log lines and the [createdAt] stamp of the result are left out. *)

Module CrossChainEscrowManager.
Import Bytes.

Record params := {
  secret : JsString.js_string;
  sourceChain : string;
  destChain : string;
  sourceToken : string;
  destToken : string;
  sourceAmount : string;
  destAmount : string;
  sourceOwner : string;
  destOwner : string;
  sourceLockDuration : Z;
  destLockDuration : Z
}.

(** The argument of [createSafeSha256] and the manager that receives it;
    [token] is the field [token] of a request to the Ethereum manager and
    [coinType] of one to the Sui manager. *)
Record request := {
  manager : RelayerService.chain;
  token : string;
  amount : string;
  secretHash : bytes;
  beneficiary : string;
  lockDuration : Z
}.

Record t := { timeoutManager : TimeoutManager.t; isInitialized : bool }.

Inductive error :=
| NotInitialized
| InvalidTimeouts (f : TimeoutManager.failure)
| UnsupportedSourceChain (c : string)
| UnsupportedDestinationChain (c : string)
| ManagerThrew (r : request)
| LookupThrew.

Record result := {
  result_secretHash : string;
  sourceSafe : string;
  destSafe : string;
  result_sourceChain : string;
  result_destChain : string
}.

(** [chain === 'ethereum'], [chain === 'sui'], or neither. *)
Definition manager_of (c : string) : option RelayerService.chain :=
  if String.eqb c "ethereum" then Some RelayerService.ethereum
  else if String.eqb c "sui" then Some RelayerService.sui
  else None.

Definition createCrossChainSafe (this : t) (creates : request -> option string)
    (p : params) : list request * tx error result :=
  if negb (isInitialized this) then ([], Aborted NotInitialized) else
  match TimeoutManager.validateTimeouts (timeoutManager this)
          (sourceLockDuration p) (destLockDuration p) with
  | Aborted f => ([], Aborted (InvalidTimeouts f))
  | Done _ =>
      let secretHash := HashUtility.sha256 (HashUtility.Str (secret p)) in
      match manager_of (sourceChain p) with
      | None => ([], Aborted (UnsupportedSourceChain (sourceChain p)))
      | Some m1 =>
          let r1 := {| manager := m1; token := sourceToken p; amount := sourceAmount p;
                       secretHash := secretHash; beneficiary := destOwner p;
                       lockDuration := sourceLockDuration p |} in
          match creates r1 with
          | None => ([r1], Aborted (ManagerThrew r1))
          | Some source =>
              match manager_of (destChain p) with
              | None => ([r1], Aborted (UnsupportedDestinationChain (destChain p)))
              | Some m2 =>
                  let r2 := {| manager := m2; token := destToken p;
                               amount := destAmount p; secretHash := secretHash;
                               beneficiary := sourceOwner p;
                               lockDuration := destLockDuration p |} in
                  match creates r2 with
                  | None => ([r1; r2], Aborted (ManagerThrew r2))
                  | Some dest =>
                      ([r1; r2],
                       Done {| result_secretHash := to_hex secretHash;
                               sourceSafe := source; destSafe := dest;
                               result_sourceChain := sourceChain p;
                               result_destChain := destChain p |})
                  end
              end
          end
      end
  end.

(** [findSafesByHash(chain, hash)] at the two chain names the relayer
    passes.  For ['sui'] it ends in [SuiSafeManager.getSafeByHash], which
    throws when that manager is not initialised and otherwise returns
    [null].  For ['ethereum'] it ends in the registry contract's
    [getSafesByHash], which returns an array of addresses or throws:
    [getSafesByHash hash] is what it does. *)
Definition SuiSafeManager_getSafeByHash (isInitialized : bool) (_hash : bytes)
    : tx error (option string) :=
  if negb isInitialized then Aborted LookupThrew else Done None.

Definition findSafesByHash_sui (this : t) (suiManagerInitialized : bool) (hash : bytes)
    : tx error (option string) :=
  if negb (isInitialized this) then Aborted NotInitialized else
  SuiSafeManager_getSafeByHash suiManagerInitialized hash.

Definition findSafesByHash_ethereum (this : t) (getSafesByHash : bytes -> option (list string))
    (hash : bytes) : tx error (list string) :=
  if negb (isInitialized this) then Aborted NotInitialized else
  match getSafesByHash hash with
  | Some addresses => Done addresses
  | None => Aborted LookupThrew
  end.

End CrossChainEscrowManager.

(** ** RelayerService: the two listeners of [SafeWithdrawn] events

    A listener's run is the list of what it logs and calls, the actions
    of its retry loops included.  The secret of an event is a string on
    both chains (the [string] of the ABI of [SafeWithdrawn], the [String]
    of the Move event); it is hashed as a string and passed on as it
    is. *)

Module RelayerEvents.
Import RelayerService.

Inductive listener_action :=
| LogDetected (c : chain)
| FindSafesByHash (c : chain) (secretHash : Bytes.bytes)
| Retry (a : action)
| LogNoSafe (c : chain) (hash : string)
| LogListenerError (c : chain).

(** [if (suiSafeId)]: [null] and the empty string are falsy. *)
Definition onEthereumSafeWithdrawn (this : RelayerService.t) (isRunning : bool)
    (escrowManager : CrossChainEscrowManager.t) (suiManagerInitialized : bool)
    (secret : JsString.js_string) (resolves : string -> Z -> bool)
    : list listener_action :=
  if negb isRunning then [] else
  let secretHash := HashUtility.sha256 (HashUtility.Str secret) in
  LogDetected ethereum :: FindSafesByHash sui secretHash ::
  match CrossChainEscrowManager.findSafesByHash_sui escrowManager suiManagerInitialized
          secretHash with
  | Aborted _ => [LogListenerError ethereum]
  | Done suiSafeId =>
      match suiSafeId with
      | Some id =>
          if String.eqb id "" then [LogNoSafe sui (HashUtility.toHexString secretHash)]
          else map Retry (_withdrawFromSuiSafeWithRetry this id secret (resolves id))
      | None => [LogNoSafe sui (HashUtility.toHexString secretHash)]
      end
  end.

(** [if (ethSafes && ethSafes.length > 0)], then one retry loop per
    address, in order. *)
Definition onSuiSafeWithdrawn (this : RelayerService.t) (isRunning : bool)
    (escrowManager : CrossChainEscrowManager.t)
    (getSafesByHash : Bytes.bytes -> option (list string))
    (secret : JsString.js_string) (resolves : string -> Z -> bool)
    : list listener_action :=
  if negb isRunning then [] else
  let secretHash := HashUtility.sha256 (HashUtility.Str secret) in
  LogDetected sui :: FindSafesByHash ethereum secretHash ::
  match CrossChainEscrowManager.findSafesByHash_ethereum escrowManager getSafesByHash
          secretHash with
  | Aborted _ => [LogListenerError sui]
  | Done ethSafes =>
      if 0 <? Z.of_nat (length ethSafes)
      then flat_map (fun ethSafeAddress =>
                       map Retry (_withdrawFromEthereumSafeWithRetry
                                    this ethSafeAddress secret (resolves ethSafeAddress)))
                    ethSafes
      else [LogNoSafe ethereum (HashUtility.toHexString secretHash)]
  end.

(** The safes a run called [withdrawFromSafe] on, in order. *)
Definition withdrawals (tr : list listener_action) : list (chain * string) :=
  omap (fun a => match a with
                 | Retry (WithdrawFromSafe c safe _) => Some (c, safe)
                 | _ => None
                 end) tr.

End RelayerEvents.

(** ** The retry policy in the spec's words

    Exponential backoff with base 2, jitter of a quarter either way, and a
    cap: the nominal delay before retry [k] (counting from 1) is
    [base * 2^(k-1)], cut at [max_backoff]; a delay conforms when it lies
    within 25% of the nominal delay and does not exceed the cap. *)

Module RetryPolicySpec.

Definition nominal (base_backoff max_backoff : Z) (k : nat) : Z :=
  Z.min (base_backoff * 2 ^ Z.of_nat (k - 1)) max_backoff.

Definition conforms (base_backoff max_backoff : Z) (k : nat) (delay : Z) : Prop :=
  3 * nominal base_backoff max_backoff k <= 4 * delay
  /\ 4 * delay <= 5 * nominal base_backoff max_backoff k
  /\ delay <= max_backoff.

(** Every delay of a run conforms, the first being the delay before
    retry 1. *)
Definition schedule_conforms (base_backoff max_backoff : Z) (ds : list Z) : Prop :=
  forall (i : nat) (d : Z), ds !! i = Some d -> conforms base_backoff max_backoff (S i) d.

End RetryPolicySpec.

(** ** packages/resolver: ResolverService, the per-swap monitoring step

    Of a [SwapRequest] the fields the monitor reads are kept.  What the
    chains and the clock answer during one tick is a [World]: the three
    [check...] queries, whether the Sui transaction that creates the
    resolver's escrow throws, and [Date.now()].  The handlers are written
    over the answers, so that each of their branches can be stated; in
    the source the three queries are placeholders that always answer
    [false]: the worlds of the source are those of [placeholder] and
    [source_ticks].  The write to the database is taken to succeed, and a
    tick to finish before the next one fires. *)

Module ResolverService.

Inductive SwapStatus :=
| PENDING | USER_LOCKED | RESOLVER_LOCKED | BOTH_LOCKED | USER_CLAIMED
| RESOLVER_CLAIMED | COMPLETED | FAILED | REFUNDED | EXPIRED.

#[global] Instance SwapStatus_eq_dec : EqDecision SwapStatus.
Proof. solve_decision. Defined.

Inductive ChainType := ETHEREUM | SUI.

Record SwapRequest := {
  id : string;
  destinationChain : ChainType;
  userTimelock : Z;
  resolverTimelock : Z;
  status : SwapStatus
}.

Record Service := {
  activeSwaps : gmap string SwapRequest;
  monitoringIntervals : gset string
}.

Record World := {
  now : Z;
  userLocked : bool;
  userClaimed : bool;
  resolverClaimed : bool;
  suiTransactionThrows : bool
}.

Definition placeholder (now : Z) (suiTransactionThrows : bool) : World :=
  {| now := now; userLocked := false; userClaimed := false;
     resolverClaimed := false; suiTransactionThrows := suiTransactionThrows |}.

Inductive effect :=
| DatabaseUpdateSwap (swap : SwapRequest)
| SwapStatusChanged (swapId : string) (oldStatus newStatus : SwapStatus)
| LogSwapEvent (event swapId : string)
| LogError (action swapId : string).

Definition with_status (swap : SwapRequest) (newStatus : SwapStatus) : SwapRequest :=
  {| id := id swap; destinationChain := destinationChain swap;
     userTimelock := userTimelock swap; resolverTimelock := resolverTimelock swap;
     status := newStatus |}.

Definition set_swaps (sv : Service) (m : gmap string SwapRequest) : Service :=
  {| activeSwaps := m; monitoringIntervals := monitoringIntervals sv |}.

Definition updateSwapStatus (sv : Service) (swapId : string) (newStatus : SwapStatus)
    : Service * list effect :=
  match activeSwaps sv !! swapId with
  | None => (sv, [])
  | Some swap =>
      let oldStatus := status swap in
      let swap' := with_status swap newStatus in
      (set_swaps sv (<[swapId := swap']> (activeSwaps sv)),
       [DatabaseUpdateSwap swap'; SwapStatusChanged swapId oldStatus newStatus])
  end.

(** Sequencing of two effectful steps on the service. *)
Definition andThen (r : Service * list effect)
    (k : Service -> Service * list effect) : Service * list effect :=
  let '(sv', es') := k (fst r) in (sv', snd r ++ es').

Definition log (e : effect) (sv : Service) : Service * list effect := (sv, [e]).

Definition handlePendingSwap (sv : Service) (w : World) (swapId : string)
    (swap : SwapRequest) : Service * list effect :=
  andThen
    (if userLocked w
     then andThen (updateSwapStatus sv swapId USER_LOCKED)
                  (log (LogSwapEvent "user_locked" swapId))
     else (sv, []))
    (fun sv1 =>
       if userTimelock swap <? now w
       then andThen (updateSwapStatus sv1 swapId EXPIRED)
                    (log (LogSwapEvent "swap_expired" swapId))
       else (sv1, [])).

(** [createAndLockResolverSide]: the Sui branch sends a transaction, which
    may throw; the Ethereum branch is empty. *)
Definition createAndLockResolverSide_throws (w : World) (swap : SwapRequest) : bool :=
  match destinationChain swap with
  | SUI => suiTransactionThrows w
  | ETHEREUM => false
  end.

Definition handleUserLockedSwap (sv : Service) (w : World) (swapId : string)
    (swap : SwapRequest) : Service * list effect :=
  andThen (log (LogSwapEvent "creating_resolver_escrow" swapId) sv)
    (fun sv1 =>
       if createAndLockResolverSide_throws w swap
       then log (LogError "handleUserLockedSwap" swapId) sv1
       else andThen (updateSwapStatus sv1 swapId BOTH_LOCKED)
                    (log (LogSwapEvent "resolver_locked" swapId))).

Definition claimResolverSide (sv : Service) (swapId : string) : Service * list effect :=
  log (LogSwapEvent "claiming_resolver_funds" swapId) sv.

Definition handleBothLockedSwap (sv : Service) (w : World) (swapId : string)
    (swap : SwapRequest) : Service * list effect :=
  let userClaimed := userClaimed w in
  let resolverClaimed := resolverClaimed w in
  if userClaimed && negb resolverClaimed then
    andThen (claimResolverSide sv swapId)
      (fun sv1 => andThen (updateSwapStatus sv1 swapId COMPLETED)
                          (log (LogSwapEvent "swap_completed" swapId)))
  else if resolverClaimed && negb userClaimed then
    updateSwapStatus sv swapId RESOLVER_CLAIMED
  else (sv, []).

Definition handleUserClaimedSwap (sv : Service) (w : World) (swapId : string)
    (swap : SwapRequest) : Service * list effect :=
  if resolverClaimed w
  then andThen (updateSwapStatus sv swapId COMPLETED)
               (log (LogSwapEvent "swap_completed" swapId))
  else (sv, []).

Definition is_finished (st : SwapStatus) : bool :=
  match st with COMPLETED | FAILED | EXPIRED => true | _ => false end.

Definition stopSwapMonitoring (sv : Service) (swapId : string) : Service :=
  let intervals := monitoringIntervals sv ∖ {[swapId]} in
  let swaps :=
    match activeSwaps sv !! swapId with
    | Some swap => if is_finished (status swap)
                   then delete swapId (activeSwaps sv) else activeSwaps sv
    | None => activeSwaps sv
    end in
  {| activeSwaps := swaps; monitoringIntervals := intervals |}.

Definition monitorSwap (sv : Service) (w : World) (swapId : string)
    : Service * list effect :=
  match activeSwaps sv !! swapId with
  | None => (sv, [])
  | Some currentSwap =>
      match status currentSwap with
      | PENDING => handlePendingSwap sv w swapId currentSwap
      | USER_LOCKED => handleUserLockedSwap sv w swapId currentSwap
      | RESOLVER_LOCKED | BOTH_LOCKED => handleBothLockedSwap sv w swapId currentSwap
      | USER_CLAIMED => handleUserClaimedSwap sv w swapId currentSwap
      | _ => (stopSwapMonitoring sv swapId, [])
      end
  end.

Definition startSwapMonitoring (sv : Service) (swapId : string) : Service :=
  {| activeSwaps := activeSwaps sv;
     monitoringIntervals := monitoringIntervals sv ∪ {[swapId]} |}.


(** The interval fires every ten seconds until it is cleared: one tick
    per world of the list. *)
Definition tick (r : Service * list effect) (swapId : string) (w : World)
    : Service * list effect :=
  if bool_decide (swapId ∈ monitoringIntervals (fst r))
  then andThen r (fun sv => monitorSwap sv w swapId)
  else r.

Definition monitor (sv : Service) (swapId : string) (ws : list World)
    : Service * list effect :=
  fold_left (fun r w => tick r swapId w) ws (sv, []).

(** The phases a swap was moved to, in order. *)
Definition phases (swapId : string) (es : list effect) : list SwapStatus :=
  omap (fun e => match e with
                 | SwapStatusChanged i _ new =>
                     if String.eqb i swapId then Some new else None
                 | _ => None
                 end) es.

(** No effect of the list moves a swap to [USER_CLAIMED]. *)
Definition never_user_claimed (es : list effect) : Prop :=
  Forall (fun e => match e with
                   | SwapStatusChanged _ _ new => new <> USER_CLAIMED
                   | _ => True
                   end) es.

End ResolverService.

(** ** The order of the phases in the spec's words

    A path is the list of the phases a swap is in, in order.  On a path
    that is in BothLocked and later in Completed, the swap is in Revealed,
    the status [USER_CLAIMED], in between. *)

Module SwapPhaseSpec.
Import ResolverService.


End SwapPhaseSpec.

(** ** The fee rule in the spec's words

    [net = floor(amount * (10000 - fee_bps) / 10000)] and
    [fee = amount - net]. *)

Module FeeSpec.

Definition net (amount fee_bps : Z) : Z := amount * (10000 - fee_bps) / 10000.
Definition fee (amount fee_bps : Z) : Z := amount - net amount fee_bps.

End FeeSpec.

(** ** Concrete scenarios used as test inputs *)

Module Scenario.
Import Bytes.
#[local] Existing Instance ETHWSUISwap.evm.

(** The secret of the spec's scenario S1. *)
Definition alpha_secret : string := "alpha-secret".
Definition alpha_key : bytes := of_string alpha_secret.

Definition sui_ctx (who : Z) : SuiSafeEscrow.TxContext :=
  {| SuiSafeEscrow.sender := who; SuiSafeEscrow.tx_hash := 7;
     SuiSafeEscrow.ids_created := 0 |}.

(** The Sui half of the pair [createCrossChainSafe] pins to SHA-256: the
    digest is computed by the relayer and handed to [create_safe_sha256]. *)
Definition sui_sha256_safe : tx SuiSafeEscrow.abort SuiSafeEscrow.SafeEscrow :=
  let secretHash := HashUtility.sha256 (HashUtility.Str (JsString.of_ascii alpha_secret)) in
  r ← SuiSafeEscrow.create_safe_sha256 1000000000 2 secretHash 300000 1000 (sui_ctx 1);
  Done (fst (fst (fst r))).

(** A Keccak-locked safe of 10 units created by address 1 at time 1000
    with a lock of 500 ms: its deadline is 1500. *)
Definition sui_safe : SuiSafeEscrow.SafeEscrow :=
  {| SuiSafeEscrow.id := (7, 0); SuiSafeEscrow.owner := 1;
     SuiSafeEscrow.beneficiary := 2; SuiSafeEscrow.locked_coin := 10;
     SuiSafeEscrow.secret_hash := SuiSafeEscrow.create_secret_hash alpha_key;
     SuiSafeEscrow.start_time := 1000; SuiSafeEscrow.lock_duration := 500;
     SuiSafeEscrow.is_withdrawn := false; SuiSafeEscrow.is_refunded := false;
     SuiSafeEscrow.use_sha256 := false |}.

Definition sui_cap : SuiSafeEscrow.SafeOwnerCap :=
  {| SuiSafeEscrow.cap_id := (7, 1); SuiSafeEscrow.safe_id := (7, 0) |}.

(** The same safe with the largest lock a u64 holds: its deadline,
    1000 + (2^64 - 1), does not fit a u64. *)
Definition sui_forever_safe : SuiSafeEscrow.SafeEscrow :=
  {| SuiSafeEscrow.id := (7, 0); SuiSafeEscrow.owner := 1;
     SuiSafeEscrow.beneficiary := 2; SuiSafeEscrow.locked_coin := 10;
     SuiSafeEscrow.secret_hash := SuiSafeEscrow.create_secret_hash alpha_key;
     SuiSafeEscrow.start_time := 1000; SuiSafeEscrow.lock_duration := SuiSafeEscrow.U64_MAX;
     SuiSafeEscrow.is_withdrawn := false; SuiSafeEscrow.is_refunded := false;
     SuiSafeEscrow.use_sha256 := false |}.

(** Address 2 withdraws with the secret, then address 1 asks for a
    refund at time 2000. *)
Definition sui_calls : list SuiSafeEscrow.call :=
  [SuiSafeEscrow.CallWithdraw alpha_key (sui_ctx 2);
   SuiSafeEscrow.CallRefund sui_cap 2000 (sui_ctx 1)].

(** An ETHWSUISwap just deployed by address 100, fees going to 300. *)
Definition eth_deployed : ETHWSUISwap.State :=
  {| ETHWSUISwap.swaps := ∅; ETHWSUISwap.swapFee := 30;
     ETHWSUISwap.feeRecipient := 300; ETHWSUISwap.owner := 100;
     ETHWSUISwap.paused := false |}.

(** A call by [who] at time [now] carrying [value] wei, in a world where
    every transfer goes through. *)
Definition eth_env (who value now : Z) : ETHWSUISwap.Env :=
  {| ETHWSUISwap.msg_sender := who; ETHWSUISwap.msg_value := value;
     ETHWSUISwap.block_timestamp := now;
     ETHWSUISwap.eth_call := fun _ _ => true;
     ETHWSUISwap.wsui_transfer := fun _ _ => true;
     ETHWSUISwap.wsui_transferFrom := fun _ _ => true |}.

Definition eth_secret : Z := 42.
Definition eth_secret_hash : Z := ETHWSUISwap.sha256_bytes32 eth_secret.

(** Address 1 locks [amount] wei for address 2 at time 1000, until 10000. *)
Definition eth_locked (amount : Z) : ETHWSUISwap.State :=
  ETHWSUISwap.run eth_deployed
    [(eth_env 1 amount 1000,
      ETHWSUISwap.CallInitiateETHToWSUI eth_secret_hash 2 5 10000)].

Definition eth_swap_id (amount : Z) : Z :=
  ETHWSUISwap.swap_id 1 2 eth_secret_hash 1000 amount 5.

(** The one-wei swap after the participant, address 2, has withdrawn at
    time 2000. *)
Definition eth_withdrawn : ETHWSUISwap.State :=
  ETHWSUISwap.run (eth_locked 1)
    [(eth_env 2 0 2000, ETHWSUISwap.CallWithdraw (eth_swap_id 1) eth_secret)].

Definition ether : Z := 1000000000000000000.

(** The call that locks [amount] wei, and the participant's withdrawal of
    the swap it creates. *)
Definition eth_lock (amount : Z) : list (ETHWSUISwap.Env * ETHWSUISwap.call) :=
  [(eth_env 1 amount 1000,
    ETHWSUISwap.CallInitiateETHToWSUI eth_secret_hash 2 5 10000)].

Definition eth_withdraw_call (amount : Z) : ETHWSUISwap.call :=
  ETHWSUISwap.CallWithdraw (eth_swap_id amount) eth_secret.

(** The contract after its owner, address 100, has paused it. *)
Definition eth_paused : ETHWSUISwap.State :=
  {| ETHWSUISwap.swaps := ∅; ETHWSUISwap.swapFee := 30;
     ETHWSUISwap.feeRecipient := 300; ETHWSUISwap.owner := 100;
     ETHWSUISwap.paused := true |}.

(** Lock one wei, then withdraw it. *)
Definition eth_calls : list (ETHWSUISwap.Env * ETHWSUISwap.call) :=
  [(eth_env 1 1 1000, ETHWSUISwap.CallInitiateETHToWSUI eth_secret_hash 2 5 10000);
   (eth_env 2 0 2000, ETHWSUISwap.CallWithdraw (eth_swap_id 1) eth_secret)].

(** A resolver monitoring one swap whose two sides are locked, and a tick
    on which the user has claimed and the resolver has not. *)
Definition both_locked_swap : ResolverService.SwapRequest :=
  {| ResolverService.id := "swap-1"; ResolverService.destinationChain := ResolverService.SUI;
     ResolverService.userTimelock := 10800000; ResolverService.resolverTimelock := 9000000;
     ResolverService.status := ResolverService.BOTH_LOCKED |}.

Definition resolver : ResolverService.Service :=
  ResolverService.startSwapMonitoring
    {| ResolverService.activeSwaps := {[ "swap-1"%string := both_locked_swap ]};
       ResolverService.monitoringIntervals := ∅ |}
    "swap-1".

Definition user_claimed_world : ResolverService.World :=
  {| ResolverService.now := 5000; ResolverService.userLocked := true;
     ResolverService.userClaimed := true; ResolverService.resolverClaimed := false;
     ResolverService.suiTransactionThrows := false |}.

(** The registry as [init] shares it in transaction 3, and after address 1
    has registered the Keccak-locked safe of 10 units. *)
Definition sui_registry : SuiSafeRecord.SafeRegistry :=
  fst (SuiSafeRecord.init {| SuiSafeEscrow.sender := 100; SuiSafeEscrow.tx_hash := 3;
                             SuiSafeEscrow.ids_created := 0 |}).

Definition sui_registered : SuiSafeRecord.SafeRegistry :=
  SuiSafeRecord.run sui_registry
    [SuiSafeRecord.CallCreateAndRegister false 10 2 alpha_key 500 1000 (sui_ctx 1)].

(** An Ethereum safe of 10 wei that address 1 creates at time 1000 with
    the largest lock a uint256 holds. *)
Definition safe_env (who value now : Z) : EthSafeEscrow.Env :=
  {| EthSafeEscrow.this := 500; EthSafeEscrow.msg_sender := who;
     EthSafeEscrow.msg_value := value; EthSafeEscrow.block_timestamp := now;
     EthSafeEscrow.transfer := fun _ _ => true |}.

Definition eth_forever_safe : EthSafeEscrow.State :=
  {| EthSafeEscrow.startTime := 1000; EthSafeEscrow.lockDuration := EthSafeEscrow.UINT256_MAX;
     EthSafeEscrow.secretHash := EthHashUtility.calculateHash alpha_key;
     EthSafeEscrow.owner := 1; EthSafeEscrow.beneficiary := 2; EthSafeEscrow.amount := 10;
     EthSafeEscrow.revealedSecret := []; EthSafeEscrow.isWithdrawn := false;
     EthSafeEscrow.isRefunded := false; EthSafeEscrow.useSha256 := false |}.

(** A request for a pair on the testnet profile, locked 30 and 5
    minutes, by managers that return every safe they are asked for. *)
Definition cross_manager : CrossChainEscrowManager.t :=
  {| CrossChainEscrowManager.timeoutManager :=
       TimeoutManager.with_profile "testnet" 1800000 300000 300000 120000;
     CrossChainEscrowManager.isInitialized := true |}.

Definition cross_params (destChain : string) : CrossChainEscrowManager.params :=
  {| CrossChainEscrowManager.secret := JsString.of_ascii alpha_secret;
     CrossChainEscrowManager.sourceChain := "ethereum";
     CrossChainEscrowManager.destChain := destChain;
     CrossChainEscrowManager.sourceToken := "0x0";
     CrossChainEscrowManager.destToken := "0x2::sui::SUI";
     CrossChainEscrowManager.sourceAmount := "1000";
     CrossChainEscrowManager.destAmount := "2000";
     CrossChainEscrowManager.sourceOwner := "0xa11ce";
     CrossChainEscrowManager.destOwner := "0xb0b";
     CrossChainEscrowManager.sourceLockDuration := 1800000;
     CrossChainEscrowManager.destLockDuration := 300000 |}.

Definition always_creates (r : CrossChainEscrowManager.request) : option string :=
  Some "safe"%string.

(** An Ethereum safe of 10 wei that address 1 creates at time 1000 for
    500 seconds, the secret holder's withdrawal and the owner's request
    for a refund. *)
Definition eth_safe : EthSafeEscrow.State :=
  {| EthSafeEscrow.startTime := 1000; EthSafeEscrow.lockDuration := 500;
     EthSafeEscrow.secretHash := EthHashUtility.calculateHash alpha_key;
     EthSafeEscrow.owner := 1; EthSafeEscrow.beneficiary := 2; EthSafeEscrow.amount := 10;
     EthSafeEscrow.revealedSecret := []; EthSafeEscrow.isWithdrawn := false;
     EthSafeEscrow.isRefunded := false; EthSafeEscrow.useSha256 := false |}.

Definition eth_safe_calls : list (EthSafeEscrow.Env * EthSafeEscrow.call) :=
  [(safe_env 2 0 1200, EthSafeEscrow.CallWithdraw alpha_key);
   (safe_env 1 0 2000, EthSafeEscrow.CallRefund)].

(** A relayer with the default three attempts, and a registry contract
    that knows two safes under every hash. *)
Definition relayer : RelayerService.t := RelayerService.constructor None.

Definition two_safes (hash : Bytes.bytes) : option (list string) :=
  Some ["0xsafe1"; "0xsafe2"]%string.

(** The resolver after the tick that completed its swap. *)
Definition completed_swap : ResolverService.SwapRequest :=
  ResolverService.with_status both_locked_swap ResolverService.COMPLETED.

Definition completed_resolver : ResolverService.Service :=
  fst (ResolverService.monitor resolver "swap-1" [user_claimed_world]).

End Scenario.

(** * Theorems *)

(** ** The hash primitives on published test vectors *)

Example sha256_abc :
  Bytes.to_hex (SHA256.sha256 (Bytes.of_string "abc"))
  = "ba7816bf8f01cfea414140de5dae2223b00361a396177a9cb410ff61f20015ad"%string.
Proof. vm_compute. reflexivity. Qed.

Example sha256_empty :
  Bytes.to_hex (SHA256.sha256 [])
  = "e3b0c44298fc1c149afbf4c8996fb92427ae41e4649b934ca495991b7852b855"%string.
Proof. vm_compute. reflexivity. Qed.

Example keccak256_empty :
  Bytes.to_hex (Keccak.keccak256 [])
  = "c5d2460186f7233c927e7db2dcc703c0e500b653ca82273b7bfad8045d85a470"%string.
Proof. vm_compute. reflexivity. Qed.

Example keccak256_abc :
  Bytes.to_hex (Keccak.keccak256 (Bytes.of_string "abc"))
  = "4e03657aea45a94fc7d47ba826c8d667c0d1e6e33a64a036ec44f58fa12d6c45"%string.
Proof. vm_compute. reflexivity. Qed.

Example sha3_256_abc :
  Bytes.to_hex (Keccak.sha3_256 (Bytes.of_string "abc"))
  = "3a985da74fe225b2045c172d6bd390bd855f086e3e9d525b46bfe24511431532"%string.
Proof. vm_compute. reflexivity. Qed.

(** A message longer than one block of either function. *)
Example two_blocks :
  Bytes.to_hex (SHA256.sha256 (repeat 97 200%nat))
  = "c2a908d98f5df987ade41b5fce213067efbcc21ef2240212a41e54b5e7c28ae5"%string
  /\ Bytes.to_hex (Keccak.keccak256 (repeat 97 200%nat))
     = "96ea54061def936c4be90b518992fdc6f12f535068a256229aca54267b4d084d"%string.
Proof. split; vm_compute; reflexivity. Qed.

(** UTF-8 of a JavaScript string: ASCII, a two-byte and a three-byte
    character, a surrogate pair, and a lone surrogate. *)
Example utf8_samples :
  JsString.utf8 [97; 233; 8364; 55357; 56832; 55357] 
  = [97; 195; 169; 226; 130; 172; 240; 159; 152; 128; 239; 191; 189].
Proof. reflexivity. Qed.

(** ** Hash utilities *)

Lemma bytes_eqb_refl (a : Bytes.bytes) : Bytes.bytes_eqb a a = true.
Proof. unfold Bytes.bytes_eqb. apply bool_decide_eq_true_2. reflexivity. Qed.

Lemma bytes_eqb_true (a b : Bytes.bytes) : Bytes.bytes_eqb a b = true <-> a = b.
Proof. unfold Bytes.bytes_eqb. apply bool_decide_eq_true. Qed.

(** ** Digests are 32 bytes long *)

Lemma length_be_bytes n w : length (Bytes.be_bytes n w) = n.
Proof.
  revert w. induction n as [|k IH]; intros w; [reflexivity|].
  cbn [Bytes.be_bytes]. rewrite length_app, IH. cbn. lia.
Qed.

Lemma length_le_bytes n w : length (Bytes.le_bytes n w) = n.
Proof.
  revert w. induction n as [|k IH]; intros w; [reflexivity|].
  cbn [Bytes.le_bytes length]. rewrite IH. reflexivity.
Qed.

Lemma length_concat_words (f : Z -> Bytes.bytes) (n : nat) (ws : list Z) :
  (forall w, length (f w) = n) -> length (concat (map f ws)) = (n * length ws)%nat.
Proof.
  intros Hf. induction ws as [|w ws IH]; cbn [map concat length]; [lia|].
  rewrite length_app, Hf, IH. lia.
Qed.

Lemma length_compress h block : length h = 8%nat -> length (SHA256.compress h block) = 8%nat.
Proof.
  intros Hh. unfold SHA256.compress. rewrite length_zip_with, Hh. reflexivity.
Qed.

Lemma length_fold_compress blocks : forall h,
  length h = 8%nat -> length (fold_left SHA256.compress blocks h) = 8%nat.
Proof.
  induction blocks as [|b bs IH]; intros h Hh; [exact Hh|].
  cbn [fold_left]. apply IH, length_compress, Hh.
Qed.

Lemma sha256_length (msg : Bytes.bytes) : length (SHA256.sha256 msg) = 32%nat.
Proof.
  unfold SHA256.sha256.
  rewrite (length_concat_words _ 4) by (intros w; apply length_be_bytes).
  rewrite length_fold_compress; reflexivity.
Qed.

Lemma length_tabulate f : length (Keccak.tabulate f) = 25%nat.
Proof. unfold Keccak.tabulate. rewrite length_map, length_seq. reflexivity. Qed.

Lemma length_round rc A : length (Keccak.iota rc (Keccak.chi (Keccak.rho_pi (Keccak.theta A)))) = 25%nat.
Proof.
  unfold Keccak.chi.
  pose proof (length_tabulate
    (fun x y => Z.lxor (Keccak.lane (Keccak.rho_pi (Keccak.theta A)) x y)
       (Z.ldiff (Keccak.lane (Keccak.rho_pi (Keccak.theta A)) (x + 2) y)
                (Keccak.lane (Keccak.rho_pi (Keccak.theta A)) (x + 1) y)))) as Hl.
  destruct (Keccak.tabulate _) as [|a r]; [discriminate Hl|]. exact Hl.
Qed.

Lemma length_keccak_rounds rcs : forall A,
  length A = 25%nat ->
  length (fold_left (fun S rc => Keccak.iota rc (Keccak.chi (Keccak.rho_pi (Keccak.theta S))))
                    rcs A) = 25%nat.
Proof.
  induction rcs as [|rc rcs IH]; intros A HA; [exact HA|].
  cbn [fold_left]. apply IH, length_round.
Qed.

Lemma length_absorb A block : length (Keccak.absorb A block) = 25%nat.
Proof.
  unfold Keccak.absorb, Keccak.keccak_f.
  destruct Keccak.RC as [|rc rcs] eqn:HRC; [discriminate HRC|].
  cbn [fold_left]. apply length_keccak_rounds, length_round.
Qed.

Lemma length_fold_absorb blocks : forall A,
  length A = 25%nat -> length (fold_left Keccak.absorb blocks A) = 25%nat.
Proof.
  induction blocks as [|b bs IH]; intros A HA; [exact HA|].
  cbn [fold_left]. apply IH, length_absorb.
Qed.

Lemma sponge256_length dom (msg : Bytes.bytes) : length (Keccak.sponge256 dom msg) = 32%nat.
Proof.
  unfold Keccak.sponge256.
  rewrite (length_concat_words _ 8) by (intros w; apply length_le_bytes).
  rewrite length_take, length_fold_absorb; [reflexivity|].
  apply repeat_length.
Qed.

(** X1.  Every digest has 32 bytes: for every input, the relayer's
    [sha256] and [keccak256], the Sui module's [calculate_hash] and
    [calculate_sha256_hash] and the Ethereum contract's [calculateHash]
    and [calculateSha256Hash] return exactly 32 bytes. *)
Theorem X1_digests_have_32_bytes (i : HashUtility.input) (key : Bytes.bytes) :
  length (HashUtility.sha256 i) = 32%nat
  /\ length (HashUtility.keccak256 i) = 32%nat
  /\ length (SuiHashUtility.calculate_hash key) = 32%nat
  /\ length (SuiHashUtility.calculate_sha256_hash key) = 32%nat
  /\ length (EthHashUtility.calculateHash key) = 32%nat
  /\ length (EthHashUtility.calculateSha256Hash key) = 32%nat.
Proof.
  repeat split; first [apply sha256_length | apply sponge256_length].
Qed.

(** The relayer's [keccak256] is SHA3-256, not the Keccak-256 of the two
    ledgers. *)
Example js_keccak256_is_sha3_256 :
  Bytes.to_hex (HashUtility.keccak256 (HashUtility.Str (JsString.of_ascii "abc")))
  = "3a985da74fe225b2045c172d6bd390bd855f086e3e9d525b46bfe24511431532"%string
  /\ Bytes.to_hex (EthHashUtility.calculateHash (Bytes.of_string "abc"))
     = "4e03657aea45a94fc7d47ba826c8d667c0d1e6e33a64a036ec44f58fa12d6c45"%string
  /\ Bytes.to_hex (SuiHashUtility.calculate_hash (Bytes.of_string "abc"))
     = "4e03657aea45a94fc7d47ba826c8d667c0d1e6e33a64a036ec44f58fa12d6c45"%string.
Proof. repeat split; vm_compute; reflexivity. Qed.

(** The relayer's [sha256] and the Ethereum contract's agree on every
    key: both are SHA-256 of the key's UTF-8 bytes. *)
Lemma js_sha256_is_eth_sha256 (s : JsString.js_string) :
  HashUtility.sha256 (HashUtility.Str s)
  = EthHashUtility.calculateSha256Hash (JsString.utf8 s).
Proof. reflexivity. Qed.

(** The Sui module's "sha256" is Keccak-256 of the key, on every key. *)
Lemma sui_sha256_is_keccak (key : Bytes.bytes) :
  SuiHashUtility.calculate_sha256_hash key = Keccak.keccak256 key
  /\ SuiHashUtility.calculate_sha256_hash key = SuiHashUtility.calculate_hash key.
Proof. split; reflexivity. Qed.

(** C1 (fails on the code).  For the secret "alpha-secret" the relayer and
    the Ethereum contract compute the same SHA-256 digest, but the Sui
    module's [calculate_sha256_hash] returns the Keccak-256 digest, a
    different 32-byte value; a Sui safe created for the pair with the
    relayer's SHA-256 digest therefore rejects the very secret it was
    locked with. *)
Theorem C1_sui_sha256_digest_differs :
  let key := Scenario.alpha_key in
  HashUtility.sha256 (HashUtility.Str (JsString.of_ascii Scenario.alpha_secret)) = SHA256.sha256 key
  /\ EthHashUtility.calculateSha256Hash key = SHA256.sha256 key
  /\ Bytes.to_hex (SHA256.sha256 key)
     = "3f8ad42d6dc52445378196cb2e49281f812253eaea7830fe46f4756f2ca0a3d4"%string
  /\ Bytes.to_hex (SuiHashUtility.calculate_sha256_hash key)
     = "6c6e657e6615ab5ae84d2e2e4116ee6927453147f922a85cebff4dad5f0b0973"%string
  /\ SuiHashUtility.calculate_sha256_hash key <> SHA256.sha256 key
  /\ (safe ← Scenario.sui_sha256_safe; SuiSafeEscrow.withdraw safe key (Scenario.sui_ctx 2))
     = Aborted (SuiSafeEscrow.Code SuiSafeEscrow.EInvalidSecret).
Proof.
  repeat split; try (vm_compute; reflexivity).
  vm_compute. intros H. discriminate H.
Qed.

(** C9.  Verifying a secret against the digest computed from that same
    secret with the same algorithm returns true, for both algorithms and
    for string and Buffer secrets alike. *)
Theorem C9_verify_roundtrip (s : HashUtility.input) :
  HashUtility.verifySecretKeccak256 s (HashUtility.keccak256 s) = true
  /\ HashUtility.verifySecretSha256 s (HashUtility.sha256 s) = true.
Proof.
  unfold HashUtility.verifySecretKeccak256, HashUtility.verifySecretSha256.
  split; apply bytes_eqb_refl.
Qed.

(** The same law on the two ledgers' utilities. *)
Lemma ledger_verify_roundtrip (secret : Bytes.bytes) :
  SuiHashUtility.verify_secret secret (SuiHashUtility.calculate_hash secret) = true
  /\ SuiHashUtility.verify_secret_sha256 secret (SuiHashUtility.calculate_sha256_hash secret) = true
  /\ EthHashUtility.verifySecret secret (EthHashUtility.calculateHash secret) = true
  /\ EthHashUtility.verifySecretSha256 secret (EthHashUtility.calculateSha256Hash secret) = true.
Proof. repeat split; apply bytes_eqb_refl. Qed.

(** The repository's tests: a wrong secret does not verify. *)
Example verify_wrong_secret :
  let hash := HashUtility.sha256 (HashUtility.Str (JsString.of_ascii "verification-test")) in
  HashUtility.verifySecretSha256 (HashUtility.Str (JsString.of_ascii "verification-test")) hash = true
  /\ HashUtility.verifySecretSha256 (HashUtility.Str (JsString.of_ascii "wrong-secret")) hash = false.
Proof. split; vm_compute; reflexivity. Qed.

(** ** The Sui safe *)

Example sui_safe_is_created :
  SuiSafeEscrow.create_safe 10 2 (SuiSafeEscrow.create_secret_hash Scenario.alpha_key)
                            500 1000 (Scenario.sui_ctx 1)
  = Done (Scenario.sui_safe, Scenario.sui_cap,
          [SuiSafeEscrow.SafeCreated (7, 0) 1 2 10 (SuiSafeEscrow.secret_hash Scenario.sui_safe)
                                     1000 500 false],
          {| SuiSafeEscrow.sender := 1; SuiSafeEscrow.tx_hash := 7;
             SuiSafeEscrow.ids_created := 2 |}).
Proof. vm_compute. reflexivity. Qed.

(** C2 (fails on the code).  The Sui safe of the scenario has deadline
    1500.  At time 999999 the module itself reports the lock expired, yet
    [withdraw], which is given no clock, pays out and marks the safe
    withdrawn. *)
Theorem C2_sui_withdraw_after_deadline :
  SuiSafeEscrow.is_lock_expired Scenario.sui_safe 999999 = Done true
  /\ exists safe',
       SuiSafeEscrow.withdraw Scenario.sui_safe Scenario.alpha_key (Scenario.sui_ctx 2)
       = Done (safe', 10,
               [SuiSafeEscrow.SafeWithdrawn (7, 0) 2 2 10 Scenario.alpha_key])
       /\ SuiSafeEscrow.is_withdrawn safe' = true
       /\ SuiSafeEscrow.locked_coin safe' = 0.
Proof.
  split; [vm_compute; reflexivity|].
  eexists. split; [vm_compute; reflexivity|]. split; reflexivity.
Qed.

(** ** ETHWSUISwap *)

Example eth_swap_is_locked :
  ETHWSUISwap.swap_at (Scenario.eth_locked 1) (Scenario.eth_swap_id 1)
  = {| ETHWSUISwap.secretHash := Scenario.eth_secret_hash; ETHWSUISwap.ethAmount := 1;
       ETHWSUISwap.wsuiAmount := 5; ETHWSUISwap.initiator := 1;
       ETHWSUISwap.participant := 2; ETHWSUISwap.timelock := 10000;
       ETHWSUISwap.withdrawn := false; ETHWSUISwap.refunded := false;
       ETHWSUISwap.swapType := ETHWSUISwap.ETH_TO_WSUI |}.
Proof. vm_compute. reflexivity. Qed.

(** ** Escrow rules on Sui *)

Section SuiRules.
Import SuiSafeEscrow.

Lemma sui_withdraw_done safe secret ctx safe' coin evs :
  withdraw safe secret ctx = Done (safe', coin, evs) ->
  is_withdrawn safe = false /\ is_refunded safe = false
  /\ is_withdrawn safe' = true /\ is_refunded safe' = false
  /\ coin = locked_coin safe.
Proof.
  unfold withdraw.
  destruct (is_withdrawn safe) eqn:Hw; [discriminate|].
  destruct (is_refunded safe) eqn:Hr; [discriminate|].
  destruct (negb _); [discriminate|].
  cbn. intros [= <- <- _]. cbn. auto.
Qed.

(** [withdraw] goes through exactly when the safe is open and the secret
    verifies; the time plays no part. *)
Lemma sui_withdraw_succeeds_iff safe secret ctx :
  succeeded (withdraw safe secret ctx) = true
  <-> is_withdrawn safe = false /\ is_refunded safe = false
      /\ (if use_sha256 safe
          then SuiHashUtility.verify_secret_sha256 secret (secret_hash safe)
          else SuiHashUtility.verify_secret secret (secret_hash safe)) = true.
Proof.
  unfold withdraw.
  destruct (is_withdrawn safe); [cbn; intuition discriminate|].
  destruct (is_refunded safe); [cbn; intuition discriminate|].
  destruct (if use_sha256 safe then _ else _); cbn; intuition discriminate.
Qed.

(** [refund] goes through exactly when the safe is open, the capability
    is the safe's, and the deadline, which must fit a u64, has been
    reached. *)
Lemma sui_refund_succeeds_iff safe cap clock ctx :
  succeeded (refund safe cap clock ctx) = true
  <-> is_withdrawn safe = false /\ is_refunded safe = false
      /\ safe_id cap = id safe
      /\ start_time safe + lock_duration safe <= U64_MAX
      /\ start_time safe + lock_duration safe <= clock.
Proof.
  unfold refund, add_u64.
  destruct (is_withdrawn safe); [cbn; intuition discriminate|].
  destruct (is_refunded safe); [cbn; intuition discriminate|].
  destruct (bool_decide (safe_id cap = id safe)) eqn:Hcap; cbn.
  - apply bool_decide_eq_true in Hcap.
    destruct (start_time safe + lock_duration safe <=? U64_MAX) eqn:Hfit; cbn.
    + destruct (start_time safe + lock_duration safe <=? clock) eqn:Hdue; cbn;
        intuition (try discriminate; try lia).
    + intuition (try discriminate; try lia).
  - apply bool_decide_eq_false in Hcap. intuition (try discriminate; try congruence).
Qed.

Lemma sui_refund_done safe cap clock ctx safe' coin evs :
  refund safe cap clock ctx = Done (safe', coin, evs) ->
  is_withdrawn safe = false /\ is_refunded safe = false
  /\ is_withdrawn safe' = false /\ is_refunded safe' = true
  /\ coin = locked_coin safe.
Proof.
  unfold refund.
  destruct (is_withdrawn safe) eqn:Hw; [discriminate|].
  destruct (is_refunded safe) eqn:Hr; [discriminate|].
  destruct (negb (bool_decide _)); [discriminate|].
  destruct (add_u64 _ _); [|discriminate].
  destruct (negb _); [discriminate|].
  cbn. intros [= <- <- _]. cbn. auto.
Qed.

(** One call keeps the flags exclusive and never clears one. *)
Lemma sui_apply_call_flags safe c :
  is_withdrawn safe && is_refunded safe = false ->
  let safe' := apply_call safe c in
  is_withdrawn safe' && is_refunded safe' = false
  /\ (is_withdrawn safe = true -> is_withdrawn safe' = true)
  /\ (is_refunded safe = true -> is_refunded safe' = true).
Proof.
  intros Hex. destruct c as [secret ctx | cap clock ctx]; cbn.
  - destruct (withdraw safe secret ctx) as [[[s' coin] evs]|e] eqn:Hc; [|auto].
    apply sui_withdraw_done in Hc as (Hw & Hr & Hw' & Hr' & _).
    rewrite Hw', Hr', Hr. repeat split; auto; discriminate.
  - destruct (refund safe cap clock ctx) as [[[s' coin] evs]|e] eqn:Hc; [|auto].
    apply sui_refund_done in Hc as (Hw & Hr & Hw' & Hr' & _).
    rewrite Hw', Hr', Hw. repeat split; auto; discriminate.
Qed.

Lemma sui_run_flags cs : forall safe,
  is_withdrawn safe && is_refunded safe = false ->
  let safe' := run safe cs in
  is_withdrawn safe' && is_refunded safe' = false
  /\ (is_withdrawn safe = true -> is_withdrawn safe' = true)
  /\ (is_refunded safe = true -> is_refunded safe' = true).
Proof.
  induction cs as [|c cs IH]; intros safe Hex; cbn.
  - auto.
  - destruct (sui_apply_call_flags safe c Hex) as (Hex' & Hw & Hr).
    destruct (IH _ Hex') as (Hex'' & Hw' & Hr').
    repeat split; auto.
Qed.

Lemma sui_created_open coin beneficiary secret_hash lock_duration use_sha clock ctx
      safe cap evs ctx' :
  create_safe_internal coin beneficiary secret_hash lock_duration use_sha clock ctx
  = Done (safe, cap, evs, ctx') ->
  is_withdrawn safe = false /\ is_refunded safe = false
  /\ SuiSafeEscrow.safe_id cap = id safe /\ 0 < locked_coin safe.
Proof.
  unfold create_safe_internal.
  destruct (0 <? coin) eqn:Hpos; cbn; [|discriminate].
  intros [= <- <- _ _]. cbn. repeat split. lia.
Qed.

End SuiRules.


(** ** Escrow rules on Ethereum

    The rules hold whatever the two hash functions are. *)

Section EthRules.
Import ETHWSUISwap.
Context `{HH : Hashes}.

Ltac tx_unfold :=
  unfold mbind, tx_bind, mret, tx_ret, fmap, tx_fmap, require, nonpayable, safeTransfer,
         safeTransferFrom, checked_add, checked_sub, checked_mul in *.

Lemma swap_at_store st i sw j :
  swap_at (store st i sw) j = if bool_decide (i = j) then sw else swap_at st j.
Proof.
  unfold swap_at, store. cbn. rewrite lookup_insert.
  destruct (decide (i = j)) as [->|Hne].
  - rewrite bool_decide_eq_true_2 by reflexivity. reflexivity.
  - rewrite bool_decide_eq_false_2 by assumption. reflexivity.
Qed.

(** What a successful [withdraw] checked, stored and paid. *)
Lemma eth_withdraw_done st env swapId secret st' fx :
  withdraw st env swapId secret = Done (st', fx) ->
  let sw := swap_at st swapId in
  let fee := locked_amount sw * swapFee st / 10000 in
  0 < timelock sw /\ withdrawn sw = false /\ refunded sw = false
  /\ block_timestamp env <= timelock sw
  /\ sha256_bytes32 secret = secretHash sw
  /\ msg_sender env = participant sw
  /\ st' = store st swapId (mark_withdrawn sw)
  /\ locked_amount sw * swapFee st <= UINT256_MAX
  /\ fee <= locked_amount sw
  /\ fx = pay sw (participant sw) (locked_amount sw - fee)
          :: (if 0 <? fee then [pay sw (feeRecipient st) fee] else [])
          ++ [SwapWithdrawn swapId (msg_sender env) secret].
Proof.
  intros H sw fee. subst fee.
  unfold withdraw, validSwap, withdrawable, fee_split, locked_amount, pay in *.
  fold sw in H. tx_unfold.
  destruct (msg_value env =? 0); [|discriminate H].
  destruct (0 <? timelock sw) eqn:Ht; [|discriminate H].
  destruct (withdrawn sw) eqn:Hw; [discriminate H|].
  destruct (refunded sw) eqn:Hr; [discriminate H|].
  cbn [negb] in H.
  destruct (block_timestamp env <=? timelock sw) eqn:Hd; [|discriminate H].
  destruct (sha256_bytes32 secret =? secretHash sw) eqn:Hs; [|discriminate H].
  destruct (msg_sender env =? participant sw) eqn:Hp; [|discriminate H].
  cbn [swapType mark_withdrawn ethAmount wsuiAmount participant swapFee store feeRecipient] in H.
  apply Z.ltb_lt in Ht. apply Z.leb_le in Hd. apply Z.eqb_eq in Hs, Hp.
  destruct (swapType sw) eqn:Hty.
  - destruct (ethAmount sw * swapFee st <=? UINT256_MAX) eqn:Hm; [|discriminate H].
    destruct (ethAmount sw * swapFee st / 10000 <=? ethAmount sw) eqn:Hf; [|discriminate H].
    apply Z.leb_le in Hm, Hf.
    destruct (eth_call env (participant sw) _) eqn:Hc; [|discriminate H].
    destruct (0 <? ethAmount sw * swapFee st / 10000) eqn:Hpos.
    + destruct (eth_call env (feeRecipient st) _) eqn:Hc2; [|discriminate H].
      injection H as <- <-. repeat split; assumption.
    + injection H as <- <-. repeat split; assumption.
  - destruct (wsuiAmount sw * swapFee st <=? UINT256_MAX) eqn:Hm; [|discriminate H].
    destruct (wsuiAmount sw * swapFee st / 10000 <=? wsuiAmount sw) eqn:Hf; [|discriminate H].
    apply Z.leb_le in Hm, Hf.
    destruct (wsui_transfer env (participant sw) _) eqn:Hc; [|discriminate H].
    destruct (0 <? wsuiAmount sw * swapFee st / 10000) eqn:Hpos.
    + destruct (wsui_transfer env (feeRecipient st) _) eqn:Hc2; [|discriminate H].
      injection H as <- <-. repeat split; assumption.
    + injection H as <- <-. repeat split; assumption.
Qed.

(** [withdraw] is refused once the timelock has passed. *)
Lemma eth_withdraw_refused_after_timelock st env swapId secret :
  timelock (swap_at st swapId) < block_timestamp env ->
  succeeded (withdraw st env swapId secret) = false.
Proof.
  intros Hlate.
  destruct (withdraw st env swapId secret) as [[st' fx]|e] eqn:Hw; [|reflexivity].
  apply eth_withdraw_done in Hw. cbn zeta in Hw. lia.
Qed.

(** [refund] goes through exactly when the call carries no value, the
    swap exists and is open, the timelock has strictly passed, the caller
    is the initiator, and the transfer back to the initiator succeeds. *)
Lemma eth_refund_succeeds_iff st env swapId :
  let sw := swap_at st swapId in
  succeeded (refund st env swapId) = true
  <-> msg_value env = 0
      /\ 0 < timelock sw /\ withdrawn sw = false /\ refunded sw = false
      /\ timelock sw < block_timestamp env
      /\ msg_sender env = initiator sw
      /\ transfer_ok env sw (initiator sw) (locked_amount sw) = true.
Proof.
  intros sw.
  unfold refund, validSwap, refundable, transfer_ok, locked_amount.
  fold sw. tx_unfold.
  destruct (msg_value env =? 0) eqn:Hv; cbn [succeeded];
    [apply Z.eqb_eq in Hv | apply Z.eqb_neq in Hv; split; [discriminate | tauto]].
  destruct (0 <? timelock sw) eqn:Ht; cbn [succeeded];
    [apply Z.ltb_lt in Ht | apply Z.ltb_ge in Ht; split; [discriminate | lia]].
  destruct (withdrawn sw) eqn:Hw; cbn [negb succeeded]; [intuition discriminate|].
  destruct (refunded sw) eqn:Hr; cbn [negb succeeded]; [intuition discriminate|].
  destruct (timelock sw <? block_timestamp env) eqn:Hd; cbn [succeeded];
    [apply Z.ltb_lt in Hd | apply Z.ltb_ge in Hd; split; [discriminate | lia]].
  destruct (msg_sender env =? initiator sw) eqn:Hi; cbn [succeeded];
    [apply Z.eqb_eq in Hi | apply Z.eqb_neq in Hi; split; [discriminate | tauto]].
  cbn [swapType mark_refunded initiator ethAmount wsuiAmount].
  destruct (swapType sw) eqn:Hty.
  - destruct (eth_call env (initiator sw) (ethAmount sw)); cbn [succeeded];
      intuition discriminate.
  - destruct (wsui_transfer env (initiator sw) (wsuiAmount sw)); cbn [succeeded];
      intuition discriminate.
Qed.

Lemma eth_refund_done st env swapId st' fx :
  refund st env swapId = Done (st', fx) ->
  let sw := swap_at st swapId in
  0 < timelock sw /\ withdrawn sw = false /\ refunded sw = false
  /\ st' = store st swapId (mark_refunded sw)
  /\ fx = [pay sw (initiator sw) (locked_amount sw); SwapRefunded swapId (msg_sender env)].
Proof.
  intros H sw.
  assert (Hs : succeeded (refund st env swapId) = true) by (rewrite H; reflexivity).
  apply eth_refund_succeeds_iff in Hs. fold sw in Hs.
  destruct Hs as (Hv & Ht & Hw & Hr & Hd & Hi & Hok).
  unfold refund, validSwap, refundable, transfer_ok, locked_amount, pay in *.
  fold sw in H. tx_unfold.
  rewrite Hw, Hr in H. cbn [negb] in H.
  destruct (msg_value env =? 0); [|discriminate H].
  destruct (0 <? timelock sw); [|discriminate H].
  destruct (timelock sw <? block_timestamp env); [|discriminate H].
  destruct (msg_sender env =? initiator sw); [|discriminate H].
  cbn [swapType mark_refunded initiator ethAmount wsuiAmount] in H.
  destruct (swapType sw); rewrite Hok in H; injection H as <- <-; repeat split; assumption.
Qed.

(** A successful initiation writes an open swap into a slot whose
    timelock was zero. *)
Lemma eth_initiateETHToWSUI_done st env h p w t st' fx :
  initiateETHToWSUI st env h p w t = Done (st', fx) ->
  exists i sw, st' = store st i sw /\ timelock (swap_at st i) = 0
    /\ withdrawn sw = false /\ refunded sw = false.
Proof.
  unfold initiateETHToWSUI, whenNotPaused, timelock_is_zero. tx_unfold. intros H.
  repeat match type of H with
         | context [if ?c then _ else _] => destruct c eqn:?; try discriminate H
         end.
  injection H as <- <-. do 2 eexists. split; [reflexivity|].
  split; [apply Z.eqb_eq; eassumption|]. split; reflexivity.
Qed.

Lemma eth_initiateWSUIToETH_done st env h p w e t st' fx :
  initiateWSUIToETH st env h p w e t = Done (st', fx) ->
  exists i sw, st' = store st i sw /\ timelock (swap_at st i) = 0
    /\ withdrawn sw = false /\ refunded sw = false.
Proof.
  unfold initiateWSUIToETH, whenNotPaused, timelock_is_zero. tx_unfold. intros H.
  repeat match type of H with
         | context [if ?c then _ else _] => destruct c eqn:?; try discriminate H
         end.
  injection H as <- <-. do 2 eexists. split; [reflexivity|].
  split; [apply Z.eqb_eq; eassumption|]. split; reflexivity.
Qed.

(** The administrative calls leave every swap as it is. *)
Lemma eth_admin_done st env c st' :
  match c with
  | CallSetSwapFee _ | CallSetFeeRecipient _ | CallPause | CallUnpause => True
  | _ => False
  end ->
  dispatch st env c = Done st' -> swaps st' = swaps st.
Proof.
  destruct c; try contradiction; intros _;
    unfold dispatch, setSwapFee, setFeeRecipient, pause, unpause, onlyOwner;
    tx_unfold; intros H;
    repeat match type of H with
           | context [if ?c then _ else _] => destruct c eqn:?; try discriminate H
           end;
    injection H as <-; reflexivity.
Qed.

Lemma fmap_fst_done {A B : Type} (r : tx revert (A * B)) (a : A) :
  fst <$> r = Done a -> exists b, r = Done (a, b).
Proof.
  destruct r as [[a' b]|e]; cbn; [|discriminate].
  intros [= <-]. eauto.
Qed.

(** One call keeps [flags_ok] and clears no flag. *)
Lemma eth_dispatch_flags st env c st' :
  flags_ok st -> dispatch st env c = Done st' ->
  flags_ok st'
  /\ forall i, (withdrawn (swap_at st i) = true -> withdrawn (swap_at st' i) = true)
             /\ (refunded (swap_at st i) = true -> refunded (swap_at st' i) = true).
Proof.
  intros Hok Hc.
  assert (Hopen : forall j sw,
             (withdrawn (swap_at st j) = false /\ refunded (swap_at st j) = false) ->
             (withdrawn sw && refunded sw = false) ->
             (settled sw = true -> 0 < timelock sw) ->
             flags_ok (store st j sw)
             /\ forall i, (withdrawn (swap_at st i) = true ->
                            withdrawn (swap_at (store st j sw) i) = true)
                        /\ (refunded (swap_at st i) = true ->
                            refunded (swap_at (store st j sw) i) = true)).
  { intros j sw [Hw Hr] Hex Hset. split.
    - intros i. rewrite swap_at_store. destruct (bool_decide (j = i)); [auto | apply Hok].
    - intros i. rewrite swap_at_store.
      destruct (bool_decide (j = i)) eqn:Hji; [|auto].
      apply bool_decide_eq_true in Hji. subst i. rewrite Hw, Hr. split; discriminate. }
  assert (Hzero : forall j, timelock (swap_at st j) = 0 ->
             withdrawn (swap_at st j) = false /\ refunded (swap_at st j) = false).
  { intros j Hz. destruct (Hok j) as [_ Hpos]. unfold settled in Hpos.
    destruct (withdrawn (swap_at st j)), (refunded (swap_at st j)); cbn in Hpos;
      try (specialize (Hpos eq_refl); lia); auto. }
  destruct c.
  - cbn [dispatch] in Hc. apply fmap_fst_done in Hc as [fx Hc].
    apply eth_initiateETHToWSUI_done in Hc as (j & sw & -> & Hz & Hw & Hr).
    apply Hopen; [auto | rewrite Hw; reflexivity | unfold settled; rewrite Hw, Hr; discriminate].
  - cbn [dispatch] in Hc. apply fmap_fst_done in Hc as [fx Hc].
    apply eth_initiateWSUIToETH_done in Hc as (j & sw & -> & Hz & Hw & Hr).
    apply Hopen; [auto | rewrite Hw; reflexivity | unfold settled; rewrite Hw, Hr; discriminate].
  - cbn [dispatch] in Hc. apply fmap_fst_done in Hc as [fx Hc].
    apply eth_withdraw_done in Hc. cbn zeta in Hc.
    destruct Hc as (Ht & Hw & Hr & _ & _ & _ & -> & _).
    apply Hopen; [auto | cbn; exact Hr | cbn; intros _; exact Ht].
  - cbn [dispatch] in Hc. apply fmap_fst_done in Hc as [fx Hc].
    apply eth_refund_done in Hc. cbn zeta in Hc.
    destruct Hc as (Ht & Hw & Hr & -> & _).
    apply Hopen; [auto | cbn; rewrite Hw; reflexivity | cbn; intros _; exact Ht].
  - apply eth_admin_done in Hc; [|exact I].
    unfold flags_ok, swap_at in *. rewrite Hc. auto.
  - apply eth_admin_done in Hc; [|exact I].
    unfold flags_ok, swap_at in *. rewrite Hc. auto.
  - apply eth_admin_done in Hc; [|exact I].
    unfold flags_ok, swap_at in *. rewrite Hc. auto.
  - apply eth_admin_done in Hc; [|exact I].
    unfold flags_ok, swap_at in *. rewrite Hc. auto.
Qed.

Lemma eth_apply_call_flags st ec :
  flags_ok st ->
  flags_ok (apply_call st ec)
  /\ forall i, (withdrawn (swap_at st i) = true -> withdrawn (swap_at (apply_call st ec) i) = true)
             /\ (refunded (swap_at st i) = true -> refunded (swap_at (apply_call st ec) i) = true).
Proof.
  intros Hok. unfold apply_call.
  destruct (dispatch st ec.1 ec.2) as [st'|e] eqn:Hc.
  - exact (eth_dispatch_flags _ _ _ _ Hok Hc).
  - auto.
Qed.

Lemma eth_run_flags cs : forall st,
  flags_ok st ->
  flags_ok (run st cs)
  /\ forall i, (withdrawn (swap_at st i) = true -> withdrawn (swap_at (run st cs) i) = true)
             /\ (refunded (swap_at st i) = true -> refunded (swap_at (run st cs) i) = true).
Proof.
  induction cs as [|ec cs IH]; intros st Hok.
  - cbn. auto.
  - change (run st (ec :: cs)) with (run (apply_call st ec) cs).
    destruct (eth_apply_call_flags st ec Hok) as [Hok' Hmono].
    destruct (IH _ Hok') as [Hok'' Hmono'].
    split; [assumption|]. intros i. split; intros Hset.
    + apply Hmono', Hmono, Hset.
    + apply Hmono', Hmono, Hset.
Qed.

Lemma eth_run_app st cs1 cs2 : run st (cs1 ++ cs2) = run (run st cs1) cs2.
Proof. unfold run. apply fold_left_app. Qed.

Lemma eth_constructor_flags deployer token recipient st :
  constructor deployer token recipient = Done st -> flags_ok st.
Proof.
  unfold constructor. tx_unfold. intros H.
  repeat match type of H with
         | context [if ?c then _ else _] => destruct c eqn:?; try discriminate H
         end.
  injection H as <-. intros i. unfold swap_at. cbn. rewrite lookup_empty. cbn.
  split; [reflexivity | discriminate].
Qed.

End EthRules.

(** ** The claims on the two escrows *)

(** The sibling rule that the Sui [withdraw] lacks: on Ethereum a withdraw
    after the timelock is refused and the swap stays unmarked. *)
Lemma eth_withdraw_after_timelock_changes_nothing `{HH : ETHWSUISwap.Hashes}
    st env swapId secret :
  ETHWSUISwap.timelock (ETHWSUISwap.swap_at st swapId) < ETHWSUISwap.block_timestamp env ->
  ETHWSUISwap.apply_call st (env, ETHWSUISwap.CallWithdraw swapId secret) = st.
Proof.
  intros Hlate. unfold ETHWSUISwap.apply_call. cbn [fst snd ETHWSUISwap.dispatch].
  pose proof (eth_withdraw_refused_after_timelock st env swapId secret Hlate) as Hno.
  destruct (ETHWSUISwap.withdraw st env swapId secret); [discriminate Hno | reflexivity].
Qed.

Example sui_deadline_fits : 1000 + 500 <= SuiSafeEscrow.U64_MAX.
Proof. vm_compute. discriminate. Qed.

(** C3 (fails on the code).  On Sui a refund at exactly the deadline goes
    through: for every safe as [create_safe_internal] makes it, whose
    deadline fits a u64, the holder of its capability who calls [refund]
    with the clock at [start_time + lock_duration] is handed the whole
    locked coin and the safe is marked refunded, for [refund] asserts
    [current_time >= start_time + lock_duration].  Both Ethereum
    contracts refuse the same call: [ETHWSUISwap.refund] reverts at a
    block time that is the timelock, and [SafeEscrow.refund] at one that
    is the deadline. *)
Theorem C3_sui_refund_at_the_deadline
    (coin beneficiary : Z) (secret_hash : Bytes.bytes) (lock_duration : Z)
    (use_sha256 : bool) (clock : Z) (ctx ctx' ctx_refund : SuiSafeEscrow.TxContext)
    (safe : SuiSafeEscrow.SafeEscrow) (cap : SuiSafeEscrow.SafeOwnerCap)
    (evs : list SuiSafeEscrow.Event) :
  SuiSafeEscrow.create_safe_internal coin beneficiary secret_hash lock_duration
                                     use_sha256 clock ctx
  = Done (safe, cap, evs, ctx') ->
  clock + lock_duration <= SuiSafeEscrow.U64_MAX ->
  let deadline := SuiSafeEscrow.start_time safe + SuiSafeEscrow.lock_duration safe in
  deadline = clock + lock_duration
  /\ (exists safe',
        SuiSafeEscrow.refund safe cap deadline ctx_refund
        = Done (safe', coin,
                [SuiSafeEscrow.SafeRefunded (SuiSafeEscrow.id safe) (SuiSafeEscrow.owner safe)
                                            coin])
        /\ SuiSafeEscrow.is_refunded safe' = true
        /\ SuiSafeEscrow.locked_coin safe' = 0)
  /\ (forall (st : ETHWSUISwap.State) (env : ETHWSUISwap.Env) (swapId : Z),
        ETHWSUISwap.block_timestamp env
        = ETHWSUISwap.timelock (ETHWSUISwap.swap_at st swapId) ->
        succeeded (ETHWSUISwap.refund st env swapId) = false)
  /\ (forall (st : EthSafeEscrow.State) (env : EthSafeEscrow.Env),
        EthSafeEscrow.block_timestamp env
        = EthSafeEscrow.startTime st + EthSafeEscrow.lockDuration st ->
        succeeded (EthSafeEscrow.refund st env) = false).
Proof.
  intros Hsafe Hfit deadline. subst deadline.
  unfold SuiSafeEscrow.create_safe_internal in Hsafe.
  destruct (0 <? coin); cbn in Hsafe; [|discriminate Hsafe].
  injection Hsafe as <- <- _ _. cbn [SuiSafeEscrow.start_time SuiSafeEscrow.lock_duration].
  split; [reflexivity|]. split; [|split].
  - unfold SuiSafeEscrow.refund, SuiSafeEscrow.add_u64.
    cbn [SuiSafeEscrow.is_withdrawn SuiSafeEscrow.is_refunded SuiSafeEscrow.safe_id
         SuiSafeEscrow.id SuiSafeEscrow.start_time SuiSafeEscrow.lock_duration].
    rewrite bool_decide_eq_true_2 by reflexivity. cbn [negb].
    rewrite (proj2 (Z.leb_le _ _) Hfit), Z.leb_refl. cbn [negb].
    eexists. split; [reflexivity|]. split; [reflexivity|]. cbn. lia.
  - intros st env swapId Hnow.
    apply not_true_is_false. intros Hs%eth_refund_succeeds_iff. cbn zeta in Hs. lia.
  - intros st env Hnow. unfold EthSafeEscrow.refund.
    unfold mbind, tx_bind, EthSafeEscrow.nonpayable, EthSafeEscrow.require,
      EthSafeEscrow.checked_add.
    repeat match goal with
           | |- context [if ?c then _ else _] =>
               lazymatch c with
               | (_ <? _) => fail
               | _ => destruct c; try reflexivity
               end
           end.
    rewrite (proj2 (Z.ltb_ge _ _)) by lia. reflexivity.
Qed.

(** The safe of the scenario, created at time 1000 with a lock of 500,
    refunded by its owner at time 1500. *)
Lemma C3_sui_refund_at_the_deadline_witness :
  let deadline := SuiSafeEscrow.start_time Scenario.sui_safe
                  + SuiSafeEscrow.lock_duration Scenario.sui_safe in
  deadline = 1000 + 500
  /\ (exists safe',
        SuiSafeEscrow.refund Scenario.sui_safe Scenario.sui_cap deadline (Scenario.sui_ctx 1)
        = Done (safe', 10,
                [SuiSafeEscrow.SafeRefunded (SuiSafeEscrow.id Scenario.sui_safe)
                   (SuiSafeEscrow.owner Scenario.sui_safe) 10])
        /\ SuiSafeEscrow.is_refunded safe' = true
        /\ SuiSafeEscrow.locked_coin safe' = 0)
  /\ (forall (st : ETHWSUISwap.State) (env : ETHWSUISwap.Env) (swapId : Z),
        ETHWSUISwap.block_timestamp env
        = ETHWSUISwap.timelock (ETHWSUISwap.swap_at st swapId) ->
        succeeded (ETHWSUISwap.refund st env swapId) = false)
  /\ (forall (st : EthSafeEscrow.State) (env : EthSafeEscrow.Env),
        EthSafeEscrow.block_timestamp env
        = EthSafeEscrow.startTime st + EthSafeEscrow.lockDuration st ->
        succeeded (EthSafeEscrow.refund st env) = false).
Proof.
  exact (C3_sui_refund_at_the_deadline 10 2
           (SuiSafeEscrow.create_secret_hash Scenario.alpha_key) 500 false 1000
           (Scenario.sui_ctx 1) _ (Scenario.sui_ctx 1) Scenario.sui_safe Scenario.sui_cap _
           sui_safe_is_created sui_deadline_fits).
Defined.

(** The same instant on the two ledgers, and the instants around it. *)
Example sui_refund_at_deadline :
  succeeded (SuiSafeEscrow.refund Scenario.sui_safe Scenario.sui_cap 1499
                                  (Scenario.sui_ctx 1)) = false
  /\ succeeded (SuiSafeEscrow.refund Scenario.sui_safe Scenario.sui_cap 1500
                                     (Scenario.sui_ctx 1)) = true
  /\ succeeded (SuiSafeEscrow.refund Scenario.sui_safe Scenario.sui_cap 1501
                                     (Scenario.sui_ctx 1)) = true.
Proof. repeat split. Qed.

Example eth_refund_at_and_after_timelock :
  ETHWSUISwap.refund (Scenario.eth_locked 1) (Scenario.eth_env 1 0 10000) (Scenario.eth_swap_id 1)
  = Aborted (ETHWSUISwap.Require "ETHWSUISwap: timelock not expired")
  /\ succeeded (ETHWSUISwap.refund (Scenario.eth_locked 1) (Scenario.eth_env 1 0 10001)
                                   (Scenario.eth_swap_id 1)) = true
  /\ ETHWSUISwap.refund (Scenario.eth_locked 1) (Scenario.eth_env 2 0 10001) (Scenario.eth_swap_id 1)
     = Aborted (ETHWSUISwap.Require "ETHWSUISwap: only initiator can refund").
Proof. vm_compute. repeat split. Qed.

(** C4.  On both ledgers the terminal flags of an escrow are mutually
    exclusive and monotone: from a safe as [create_safe_internal] makes it,
    and from the contract as its constructor leaves it, after any sequence
    of calls no escrow has both flags, and a flag that is set after a
    first sequence of calls is still set after any further calls. *)
Theorem C4_terminal_flags `{HH : ETHWSUISwap.Hashes}
    (coin beneficiary : Z) (secret_hash : Bytes.bytes) (lock_duration : Z)
    (use_sha256 : bool) (clock : Z) (ctx ctx' : SuiSafeEscrow.TxContext)
    (safe : SuiSafeEscrow.SafeEscrow) (cap : SuiSafeEscrow.SafeOwnerCap)
    (evs : list SuiSafeEscrow.Event) (cs1 cs2 : list SuiSafeEscrow.call)
    (deployer token recipient : Z) (st : ETHWSUISwap.State)
    (es1 es2 : list (ETHWSUISwap.Env * ETHWSUISwap.call)) (swapId : Z) :
  SuiSafeEscrow.create_safe_internal coin beneficiary secret_hash lock_duration
                                     use_sha256 clock ctx
  = Done (safe, cap, evs, ctx') ->
  ETHWSUISwap.constructor deployer token recipient = Done st ->
  let s1 := SuiSafeEscrow.run safe cs1 in
  let s2 := SuiSafeEscrow.run s1 cs2 in
  let sw1 := ETHWSUISwap.swap_at (ETHWSUISwap.run st es1) swapId in
  let sw2 := ETHWSUISwap.swap_at (ETHWSUISwap.run (ETHWSUISwap.run st es1) es2) swapId in
  (SuiSafeEscrow.is_withdrawn s2 && SuiSafeEscrow.is_refunded s2 = false
   /\ (SuiSafeEscrow.is_withdrawn s1 = true -> SuiSafeEscrow.is_withdrawn s2 = true)
   /\ (SuiSafeEscrow.is_refunded s1 = true -> SuiSafeEscrow.is_refunded s2 = true))
  /\ (ETHWSUISwap.withdrawn sw2 && ETHWSUISwap.refunded sw2 = false
      /\ (ETHWSUISwap.withdrawn sw1 = true -> ETHWSUISwap.withdrawn sw2 = true)
      /\ (ETHWSUISwap.refunded sw1 = true -> ETHWSUISwap.refunded sw2 = true)).
Proof.
  intros Hsafe Hst s1 s2 sw1 sw2. split.
  - apply sui_created_open in Hsafe as (Hw & Hr & _).
    assert (H0 : SuiSafeEscrow.is_withdrawn safe && SuiSafeEscrow.is_refunded safe = false)
      by (rewrite Hw; reflexivity).
    destruct (sui_run_flags cs1 safe H0) as (H1 & _ & _). fold s1 in H1.
    exact (sui_run_flags cs2 s1 H1).
  - apply eth_constructor_flags in Hst.
    destruct (eth_run_flags es1 st Hst) as [Hok1 _].
    destruct (eth_run_flags es2 _ Hok1) as [Hok2 Hmono].
    split; [apply Hok2 | apply Hmono].
Qed.

Example eth_deployed_by_constructor :
  ETHWSUISwap.constructor 100 200 300 = Done Scenario.eth_deployed.
Proof. reflexivity. Qed.

(** The scenario's safe withdrawn and then asked for a refund, and the
    one-wei swap locked, withdrawn and then asked for a refund. *)
Lemma C4_terminal_flags_witness :
  let s1 := SuiSafeEscrow.run Scenario.sui_safe
              [SuiSafeEscrow.CallWithdraw Scenario.alpha_key (Scenario.sui_ctx 2)] in
  let s2 := SuiSafeEscrow.run s1
              [SuiSafeEscrow.CallRefund Scenario.sui_cap 2000 (Scenario.sui_ctx 1)] in
  let sw1 := ETHWSUISwap.swap_at
               (ETHWSUISwap.run (H := ETHWSUISwap.evm) Scenario.eth_deployed Scenario.eth_calls)
               (Scenario.eth_swap_id 1) in
  let sw2 := ETHWSUISwap.swap_at
               (ETHWSUISwap.run (H := ETHWSUISwap.evm)
                  (ETHWSUISwap.run (H := ETHWSUISwap.evm) Scenario.eth_deployed Scenario.eth_calls)
                  [(Scenario.eth_env 1 0 20000, ETHWSUISwap.CallRefund (Scenario.eth_swap_id 1))])
               (Scenario.eth_swap_id 1) in
  (SuiSafeEscrow.is_withdrawn s2 && SuiSafeEscrow.is_refunded s2 = false
   /\ (SuiSafeEscrow.is_withdrawn s1 = true -> SuiSafeEscrow.is_withdrawn s2 = true)
   /\ (SuiSafeEscrow.is_refunded s1 = true -> SuiSafeEscrow.is_refunded s2 = true))
  /\ (ETHWSUISwap.withdrawn sw2 && ETHWSUISwap.refunded sw2 = false
      /\ (ETHWSUISwap.withdrawn sw1 = true -> ETHWSUISwap.withdrawn sw2 = true)
      /\ (ETHWSUISwap.refunded sw1 = true -> ETHWSUISwap.refunded sw2 = true)).
Proof.
  exact (C4_terminal_flags (HH := ETHWSUISwap.evm) _ _ _ _ _ _ _ _ _ _ _ _ _ _ _ _ _ _ _ _
           sui_safe_is_created eth_deployed_by_constructor).
Defined.

(** C5, as the spec words it, fails: for the one-wei swap at the default
    fee of 30 basis points the participant is paid 1 wei and no fee is
    taken, while the spec's formula gives a net of 0 and a fee of 1. *)
Lemma C5_counterexample :
  ETHWSUISwap.withdraw (H := ETHWSUISwap.evm) (Scenario.eth_locked 1)
    (Scenario.eth_env 2 0 2000) (Scenario.eth_swap_id 1) Scenario.eth_secret
  = Done (Scenario.eth_withdrawn,
          [ETHWSUISwap.SendETH 2 1;
           ETHWSUISwap.SwapWithdrawn (Scenario.eth_swap_id 1) 2 Scenario.eth_secret])
  /\ FeeSpec.net 1 (ETHWSUISwap.swapFee (Scenario.eth_locked 1)) = 0
  /\ FeeSpec.fee 1 (ETHWSUISwap.swapFee (Scenario.eth_locked 1)) = 1.
Proof. vm_compute. repeat split. Qed.

(** C5 (amended).  When a withdrawal succeeds on a swap that locks
    [amount] at [fee_bps] basis points, the fee is
    [floor(amount * fee_bps / 10000)], the participant is paid
    [amount - fee], the fee recipient is paid the fee when it is not zero,
    and nothing else is paid: fee + net = amount.  For amounts and fees
    that are not negative the net is [amount * (10000 - fee_bps) / 10000]
    rounded up, not down. *)
Theorem C5_fee_split `{HH : ETHWSUISwap.Hashes}
    (st st' : ETHWSUISwap.State) (env : ETHWSUISwap.Env) (swapId secret : Z)
    (fx : list ETHWSUISwap.Effect) :
  ETHWSUISwap.withdraw st env swapId secret = Done (st', fx) ->
  let sw := ETHWSUISwap.swap_at st swapId in
  let amount := ETHWSUISwap.locked_amount sw in
  let fee_bps := ETHWSUISwap.swapFee st in
  let fee := amount * fee_bps / 10000 in
  let net := amount - fee in
  fx = ETHWSUISwap.pay sw (ETHWSUISwap.participant sw) net
       :: (if 0 <? fee then [ETHWSUISwap.pay sw (ETHWSUISwap.feeRecipient st) fee] else [])
       ++ [ETHWSUISwap.SwapWithdrawn swapId (ETHWSUISwap.msg_sender env) secret]
  /\ fee + net = amount
  /\ fee <= amount
  /\ net = (amount * (10000 - fee_bps) + 9999) / 10000.
Proof.
  intros Hw sw amount fee_bps fee net.
  apply eth_withdraw_done in Hw. cbn zeta in Hw.
  destruct Hw as (_ & _ & _ & _ & _ & _ & _ & _ & Hfee & Hfx).
  split; [exact Hfx|]. split; [subst net; lia|]. split; [exact Hfee|].
  subst net fee.
  replace (amount * (10000 - fee_bps) + 9999)
    with ((9999 - (amount * fee_bps) mod 10000)
          + (amount - amount * fee_bps / 10000) * 10000).
  - rewrite Z.div_add by lia.
    pose proof (Z.mod_pos_bound (amount * fee_bps) 10000 ltac:(lia)) as Hr.
    rewrite (Z.div_small (9999 - (amount * fee_bps) mod 10000) 10000) by lia. lia.
  - pose proof (Z.div_mod (amount * fee_bps) 10000 ltac:(lia)) as Hd. lia.
Qed.

(** One ether at 30 basis points: 0.003 ether of fee, 0.997 ether paid. *)
Example eth_withdraw_one_ether :
  ETHWSUISwap.withdraw (H := ETHWSUISwap.evm) (Scenario.eth_locked Scenario.ether)
    (Scenario.eth_env 2 0 2000) (Scenario.eth_swap_id Scenario.ether) Scenario.eth_secret
  = Done (ETHWSUISwap.run (H := ETHWSUISwap.evm) (Scenario.eth_locked Scenario.ether)
            [(Scenario.eth_env 2 0 2000,
              ETHWSUISwap.CallWithdraw (Scenario.eth_swap_id Scenario.ether) Scenario.eth_secret)],
          [ETHWSUISwap.SendETH 2 997000000000000000;
           ETHWSUISwap.SendETH 300 3000000000000000;
           ETHWSUISwap.SwapWithdrawn (Scenario.eth_swap_id Scenario.ether) 2
                                     Scenario.eth_secret]).
Proof. vm_compute. reflexivity. Qed.

(** The rule on that withdrawal. *)
Lemma C5_fee_split_witness :
  let sw := ETHWSUISwap.swap_at (Scenario.eth_locked Scenario.ether)
                                (Scenario.eth_swap_id Scenario.ether) in
  let amount := ETHWSUISwap.locked_amount sw in
  let fee_bps := ETHWSUISwap.swapFee (Scenario.eth_locked Scenario.ether) in
  let fee := amount * fee_bps / 10000 in
  let net := amount - fee in
  [ETHWSUISwap.SendETH 2 997000000000000000;
   ETHWSUISwap.SendETH 300 3000000000000000;
   ETHWSUISwap.SwapWithdrawn (Scenario.eth_swap_id Scenario.ether) 2 Scenario.eth_secret]
  = ETHWSUISwap.pay sw (ETHWSUISwap.participant sw) net
    :: (if 0 <? fee
        then [ETHWSUISwap.pay sw (ETHWSUISwap.feeRecipient (Scenario.eth_locked Scenario.ether))
                              fee]
        else [])
    ++ [ETHWSUISwap.SwapWithdrawn (Scenario.eth_swap_id Scenario.ether)
          (ETHWSUISwap.msg_sender (Scenario.eth_env 2 0 2000)) Scenario.eth_secret]
  /\ fee + net = amount
  /\ fee <= amount
  /\ net = (amount * (10000 - fee_bps) + 9999) / 10000.
Proof.
  exact (C5_fee_split (HH := ETHWSUISwap.evm) _ _ _ _ _ _ eth_withdraw_one_ether).
Defined.

(** ** The timeout manager *)

Section TimeoutRules.
Import Js TimeoutManager.

Example constructor_testnet :
  constructor (Some "testnet"%string)
  = Done (with_profile "testnet" 1800000 300000 300000 120000).
Proof. reflexivity. Qed.

Example constructor_mainnet_devnet :
  constructor (Some "mainnet"%string)
  = Done (with_profile "mainnet" 10800000 1800000 1800000 600000)
  /\ constructor (Some "devnet"%string)
     = Done (with_profile "devnet" 600000 120000 120000 60000).
Proof. split; reflexivity. Qed.

(** The rule of the model: on a profile, [validateTimeouts] accepts exactly
    the pairs with both timeouts at least the minimum and the source
    timeout strictly above the destination timeout plus the margin, the
    sum being that of the integers. *)
Lemma validateTimeouts_model_rule name S D M m (sourceTimeout destTimeout : Z) :
  validateTimeouts (with_profile name S D M m) sourceTimeout destTimeout = Done true
  <-> m <= sourceTimeout /\ m <= destTimeout /\ destTimeout + M < sourceTimeout.
Proof.
  unfold validateTimeouts, read, with_profile. cbn.
  destruct (sourceTimeout <? m) eqn:H1; [split; [discriminate | lia]|].
  destruct (destTimeout <? m) eqn:H2; [split; [discriminate | lia]|].
  destruct (sourceTimeout <=? destTimeout + M) eqn:H3; [split; [discriminate | lia]|].
  split; [lia | reflexivity].
Qed.

(** The rule of the code, where the sum of the integers is the sum
    JavaScript computes: on timeouts and a margin that are safe integers
    whose sum is one, [validateTimeouts] accepts exactly the pairs with
    both timeouts at least the minimum and the source timeout strictly
    above the destination timeout plus the margin. *)
Lemma validateTimeouts_accepts_iff name S D M m (sourceTimeout destTimeout : Z) :
  is_safe_integer sourceTimeout -> is_safe_integer destTimeout ->
  is_safe_integer M -> is_safe_integer m -> is_safe_integer (destTimeout + M) ->
  validateTimeouts (with_profile name S D M m) sourceTimeout destTimeout = Done true
  <-> m <= sourceTimeout /\ m <= destTimeout /\ destTimeout + M < sourceTimeout.
Proof. intros _ _ _ _ _. apply validateTimeouts_model_rule. Qed.

Lemma validateTimeouts_throws_otherwise name S D M m (sourceTimeout destTimeout : Z) :
  succeeded (validateTimeouts (with_profile name S D M m) sourceTimeout destTimeout) = false
  <-> ~ (m <= sourceTimeout /\ m <= destTimeout /\ destTimeout + M < sourceTimeout).
Proof.
  rewrite <- (validateTimeouts_model_rule name S D M m).
  unfold validateTimeouts, read, with_profile. cbn.
  destruct (sourceTimeout <? m); [cbn; split; [discriminate | reflexivity]|].
  destruct (destTimeout <? m); [cbn; split; [discriminate | reflexivity]|].
  destruct (sourceTimeout <=? destTimeout + M); cbn; [split; [discriminate | reflexivity]|].
  split; [discriminate | intros H; exfalso; apply H; reflexivity].
Qed.

End TimeoutRules.

(** C6 (fails on the code).  On testnet the safety margin is 300000 ms.
    The pair the repository's integration test creates a safe with, a
    source timeout of 10 minutes and a destination timeout of 5 minutes,
    has both timeouts above the minimum and the source ahead by exactly the
    margin, and [validateTimeouts] throws on it; the pair is also the one
    [calculateOptimalTimeouts] proposes. *)
Theorem C6_validateTimeouts_rejects_exact_margin :
  let tm := TimeoutManager.with_profile "testnet" 1800000 300000 300000 120000 in
  TimeoutManager.constructor (Some "testnet"%string) = Done tm
  /\ TimeoutManager.getSafetyMargin tm = Done (Js.Num 300000)
  /\ 120000 <= 300000 /\ 120000 <= 600000 /\ 600000 - 300000 >= 300000
  /\ TimeoutManager.validateTimeouts tm 600000 300000
     = Aborted (TimeoutManager.SafetyMarginViolated 600000 300000
                  (Js.Num 300000) (Js.Num 600000))
  /\ TimeoutManager.calculateOptimalTimeouts tm 0
     = Done {| TimeoutManager.sourceTimeout := Js.Num 600000;
               TimeoutManager.destTimeout := Js.Num 300000;
               TimeoutManager.safetyMargin := Js.Num 300000 |}
  /\ TimeoutManager.validateTimeouts tm 600001 300000 = Done true.
Proof. cbv zeta. repeat split; try reflexivity; lia. Qed.

(** The pair of the repository's test of an invalid configuration. *)
Example validateTimeouts_too_short :
  TimeoutManager.validateTimeouts
    (TimeoutManager.with_profile "testnet" 1800000 300000 300000 120000) 1000 5000
  = Aborted (TimeoutManager.SourceBelowMinimum 1000 (Js.Num 120000)).
Proof. reflexivity. Qed.

Section NetworkFallback.
Import Js TimeoutManager.

(** The fallback works for a missing argument and for every name that is
    neither a profile nor a member of [Object.prototype]. *)
Lemma unknown_network_falls_back (name : string) :
  name ∉ ["mainnet"; "testnet"; "devnet"]%string ->
  name ∉ object_prototype_keys ->
  constructor (Some name) = Done (with_profile name 1800000 300000 300000 120000).
Proof.
  intros Hprof Hproto.
  unfold constructor. change (default "testnet"%string (Some name)) with name.
  unfold _getTimeoutConfig, configs. cbn [get own].
  assert (H1 : String.eqb "mainnet" name = false)
    by (apply String.eqb_neq; intros <-; apply Hprof; set_solver).
  assert (H2 : String.eqb "testnet" name = false)
    by (apply String.eqb_neq; intros <-; apply Hprof; set_solver).
  assert (H3 : String.eqb "devnet" name = false)
    by (apply String.eqb_neq; intros <-; apply Hprof; set_solver).
  rewrite H1, H2, H3. unfold inherited.
  rewrite (bool_decide_eq_false_2 (name ∈ object_prototype_keys)) by exact Hproto.
  reflexivity.
Qed.

Lemma missing_network_is_testnet :
  constructor None = Done (with_profile "testnet" 1800000 300000 300000 120000).
Proof. reflexivity. Qed.

Example misspelt_and_empty_network :
  constructor (Some "tesnet"%string) = Done (with_profile "tesnet" 1800000 300000 300000 120000)
  /\ constructor (Some ""%string) = Done (with_profile "" 1800000 300000 300000 120000).
Proof. split; reflexivity. Qed.

(** A name inherited from [Object.prototype] is found by [configs[network]]
    and is truthy, so the fallback is not taken. *)
Lemma inherited_network_is_builtin (name : string) :
  name ∈ object_prototype_keys ->
  constructor (Some name)
  = Done {| TimeoutManager.network := name; TimeoutManager.config := Builtin name |}.
Proof.
  intros Hin. unfold object_prototype_keys in Hin.
  repeat (apply elem_of_cons in Hin as [-> | Hin]; [reflexivity|]).
  apply elem_of_nil in Hin. contradiction.
Qed.

End NetworkFallback.

(** C10 (fails on the code).  ["constructor"] is a network string outside
    the three profiles.  The manager is constructed, but its configuration
    is the function every object inherits under that name, not the testnet
    profile: the getters return [undefined] where testnet has 1800000,
    300000 and 300000, and [validateTimeouts] then accepts every pair.
    [ConfigManager.getTimeoutConfig] has the same lookup. *)
Theorem C10_inherited_name_is_not_testnet :
  let name := "constructor"%string in
  let tm := {| TimeoutManager.network := name; TimeoutManager.config := Js.Builtin name |} in
  (name ∉ ["mainnet"; "testnet"; "devnet"]%string)
  /\ TimeoutManager.constructor (Some name) = Done tm
  /\ TimeoutManager.getDefaultSourceTimeout tm = Done Js.Undefined
  /\ TimeoutManager.getDefaultDestTimeout tm = Done Js.Undefined
  /\ TimeoutManager.getSafetyMargin tm = Done Js.Undefined
  /\ (testnet ← TimeoutManager.constructor (Some "testnet"%string);
      TimeoutManager.getDefaultSourceTimeout testnet) = Done (Js.Num 1800000)
  /\ (testnet ← TimeoutManager.constructor (Some "testnet"%string);
      TimeoutManager.getDefaultDestTimeout testnet) = Done (Js.Num 300000)
  /\ (testnet ← TimeoutManager.constructor (Some "testnet"%string);
      TimeoutManager.getSafetyMargin testnet) = Done (Js.Num 300000)
  /\ (forall sourceTimeout destTimeout,
        TimeoutManager.validateTimeouts tm sourceTimeout destTimeout = Done true)
  /\ (forall env, ConfigManager.getTimeoutConfig (ConfigManager._loadConfig env) (Some name)
                  = Done (Js.Builtin name)).
Proof.
  cbv zeta. split.
  { intros Hin.
    repeat (apply elem_of_cons in Hin as [Heq | Hin]; [discriminate Heq|]).
    apply elem_of_nil in Hin. exact Hin. }
  do 7 (split; [reflexivity|]).
  split; [intros sourceTimeout destTimeout | intros env]; reflexivity.
Qed.

(** ** The resolver's monitoring step *)

Section MonitorRules.
Import ResolverService.

Lemma snd_andThen r k : snd (andThen r k) = snd r ++ snd (k (fst r)).
Proof. unfold andThen. destruct (k (fst r)). reflexivity. Qed.

Lemma fst_andThen r k : fst (andThen r k) = fst (k (fst r)).
Proof. unfold andThen. destruct (k (fst r)). reflexivity. Qed.

Lemma never_andThen r k :
  never_user_claimed (snd r) -> (forall sv, never_user_claimed (snd (k sv))) ->
  never_user_claimed (snd (andThen r k)).
Proof.
  intros Hr Hk. rewrite snd_andThen. apply Forall_app. split; [exact Hr | apply Hk].
Qed.

Lemma never_updateSwapStatus sv swapId newStatus :
  newStatus <> USER_CLAIMED ->
  never_user_claimed (snd (updateSwapStatus sv swapId newStatus)).
Proof.
  intros Hne. unfold updateSwapStatus.
  destruct (activeSwaps sv !! swapId); cbn; repeat constructor. exact Hne.
Qed.

Lemma never_log (e : effect) (sv : Service) :
  match e with SwapStatusChanged _ _ _ => False | _ => True end ->
  never_user_claimed (snd (ResolverService.log e sv)).
Proof. intros He. cbn. constructor; [|constructor]. destruct e; auto; contradiction. Qed.

Lemma never_nil (sv : Service) : never_user_claimed (snd (sv, @nil effect)).
Proof. constructor. Qed.

Ltac never :=
  repeat first
    [ apply never_nil
    | apply never_log; exact I
    | apply never_updateSwapStatus; discriminate
    | apply never_andThen; [|intros ?]
    | match goal with |- context [if ?c then _ else _] => destruct c end ].

Lemma never_monitorSwap sv w swapId :
  never_user_claimed (snd (monitorSwap sv w swapId)).
Proof.
  unfold monitorSwap.
  destruct (activeSwaps sv !! swapId) as [cur|]; [|apply never_nil].
  destruct (status cur);
    unfold handlePendingSwap, handleUserLockedSwap, handleBothLockedSwap,
           handleUserClaimedSwap, claimResolverSide;
    never.
Qed.

Lemma never_monitor swapId ws : forall r,
  never_user_claimed (snd r) ->
  never_user_claimed (snd (fold_left (fun r w => tick r swapId w) ws r)).
Proof.
  induction ws as [|w ws IH]; intros r Hr; cbn [fold_left]; [exact Hr|].
  apply IH. unfold tick.
  destruct (bool_decide _); [|exact Hr].
  apply never_andThen; [exact Hr | intros sv; apply never_monitorSwap].
Qed.

Lemma phases_never swapId es :
  never_user_claimed es -> USER_CLAIMED ∉ phases swapId es.
Proof.
  unfold never_user_claimed, phases. intros Hall Hin.
  apply list_elem_of_omap in Hin as (e & He & Hsome).
  rewrite List.Forall_forall in Hall. specialize (Hall e (proj1 (list_elem_of_In _ _) He)).
  destruct e; try discriminate Hsome.
  destruct (String.eqb swapId0 swapId); [|discriminate Hsome].
  injection Hsome as Heq. contradiction.
Qed.

#[local] Abbreviation quiet w :=
  (userLocked w = false /\ userClaimed w = false /\ resolverClaimed w = false).

#[local] Abbreviation expires_or_locks es :=
  (Forall (fun e => match e with
                    | SwapStatusChanged _ _ new => new = EXPIRED \/ new = BOTH_LOCKED
                    | _ => True
                    end) es).

Lemma updateSwapStatus_changes sv swapId newStatus :
  newStatus = EXPIRED \/ newStatus = BOTH_LOCKED ->
  expires_or_locks (snd (updateSwapStatus sv swapId newStatus)).
Proof.
  intros Hst. unfold updateSwapStatus.
  destruct (activeSwaps sv !! swapId); cbn; [|constructor].
  apply Forall_cons. split; [exact I|]. apply Forall_cons. split; [exact Hst | constructor].
Qed.

Lemma monitorSwap_quiet sv w swapId :
  quiet w -> expires_or_locks (snd (monitorSwap sv w swapId)).
Proof.
  intros (Hl & Hu & Hr). unfold monitorSwap.
  destruct (activeSwaps sv !! swapId) as [cur|]; [|constructor].
  destruct (status cur);
    unfold handlePendingSwap, handleUserLockedSwap, handleBothLockedSwap,
           handleUserClaimedSwap, claimResolverSide;
    rewrite ?Hl, ?Hu, ?Hr; cbn [andb negb];
    repeat first
      [ apply Forall_nil_2
      | rewrite snd_andThen; apply Forall_app; split
      | apply updateSwapStatus_changes; auto
      | match goal with |- context [if ?c then _ else _] => destruct c end
      | progress cbn [snd ResolverService.log]
      | apply Forall_cons; split; [exact I|] ].
Qed.

Lemma monitorSwap_idle sv w swapId swap :
  quiet w ->
  activeSwaps sv !! swapId = Some swap ->
  match status swap with
  | RESOLVER_LOCKED | BOTH_LOCKED | USER_CLAIMED => True
  | _ => False
  end ->
  monitorSwap sv w swapId = (sv, []).
Proof.
  intros (Hl & Hu & Hr) Hget Hst. unfold monitorSwap. rewrite Hget.
  destruct (status swap); try contradiction;
    unfold handleBothLockedSwap, handleUserClaimedSwap; rewrite ?Hu, ?Hr; reflexivity.
Qed.





(** What one tick does to a swap in [BOTH_LOCKED]. *)
Lemma monitorSwap_both_locked sv w swapId swap :
  activeSwaps sv !! swapId = Some swap -> status swap = BOTH_LOCKED ->
  phases swapId (snd (monitorSwap sv w swapId))
  = if userClaimed w && negb (resolverClaimed w) then [COMPLETED]
    else if resolverClaimed w && negb (userClaimed w) then [RESOLVER_CLAIMED]
    else [].
Proof.
  intros Hget Hst. unfold monitorSwap. rewrite Hget, Hst.
  unfold handleBothLockedSwap, claimResolverSide, andThen, ResolverService.log, updateSwapStatus.
  cbn [fst snd].
  destruct (userClaimed w && negb (resolverClaimed w)).
  - rewrite Hget. cbn. rewrite String.eqb_refl. reflexivity.
  - destruct (resolverClaimed w && negb (userClaimed w)).
    + rewrite Hget. cbn. rewrite String.eqb_refl. reflexivity.
    + reflexivity.
Qed.

End MonitorRules.




(** What the handler of [BOTH_LOCKED] would do on answers the source's
    queries never give: a tick that saw the user's claim and not the
    resolver's would write [COMPLETED] at once, and no tick writes
    [USER_CLAIMED], so [handleUserClaimedSwap] is never entered. *)
Lemma monitor_never_writes_user_claimed
    (sv : ResolverService.Service) (swapId : string)
    (ws : list ResolverService.World) (w : ResolverService.World)
    (swap : ResolverService.SwapRequest) :
  (ResolverService.USER_CLAIMED
     ∉ ResolverService.phases swapId (snd (ResolverService.monitor sv swapId ws)))
  /\ (ResolverService.activeSwaps sv !! swapId = Some swap ->
      ResolverService.status swap = ResolverService.BOTH_LOCKED ->
      ResolverService.phases swapId (snd (ResolverService.monitorSwap sv w swapId))
      = if ResolverService.userClaimed w && negb (ResolverService.resolverClaimed w)
        then [ResolverService.COMPLETED]
        else if ResolverService.resolverClaimed w && negb (ResolverService.userClaimed w)
             then [ResolverService.RESOLVER_CLAIMED]
             else []).
Proof.
  split.
  - apply phases_never. unfold ResolverService.monitor.
    apply never_monitor. constructor.
  - apply monitorSwap_both_locked.
Qed.

(** With the placeholders of the source, which answer that nothing was
    claimed, a swap in [BOTH_LOCKED] stays there. *)
Example placeholders_leave_both_locked :
  ResolverService.monitor Scenario.resolver "swap-1"
    [ResolverService.placeholder 0 false; ResolverService.placeholder 10000 false]
  = (Scenario.resolver, []).
Proof. vm_compute. reflexivity. Qed.

(** ** The relayer's retry loops *)

Section RetryRules.
Import RelayerService.
Variables (this : t) (c : chain) (safe : string) (secret : Bytes.bytes).

#[local] Abbreviation loop := (retry_loop this c safe secret).

Lemma withdrawWithRetry_loop resolves :
  withdrawWithRetry c this safe secret resolves
  = loop resolves (Z.to_nat (retryAttempts this)) 1.
Proof. destruct c; reflexivity. Qed.

Lemma attempts_loop resolves fuel a :
  attempts (loop resolves fuel a)
  = match fuel with
    | O => []
    | S k => if a <=? retryAttempts this
             then a :: (if resolves a then [] else attempts (loop resolves k (a + 1)))
             else []
    end.
Proof.
  destruct fuel as [|k]; [reflexivity|]. cbn [retry_loop].
  destruct (a <=? retryAttempts this); [|reflexivity].
  destruct (resolves a); [reflexivity|].
  destruct (a <? retryAttempts this); reflexivity.
Qed.

Lemma delays_loop resolves fuel a :
  delays (loop resolves fuel a)
  = match fuel with
    | O => []
    | S k => if (a <=? retryAttempts this) && negb (resolves a)
             then (if a <? retryAttempts this then [retryDelay this * a] else [])
                  ++ delays (loop resolves k (a + 1))
             else []
    end.
Proof.
  destruct fuel as [|k]; [reflexivity|]. cbn [retry_loop].
  destruct (a <=? retryAttempts this); [|reflexivity].
  destruct (resolves a); [reflexivity|].
  destruct (a <? retryAttempts this); reflexivity.
Qed.

Lemma withdrew_loop resolves fuel a :
  withdrew (loop resolves fuel a)
  = match fuel with
    | O => false
    | S k => (a <=? retryAttempts this)
             && (resolves a || withdrew (loop resolves k (a + 1)))
    end.
Proof.
  destruct fuel as [|k]; [reflexivity|]. cbn [retry_loop].
  destruct (a <=? retryAttempts this); [|reflexivity].
  destruct (resolves a); [reflexivity|].
  destruct (a <? retryAttempts this); reflexivity.
Qed.

(** The attempts are numbered consecutively. *)
Lemma attempts_consecutive resolves fuel : forall a,
  attempts (loop resolves fuel a)
  = map (fun i => a + Z.of_nat i) (seq 0 (length (attempts (loop resolves fuel a)))).
Proof.
  induction fuel as [|k IH]; intros a; rewrite attempts_loop; [reflexivity|].
  destruct (a <=? retryAttempts this); [|reflexivity].
  destruct (resolves a); cbn [length seq map].
  - f_equal. lia.
  - f_equal; [lia|]. rewrite <- seq_shift, map_map.
    rewrite (IH (a + 1)) at 1. apply map_ext. intros i. lia.
Qed.

(** There are at most as many as the loop bound allows. *)
Lemma attempts_bounded resolves fuel : forall a,
  Z.of_nat (length (attempts (loop resolves fuel a))) <= Z.max 0 (retryAttempts this - a + 1).
Proof.
  induction fuel as [|k IH]; intros a; rewrite attempts_loop; [cbn; lia|].
  destruct (a <=? retryAttempts this) eqn:Ha; [|cbn; lia].
  apply Z.leb_le in Ha.
  destruct (resolves a); cbn [length]; [lia|].
  specialize (IH (a + 1)). lia.
Qed.

(** An attempt that resolves is the last one. *)
Lemma attempts_stop_at_success resolves fuel : forall a (i : nat) (k : Z),
  attempts (loop resolves fuel a) !! i = Some k -> resolves k = true ->
  S i = length (attempts (loop resolves fuel a)).
Proof.
  induction fuel as [|f IH]; intros a i k; rewrite attempts_loop; [discriminate|].
  destruct (a <=? retryAttempts this); [|discriminate].
  destruct (resolves a) eqn:Hr.
  - destruct i as [|i]; [reflexivity | discriminate].
  - destruct i as [|i]; cbn [lookup list_lookup length].
    + intros [= <-] Hk. congruence.
    + intros Hi Hk. f_equal. exact (IH _ _ _ Hi Hk).
Qed.

(** With the fuel of the loop bound, the loop gives up only after the
    last allowed attempt, and succeeds only by an attempt that resolved. *)
Lemma attempts_exhausted resolves fuel : forall a,
  retryAttempts this - a + 1 <= Z.of_nat fuel ->
  withdrew (loop resolves fuel a) = false ->
  Z.of_nat (length (attempts (loop resolves fuel a))) = Z.max 0 (retryAttempts this - a + 1).
Proof.
  induction fuel as [|f IH]; intros a Hfuel; rewrite attempts_loop, withdrew_loop.
  - intros _. cbn. lia.
  - destruct (a <=? retryAttempts this) eqn:Ha; [|apply Z.leb_gt in Ha; intros _; cbn; lia].
    apply Z.leb_le in Ha.
    destruct (resolves a); [discriminate|]. cbn [andb orb length].
    intros Hw. specialize (IH (a + 1) ltac:(lia) Hw). lia.
Qed.

Lemma withdrew_by_last resolves fuel : forall a,
  withdrew (loop resolves fuel a) = true ->
  exists k, last (attempts (loop resolves fuel a)) = Some k /\ resolves k = true.
Proof.
  induction fuel as [|f IH]; intros a; rewrite attempts_loop, withdrew_loop; [discriminate|].
  destruct (a <=? retryAttempts this); [|discriminate].
  destruct (resolves a) eqn:Hr; cbn [andb orb].
  - intros _. exists a. split; [reflexivity | exact Hr].
  - intros Hw. destruct (IH _ Hw) as (k & Hlast & Hk). exists k. split; [|exact Hk].
    destruct (attempts (loop resolves f (a + 1))); [discriminate Hlast | exact Hlast].
Qed.

(** One delay between consecutive attempts, none after the last. *)
Lemma delays_between_attempts resolves fuel : forall a,
  retryAttempts this - a + 1 <= Z.of_nat fuel ->
  length (delays (loop resolves fuel a))
  = (length (attempts (loop resolves fuel a)) - 1)%nat.
Proof.
  induction fuel as [|f IH]; intros a Hfuel; rewrite attempts_loop, delays_loop; [reflexivity|].
  destruct (a <=? retryAttempts this) eqn:Ha; [|reflexivity].
  apply Z.leb_le in Ha.
  destruct (resolves a); [reflexivity|]. cbn [andb negb length].
  rewrite length_app, (IH (a + 1)) by lia.
  destruct (a <? retryAttempts this) eqn:Hlt; cbn [length].
  - apply Z.ltb_lt in Hlt.
    destruct f as [|f']; [lia|]. rewrite (attempts_loop resolves (S f') (a + 1)).
    destruct (a + 1 <=? retryAttempts this) eqn:Hn; [|apply Z.leb_gt in Hn; lia].
    cbn [length]. lia.
  - apply Z.ltb_ge in Hlt.
    rewrite (attempts_loop resolves f (a + 1)).
    destruct f as [|f']; [reflexivity|].
    destruct (a + 1 <=? retryAttempts this) eqn:Hn; [apply Z.leb_le in Hn; lia|].
    reflexivity.
Qed.

(** The delays of any run are the first delays of the run in which every
    call fails: what is waited before a retry does not vary. *)
Lemma delays_fixed resolves fuel : forall a,
  exists rest,
    delays (loop never_resolves fuel a) = delays (loop resolves fuel a) ++ rest.
Proof.
  induction fuel as [|f IH]; intros a; [exists []; reflexivity|].
  rewrite (delays_loop never_resolves (S f) a), (delays_loop resolves (S f) a).
  change (never_resolves a) with false. cbn [negb]. rewrite andb_true_r.
  destruct (a <=? retryAttempts this); cbn [andb]; [|exists []; reflexivity].
  destruct (resolves a); cbn [negb]; [eexists; reflexivity|].
  destruct (IH (a + 1)) as [rest Hrest]. exists rest.
  rewrite Hrest, app_assoc. reflexivity.
Qed.

(** When every call fails, each attempt before the last is followed by
    its delay. *)
Lemma delays_of_failures fuel : forall a k,
  a <= k < retryAttempts this -> k - a < Z.of_nat fuel ->
  retryDelay this * k ∈ delays (loop never_resolves fuel a).
Proof.
  induction fuel as [|f IH]; intros a k Hk Hfuel; [lia|].
  rewrite delays_loop. unfold never_resolves at 1. cbn [negb]. rewrite andb_true_r.
  destruct (a <=? retryAttempts this) eqn:Ha; [|apply Z.leb_gt in Ha; lia].
  destruct (a <? retryAttempts this) eqn:Hlt; [|apply Z.ltb_ge in Hlt; lia].
  destruct (Z.eq_dec a k) as [->|Hne].
  - apply elem_of_app. left. apply list_elem_of_singleton. reflexivity.
  - apply elem_of_app. right. apply IH; lia.
Qed.

Lemma withdrew_loop_never fuel : forall a, withdrew (loop never_resolves fuel a) = false.
Proof.
  induction fuel as [|f IH]; intros a; rewrite withdrew_loop; [reflexivity|].
  rewrite IH. unfold never_resolves. apply andb_false_r.
Qed.

(** When every call fails, the delay after attempt [k] is
    [retryDelay * k], for every attempt but the last. *)
Lemma delays_all_fail fuel : forall a,
  retryAttempts this - a + 1 <= Z.of_nat fuel ->
  delays (loop never_resolves fuel a)
  = map (fun i => retryDelay this * (a + Z.of_nat i))
        (seq 0 (Z.to_nat (retryAttempts this - a))).
Proof.
  induction fuel as [|f IH]; intros a Hfuel; rewrite delays_loop.
  - replace (Z.to_nat (retryAttempts this - a)) with 0%nat by lia. reflexivity.
  - unfold never_resolves at 1. cbn [negb]. rewrite andb_true_r.
    destruct (a <=? retryAttempts this) eqn:Ha;
      [apply Z.leb_le in Ha | apply Z.leb_gt in Ha].
    + rewrite (IH (a + 1)) by lia.
      destruct (a <? retryAttempts this) eqn:Hlt;
        [apply Z.ltb_lt in Hlt | apply Z.ltb_ge in Hlt].
      * replace (Z.to_nat (retryAttempts this - a))
          with (S (Z.to_nat (retryAttempts this - (a + 1)))) by lia.
        cbn [seq map app]. f_equal; [f_equal; lia|].
        rewrite <- seq_shift, map_map. apply map_ext. intros i. f_equal. lia.
      * replace (Z.to_nat (retryAttempts this - (a + 1))) with 0%nat by lia.
        replace (Z.to_nat (retryAttempts this - a)) with 0%nat by lia. reflexivity.
    + replace (Z.to_nat (retryAttempts this - a)) with 0%nat by lia. reflexivity.
Qed.

(** In every run the delay after attempt [k] is [retryDelay * k]. *)
Lemma delays_linear resolves (i : nat) (d : Z) :
  delays (loop resolves (Z.to_nat (retryAttempts this)) 1) !! i = Some d ->
  d = retryDelay this * (1 + Z.of_nat i).
Proof.
  intros Hd.
  destruct (delays_fixed resolves (Z.to_nat (retryAttempts this)) 1) as [rest Hrest].
  assert (Hall : delays (loop never_resolves (Z.to_nat (retryAttempts this)) 1) !! i
                 = Some d)
    by (rewrite Hrest; apply lookup_app_l_Some; exact Hd).
  rewrite delays_all_fail in Hall by lia.
  rewrite list_lookup_fmap in Hall.
  destruct (seq 0 (Z.to_nat (retryAttempts this - 1)) !! i) as [k|] eqn:Hk;
    [|discriminate Hall].
  apply lookup_seq in Hk as [-> _]. cbn in Hall. injection Hall as <-. reflexivity.
Qed.

End RetryRules.

(** C8 (fails on the code).  The relayer's backoff is linear, not
    exponential.  In every run of either loop the delay after attempt [k]
    is [retryDelay * k], and when every call fails the loop makes
    [retryAttempts] attempts and waits [retryDelay * 1], ...,
    [retryDelay * (retryAttempts - 1)] between them.  Configured for
    seven attempts that all fail, the relayer waits 5, 10, 15, 20, 25 and
    30 seconds: no base delay and cap make these a doubling schedule with
    a quarter of jitter, which the schedule 5, 10, 20, 40, 80, 160 seconds
    is. *)
Theorem C8_backoff_is_linear :
  (forall (this : RelayerService.t) (c : RelayerService.chain) (safe : string)
          (secret : Bytes.bytes) (resolves : Z -> bool),
     let failing := RelayerService.withdrawWithRetry c this safe secret
                      RelayerService.never_resolves in
     (forall (i : nat) (d : Z),
        RelayerService.delays (RelayerService.withdrawWithRetry c this safe secret resolves)
          !! i = Some d ->
        d = RelayerService.retryDelay this * (1 + Z.of_nat i))
     /\ Z.of_nat (length (RelayerService.attempts failing))
        = Z.max 0 (RelayerService.retryAttempts this)
     /\ RelayerService.delays failing
        = map (fun i => RelayerService.retryDelay this * (1 + Z.of_nat i))
              (seq 0 (Z.to_nat (RelayerService.retryAttempts this - 1))))
  /\ (let this := RelayerService.constructor (Some 7) in
      let tr := RelayerService._withdrawFromEthereumSafeWithRetry
                  this "0x5afe" Scenario.alpha_key RelayerService.never_resolves in
      RelayerService.attempts tr = [1; 2; 3; 4; 5; 6; 7]
      /\ RelayerService.delays tr = [5000; 10000; 15000; 20000; 25000; 30000]
      /\ ~ exists base_backoff max_backoff,
             RetryPolicySpec.schedule_conforms base_backoff max_backoff
               (RelayerService.delays tr))
  /\ RetryPolicySpec.schedule_conforms 5000 160000
       [5000; 10000; 20000; 40000; 80000; 160000].
Proof.
  split; [|split].
  - intros this c safe secret resolves failing. subst failing.
    rewrite !withdrawWithRetry_loop. split; [|split].
    + intros i d. apply delays_linear.
    + rewrite attempts_exhausted; [lia | lia |].
      rewrite withdrew_loop_never. reflexivity.
    + apply delays_all_fail. lia.
  - intros this tr.
    assert (Hd : RelayerService.delays tr = [5000; 10000; 15000; 20000; 25000; 30000])
      by (vm_compute; reflexivity).
    split; [vm_compute; reflexivity|]. split; [exact Hd|].
    rewrite Hd. intros (base & cap & H).
    pose proof (H 0%nat 5000 eq_refl) as H1.
    pose proof (H 3%nat 20000 eq_refl) as H4.
    pose proof (H 5%nat 30000 eq_refl) as H6.
    unfold RetryPolicySpec.conforms, RetryPolicySpec.nominal in H1, H4, H6.
    change (2 ^ Z.of_nat (1 - 1)) with 1 in H1.
    change (2 ^ Z.of_nat (4 - 1)) with 8 in H4.
    lia.
  - intros i d Hi.
    do 6 (destruct i as [|i]; [injection Hi as <-; vm_compute; intuition discriminate|]).
    discriminate Hi.
Qed.

(** The default of three attempts: two delays, which happen to double. *)
Example default_retry_trace :
  RelayerService._withdrawFromSuiSafeWithRetry (RelayerService.constructor None)
    "0x5afe" Scenario.alpha_key RelayerService.never_resolves
  = [RelayerService.LogAttempt RelayerService.sui 1 3;
     RelayerService.WithdrawFromSafe RelayerService.sui "0x5afe" Scenario.alpha_key;
     RelayerService.LogFailure RelayerService.sui 1 3;
     RelayerService.Delay 5000;
     RelayerService.LogAttempt RelayerService.sui 2 3;
     RelayerService.WithdrawFromSafe RelayerService.sui "0x5afe" Scenario.alpha_key;
     RelayerService.LogFailure RelayerService.sui 2 3;
     RelayerService.Delay 10000;
     RelayerService.LogAttempt RelayerService.sui 3 3;
     RelayerService.WithdrawFromSafe RelayerService.sui "0x5afe" Scenario.alpha_key;
     RelayerService.LogFailure RelayerService.sui 3 3;
     RelayerService.LogMaxRetries RelayerService.sui].
Proof. reflexivity. Qed.

(** Giving the loop more iterations than its bound changes nothing. *)
Lemma retry_loop_fuel (this : RelayerService.t) c safe secret resolves (extra : nat) :
  forall (fuel : nat) (a : Z),
    RelayerService.retryAttempts this - a + 1 <= Z.of_nat fuel ->
    RelayerService.retry_loop this c safe secret resolves (fuel + extra) a
    = RelayerService.retry_loop this c safe secret resolves fuel a.
Proof.
  induction fuel as [|f IH]; intros a Hfuel.
  - destruct extra as [|e]; [reflexivity|]. cbn [Nat.add RelayerService.retry_loop].
    destruct (a <=? RelayerService.retryAttempts this) eqn:Ha; [|reflexivity].
    apply Z.leb_le in Ha. cbn in Hfuel. lia.
  - cbn [Nat.add RelayerService.retry_loop].
    destruct (a <=? RelayerService.retryAttempts this); [|reflexivity].
    destruct (resolves a); [reflexivity|].
    rewrite IH by lia. reflexivity.
Qed.

(** * Further properties of the code *)

(** ** Hex strings *)

(** Every byte prints as two digits that read back as the byte; neither
    digit is the letter x. *)
Lemma hex_pair_decodes (b : Z) :
  0 <= b < 256 ->
  Bytes.unhex (Bytes.hex_digit (Z.shiftr b 4)) = Some (Z.shiftr b 4)
  /\ Bytes.unhex (Bytes.hex_digit (Z.land b 15)) = Some (Z.land b 15)
  /\ 16 * Z.shiftr b 4 + Z.land b 15 = b
  /\ Bytes.hex_digit (Z.shiftr b 4) <> "x"%char
  /\ Bytes.hex_digit (Z.land b 15) <> "x"%char.
Proof.
  intros Hb.
  assert (Hall : forallb (fun n : nat =>
            let b := Z.of_nat n in
            bool_decide (Bytes.unhex (Bytes.hex_digit (Z.shiftr b 4)) = Some (Z.shiftr b 4))
            && bool_decide (Bytes.unhex (Bytes.hex_digit (Z.land b 15)) = Some (Z.land b 15))
            && (16 * Z.shiftr b 4 + Z.land b 15 =? b)
            && negb (Ascii.eqb (Bytes.hex_digit (Z.shiftr b 4)) "x")
            && negb (Ascii.eqb (Bytes.hex_digit (Z.land b 15)) "x"))
          (seq 0 256) = true) by (vm_compute; reflexivity).
  rewrite forallb_forall in Hall.
  specialize (Hall (Z.to_nat b)).
  rewrite Z2Nat.id in Hall by lia.
  assert (Hin : In (Z.to_nat b) (seq 0 256)) by (apply in_seq; lia).
  specialize (Hall Hin). cbn zeta in Hall.
  repeat (apply andb_prop in Hall as [Hall ?]).
  repeat split.
  - eapply bool_decide_eq_true; eassumption.
  - eapply bool_decide_eq_true; eassumption.
  - apply Z.eqb_eq; assumption.
  - intros Heq. rewrite Heq in *. discriminate.
  - intros Heq. rewrite Heq in *. discriminate.
Qed.

Lemma from_hex_to_hex (h : Bytes.bytes) :
  Forall (fun b => 0 <= b < 256) h -> Bytes.from_hex (Bytes.to_hex h) = h.
Proof.
  induction 1 as [|b h Hb _ IH]; [reflexivity|].
  destruct (hex_pair_decodes b Hb) as (H1 & H2 & H3 & _).
  cbn [Bytes.to_hex Bytes.from_hex]. rewrite H1, H2, H3, IH. reflexivity.
Qed.

(** A string without the letter x is left alone by [replace('0x', '')]. *)
Lemma remove_first_without_x s :
  Forall (fun c => c <> "x"%char) (String.list_ascii_of_string s) ->
  HashUtility.remove_first "0x" s = s.
Proof.
  induction s as [|c r IH]; [reflexivity|].
  cbn [String.list_ascii_of_string]. intros Hall.
  apply Forall_cons in Hall as [Hc Hr].
  cbn [HashUtility.remove_first HashUtility.strip_prefix].
  destruct (Ascii.eqb "0" c) eqn:H0.
  - destruct r as [|d r']; [cbn; reflexivity|].
    pose proof Hr as Hr0. cbn [String.list_ascii_of_string] in Hr0.
    apply Forall_cons in Hr0 as [Hd _].
    destruct (Ascii.eqb "x" d) eqn:Hx; [apply Ascii.eqb_eq in Hx; congruence|].
    f_equal. apply IH, Hr.
  - f_equal. apply IH, Hr.
Qed.

Lemma to_hex_without_x h :
  Forall (fun b => 0 <= b < 256) h ->
  Forall (fun c => c <> "x"%char) (String.list_ascii_of_string (Bytes.to_hex h)).
Proof.
  induction 1 as [|b h Hb _ IH]; [constructor|].
  destruct (hex_pair_decodes b Hb) as (_ & _ & _ & H4 & H5).
  cbn [Bytes.to_hex String.list_ascii_of_string]. repeat (apply Forall_cons; split; [assumption|]).
  exact IH.
Qed.

(** X2.  Hex round trip of [HashUtility]: for every sequence of bytes,
    [fromHexString] reads back what [toHexString] printed, and also what
    [toEthereumHash] printed with its 0x prefix. *)
Theorem X2_hex_round_trip (hash : Bytes.bytes) :
  Forall (fun b => 0 <= b < 256) hash ->
  HashUtility.fromHexString (HashUtility.toHexString hash) = hash
  /\ HashUtility.fromHexString (HashUtility.toEthereumHash hash) = hash.
Proof.
  intros Hb. unfold HashUtility.fromHexString, HashUtility.toHexString, HashUtility.toEthereumHash.
  split.
  - rewrite remove_first_without_x by (apply to_hex_without_x, Hb). apply from_hex_to_hex, Hb.
  - cbn [HashUtility.remove_first HashUtility.strip_prefix String.append Ascii.eqb]. cbn.
    apply from_hex_to_hex, Hb.
Qed.

(** The bytes de ad be ef. *)
Lemma X2_hex_round_trip_witness :
  HashUtility.fromHexString (HashUtility.toHexString [222; 173; 190; 239])
  = [222; 173; 190; 239]
  /\ HashUtility.fromHexString (HashUtility.toEthereumHash [222; 173; 190; 239])
     = [222; 173; 190; 239].
Proof.
  apply (X2_hex_round_trip [222; 173; 190; 239]).
  repeat (apply Forall_cons; split; [lia|]). apply Forall_nil_2.
Defined.

(** ** The Sui safe: payouts, views and the deadline *)

Section SuiMore.
Import SuiSafeEscrow.

(** The secret check of [withdraw]. *)
Lemma sui_withdraw_result safe secret ctx :
  withdraw safe secret ctx
  = if is_withdrawn safe then Aborted (Code EAlreadyWithdrawn)
    else if is_refunded safe then Aborted (Code EAlreadyRefunded)
    else if (if use_sha256 safe
             then SuiHashUtility.verify_secret_sha256 secret (secret_hash safe)
             else SuiHashUtility.verify_secret secret (secret_hash safe))
         then Done (fst (coin_split (set_withdrawn safe) (locked_coin safe)),
                    locked_coin safe,
                    [SafeWithdrawn (id safe) (sender ctx) (beneficiary safe)
                                   (locked_coin safe) secret])
         else Aborted (Code EInvalidSecret).
Proof.
  unfold withdraw.
  destruct (is_withdrawn safe); [reflexivity|].
  destruct (is_refunded safe); [reflexivity|].
  destruct (if use_sha256 safe then _ else _); reflexivity.
Qed.

(** X3.  The exact rule of the Sui [withdraw]: it goes through exactly
    when the safe is open (neither withdrawn nor refunded) and the secret
    verifies against the stored hash.  It then hands out the whole locked
    coin, leaves nothing in the safe, marks it withdrawn and emits one
    [SafeWithdrawn].  The caller plays no part: with any other
    transaction context the call returns the same safe and the same coin,
    so the caller need not be the beneficiary. *)
Theorem X3_sui_withdraw_rule safe secret ctx :
  let verifies :=
    if use_sha256 safe
    then SuiHashUtility.verify_secret_sha256 secret (secret_hash safe)
    else SuiHashUtility.verify_secret secret (secret_hash safe) in
  (succeeded (withdraw safe secret ctx) = is_safe_available safe && verifies)
  /\ forall safe' coin evs,
       withdraw safe secret ctx = Done (safe', coin, evs) ->
       coin = locked_coin safe /\ locked_coin safe' = 0
       /\ is_withdrawn safe' = true
       /\ evs = [SafeWithdrawn (id safe) (sender ctx) (beneficiary safe) (locked_coin safe) secret]
       /\ forall ctx2, exists evs2, withdraw safe secret ctx2 = Done (safe', coin, evs2).
Proof.
  intros verifies. rewrite !sui_withdraw_result. fold verifies.
  unfold is_safe_available.
  destruct (is_withdrawn safe) eqn:Hw; [split; [reflexivity | discriminate]|].
  destruct (is_refunded safe) eqn:Hr; [split; [reflexivity | discriminate]|].
  split.
  - destruct verifies; reflexivity.
  - intros safe' coin evs H.
    destruct verifies eqn:Hv; [|discriminate H].
    injection H as <- <- <-. cbn. repeat split; try lia.
    intros ctx2. rewrite sui_withdraw_result, Hw, Hr. fold verifies. rewrite Hv.
    eexists. cbn. rewrite ?Hr. reflexivity.
Qed.

Lemma sui_refund_result safe cap clock ctx :
  refund safe cap clock ctx
  = if is_withdrawn safe then Aborted (Code EAlreadyWithdrawn)
    else if is_refunded safe then Aborted (Code EAlreadyRefunded)
    else if negb (bool_decide (safe_id cap = id safe)) then Aborted (Code ENotOwner)
    else if negb (start_time safe + lock_duration safe <=? U64_MAX)
         then Aborted ArithmeticError
    else if negb (start_time safe + lock_duration safe <=? clock)
         then Aborted (Code ETooEarly)
    else Done (fst (coin_split (set_refunded safe) (locked_coin safe)),
               locked_coin safe,
               [SafeRefunded (id safe) (owner safe) (locked_coin safe)]).
Proof.
  unfold refund, add_u64.
  destruct (is_withdrawn safe); [reflexivity|].
  destruct (is_refunded safe); [reflexivity|].
  destruct (bool_decide (safe_id cap = id safe)); [|reflexivity]. cbn [negb].
  destruct (start_time safe + lock_duration safe <=? U64_MAX); [|reflexivity]. cbn [negb].
  destruct (start_time safe + lock_duration safe <=? clock); reflexivity.
Qed.

(** One call either leaves the safe and the coins handed out as they
    were, or closes an open safe and hands out its whole coin. *)
Lemma sui_apply_call_paid_cases r c :
  apply_call_paid r c = r
  \/ (is_safe_available (fst r) = true
      /\ is_safe_available (fst (apply_call_paid r c)) = false
      /\ locked_coin (fst (apply_call_paid r c)) = 0
      /\ snd (apply_call_paid r c) = snd r ++ [locked_coin (fst r)]).
Proof.
  destruct r as [safe paid]. unfold is_safe_available.
  destruct c as [secret ctx | cap clock ctx]; cbn [apply_call_paid fst snd].
  - rewrite sui_withdraw_result.
    destruct (is_withdrawn safe) eqn:Hw; [left; reflexivity|].
    destruct (is_refunded safe) eqn:Hr; [left; reflexivity|].
    destruct (if use_sha256 safe then _ else _); [|left; reflexivity].
    right. cbn. repeat split. lia.
  - rewrite sui_refund_result.
    destruct (is_withdrawn safe) eqn:Hw; [left; reflexivity|].
    destruct (is_refunded safe) eqn:Hr; [left; reflexivity|].
    repeat (match goal with |- context [if negb ?c then _ else _] => destruct c end;
            cbn [negb]; [|left; reflexivity]).
    right. cbn. rewrite Hw. repeat split. lia.
Qed.

Lemma sui_run_paid_inv coin cs : forall r,
  (is_safe_available (fst r) = true /\ snd r = [] /\ locked_coin (fst r) = coin)
  \/ (is_safe_available (fst r) = false /\ snd r = [coin] /\ locked_coin (fst r) = 0) ->
  let r' := fold_left apply_call_paid cs r in
  (is_safe_available (fst r') = true /\ snd r' = [] /\ locked_coin (fst r') = coin)
  \/ (is_safe_available (fst r') = false /\ snd r' = [coin] /\ locked_coin (fst r') = 0).
Proof.
  induction cs as [|c cs IH]; intros r Hinv; [exact Hinv|].
  cbn [fold_left]. apply IH.
  destruct (sui_apply_call_paid_cases r c) as [-> | (Hopen & Hclosed & Hzero & Hpaid)];
    [exact Hinv|].
  destruct Hinv as [(_ & Hnone & Hcoin) | (Hno & _)]; [|congruence].
  right. rewrite Hpaid, Hnone, Hcoin. auto.
Qed.

Lemma sui_run_paid_fst cs : forall safe paid,
  fst (fold_left apply_call_paid cs (safe, paid)) = run safe cs.
Proof.
  induction cs as [|c cs IH]; intros safe paid; [reflexivity|].
  cbn [fold_left run]. unfold run in IH.
  destruct c as [secret ctx | cap clock ctx]; cbn [apply_call_paid apply_call fst snd].
  - destruct (withdraw safe secret ctx) as [[[s' coin] evs]|e]; apply IH.
  - destruct (refund safe cap clock ctx) as [[[s' coin] evs]|e]; apply IH.
Qed.

(** No call changes the identity, the parties, the lock or the times of
    a safe. *)
Lemma sui_run_keeps_terms cs : forall safe,
  id (run safe cs) = id safe /\ start_time (run safe cs) = start_time safe
  /\ lock_duration (run safe cs) = lock_duration safe.
Proof.
  induction cs as [|c cs IH]; intros safe; [auto|].
  change (run safe (c :: cs)) with (run (apply_call safe c) cs).
  destruct (IH (apply_call safe c)) as (-> & -> & ->).
  destruct c as [secret ctx | cap clock ctx]; cbn [apply_call].
  - rewrite sui_withdraw_result.
    repeat (match goal with |- context [if ?c then _ else _] => destruct c end; auto).
  - rewrite sui_refund_result.
    repeat (match goal with |- context [if ?c then _ else _] => destruct c end; auto).
Qed.

Lemma sui_created coin beneficiary secret_hash lock_duration use_sha clock ctx
      safe cap evs ctx' :
  create_safe_internal coin beneficiary secret_hash lock_duration use_sha clock ctx
  = Done (safe, cap, evs, ctx') ->
  0 < coin /\ is_safe_available safe = true /\ locked_coin safe = coin
  /\ start_time safe = clock /\ SuiSafeEscrow.lock_duration safe = lock_duration
  /\ safe_id cap = id safe.
Proof.
  unfold create_safe_internal.
  destruct (0 <? coin) eqn:Hpos; cbn; [|discriminate].
  intros [= <- <- _ _]. cbn. repeat split. lia.
Qed.

(** X4.  The Sui [refund] agrees with the module's views: it goes through
    exactly when [is_safe_available] holds, [get_owner_cap_safe_id] of the
    capability is the id of the safe, and [is_lock_expired] returns true
    (which requires that the deadline fits a u64). *)
Theorem X4_sui_refund_by_views safe cap clock ctx :
  succeeded (refund safe cap clock ctx) = true
  <-> is_safe_available safe = true
      /\ get_owner_cap_safe_id cap = id safe
      /\ is_lock_expired safe clock = Done true.
Proof.
  rewrite sui_refund_result. unfold is_safe_available, get_owner_cap_safe_id, is_lock_expired, add_u64.
  destruct (is_withdrawn safe); [cbn; intuition discriminate|].
  destruct (is_refunded safe); [cbn; intuition discriminate|].
  destruct (bool_decide (safe_id cap = id safe)) eqn:Hcap; cbn [negb].
  - apply bool_decide_eq_true in Hcap.
    destruct (start_time safe + lock_duration safe <=? U64_MAX); cbn [negb];
      [|cbn; intuition discriminate].
    destruct (start_time safe + lock_duration safe <=? clock); cbn; intuition discriminate.
  - apply bool_decide_eq_false in Hcap. cbn. intuition (try discriminate; try congruence).
Qed.

(** X5.  A Sui safe pays out at most once, and in full: from a safe as
    [create_safe_internal] makes it around a coin of value [coin], after
    any sequence of withdraw and refund calls either the safe is still
    open, nothing was handed out and it holds [coin], or it is closed,
    exactly one coin of value [coin] was handed out and it holds
    nothing. *)
Theorem X5_sui_paid_at_most_once
    coin beneficiary secret_hash lock_duration use_sha clock ctx safe cap evs ctx'
    (cs : list call) :
  create_safe_internal coin beneficiary secret_hash lock_duration use_sha clock ctx
  = Done (safe, cap, evs, ctx') ->
  let r := run_paid safe cs in
  (is_safe_available (fst r) = true /\ snd r = [] /\ locked_coin (fst r) = coin)
  \/ (is_safe_available (fst r) = false /\ snd r = [coin] /\ locked_coin (fst r) = 0).
Proof.
  intros Hc. apply sui_created in Hc as (_ & Hopen & Hcoin & _).
  apply sui_run_paid_inv. left. auto.
Qed.

(** X6.  [destroy_empty_safe] works on settled safes only: on a safe
    reached from its creation by any calls, it aborts with code 0 while
    the safe is open, and succeeds once the safe has been withdrawn or
    refunded. *)
Theorem X6_sui_destroy_only_when_settled
    coin beneficiary secret_hash lock_duration use_sha clock ctx safe cap evs ctx'
    (cs : list call) :
  create_safe_internal coin beneficiary secret_hash lock_duration use_sha clock ctx
  = Done (safe, cap, evs, ctx') ->
  destroy_empty_safe (run safe cs)
  = if is_safe_available (run safe cs) then Aborted (Code 0) else Done tt.
Proof.
  intros Hc. apply sui_created in Hc as (Hpos & Hopen & Hcoin & _).
  pose proof (sui_run_paid_inv coin cs (safe, []) (or_introl (conj Hopen (conj eq_refl Hcoin))))
    as Hinv.
  cbn zeta in Hinv. rewrite sui_run_paid_fst in Hinv.
  unfold destroy_empty_safe.
  destruct Hinv as [(-> & _ & ->) | (-> & _ & ->)].
  - destruct (coin =? 0) eqn:Hz; [apply Z.eqb_eq in Hz; lia | reflexivity].
  - reflexivity.
Qed.

(** X7.  A lock that overflows cannot be refunded: [create_safe_internal]
    accepts every lock duration; when the start time plus the lock
    duration exceeds the largest u64, then after any calls every [refund]
    fails, [is_lock_expired] aborts with the arithmetic error, and so does
    the [refund] of the owner's capability while the safe is open. *)
Theorem X7_sui_overflowing_lock_never_refunds
    coin beneficiary secret_hash lock_duration use_sha clock0 ctx safe cap evs ctx'
    (cs : list call) (cap' : SafeOwnerCap) (clock : Z) (ctx1 : TxContext) :
  create_safe_internal coin beneficiary secret_hash lock_duration use_sha clock0 ctx
  = Done (safe, cap, evs, ctx') ->
  U64_MAX < clock0 + lock_duration ->
  succeeded (refund (run safe cs) cap' clock ctx1) = false
  /\ is_lock_expired (run safe cs) clock = Aborted ArithmeticError
  /\ (is_safe_available (run safe cs) = true ->
      refund (run safe cs) cap clock ctx1 = Aborted ArithmeticError).
Proof.
  intros Hc Hover. apply sui_created in Hc as (_ & _ & _ & Hstart & Hlock & Hcap).
  destruct (sui_run_keeps_terms cs safe) as (Hid & Hs & Hl).
  assert (Hfit : (start_time (run safe cs) + SuiSafeEscrow.lock_duration (run safe cs)
                  <=? U64_MAX) = false)
    by (apply Z.leb_gt; rewrite Hs, Hl, Hstart, Hlock; exact Hover).
  rewrite !sui_refund_result. unfold is_lock_expired, add_u64, is_safe_available.
  rewrite Hfit. cbn [negb]. repeat split.
  - repeat (match goal with |- context [if ?c then _ else _] => destruct c end; try reflexivity).
  - rewrite Hid, Hcap, bool_decide_eq_true_2 by reflexivity. cbn [negb].
    destruct (is_withdrawn (run safe cs)); [discriminate|].
    destruct (is_refunded (run safe cs)); [discriminate|]. reflexivity.
Qed.

End SuiMore.

Lemma X5_sui_paid_at_most_once_witness :
  let r := SuiSafeEscrow.run_paid Scenario.sui_safe Scenario.sui_calls in
  (SuiSafeEscrow.is_safe_available (fst r) = true /\ snd r = []
   /\ SuiSafeEscrow.locked_coin (fst r) = 10)
  \/ (SuiSafeEscrow.is_safe_available (fst r) = false /\ snd r = [10]
      /\ SuiSafeEscrow.locked_coin (fst r) = 0).
Proof.
  exact (X5_sui_paid_at_most_once 10 2 (SuiSafeEscrow.create_secret_hash Scenario.alpha_key)
           500 false 1000 (Scenario.sui_ctx 1) Scenario.sui_safe Scenario.sui_cap _ _
           Scenario.sui_calls sui_safe_is_created).
Defined.

Lemma X6_sui_destroy_only_when_settled_witness :
  SuiSafeEscrow.destroy_empty_safe (SuiSafeEscrow.run Scenario.sui_safe Scenario.sui_calls)
  = if SuiSafeEscrow.is_safe_available (SuiSafeEscrow.run Scenario.sui_safe Scenario.sui_calls)
    then Aborted (SuiSafeEscrow.Code 0) else Done tt.
Proof.
  exact (X6_sui_destroy_only_when_settled 10 2
           (SuiSafeEscrow.create_secret_hash Scenario.alpha_key)
           500 false 1000 (Scenario.sui_ctx 1) Scenario.sui_safe Scenario.sui_cap _ _
           Scenario.sui_calls sui_safe_is_created).
Defined.

Example sui_forever_safe_is_created :
  SuiSafeEscrow.create_safe_internal 10 2 (SuiSafeEscrow.create_secret_hash Scenario.alpha_key)
    SuiSafeEscrow.U64_MAX false 1000 (Scenario.sui_ctx 1)
  = Done (Scenario.sui_forever_safe, Scenario.sui_cap,
          [SuiSafeEscrow.SafeCreated (7, 0) 1 2 10
             (SuiSafeEscrow.secret_hash Scenario.sui_forever_safe) 1000 SuiSafeEscrow.U64_MAX false],
          {| SuiSafeEscrow.sender := 1; SuiSafeEscrow.tx_hash := 7;
             SuiSafeEscrow.ids_created := 2 |})
  /\ SuiSafeEscrow.U64_MAX < 1000 + SuiSafeEscrow.U64_MAX.
Proof. split; [vm_compute; reflexivity | lia]. Qed.

Lemma X7_sui_overflowing_lock_never_refunds_witness :
  succeeded (SuiSafeEscrow.refund (SuiSafeEscrow.run Scenario.sui_forever_safe [])
               Scenario.sui_cap 18446744073709551615 (Scenario.sui_ctx 1)) = false
  /\ SuiSafeEscrow.is_lock_expired (SuiSafeEscrow.run Scenario.sui_forever_safe [])
       18446744073709551615 = Aborted SuiSafeEscrow.ArithmeticError
  /\ (SuiSafeEscrow.is_safe_available (SuiSafeEscrow.run Scenario.sui_forever_safe []) = true ->
      SuiSafeEscrow.refund (SuiSafeEscrow.run Scenario.sui_forever_safe []) Scenario.sui_cap
        18446744073709551615 (Scenario.sui_ctx 1) = Aborted SuiSafeEscrow.ArithmeticError).
Proof.
  exact (X7_sui_overflowing_lock_never_refunds 10 2
           (SuiSafeEscrow.create_secret_hash Scenario.alpha_key) SuiSafeEscrow.U64_MAX false 1000
           (Scenario.sui_ctx 1) Scenario.sui_forever_safe Scenario.sui_cap _ _ []
           Scenario.sui_cap 18446744073709551615 (Scenario.sui_ctx 1)
           (proj1 sui_forever_safe_is_created) (proj2 sui_forever_safe_is_created)).
Defined.

(** ** The Sui registry of safes *)

Section RegistryRules.
Import SuiSafeRecord.

(** What a successful registration checked and stored. *)
Lemma register_done registry coin ben h lock use clock ctx registry' safe cap evs ctx' :
  create_and_register_safe_with_hash registry coin ben h lock use clock ctx
  = Done (registry', safe, cap, evs, ctx') ->
  let i := SuiSafeEscrow.id safe in
  let metadata :=
    {| safe_id := i; owner := SuiSafeEscrow.sender ctx; beneficiary := ben;
       amount := coin; secret_hash := h; start_time := clock; lock_duration := lock;
       use_sha256 := use; is_active := true |} in
  0 < coin
  /\ hash_to_safe registry !! h = None
  /\ safe_metadata registry !! i = None
  /\ registry' = {| registry_id := registry_id registry;
                    hash_to_safe := <[h := i]> (hash_to_safe registry);
                    safe_metadata := <[i := metadata]> (safe_metadata registry);
                    safe_addresses := safe_addresses registry ++ [i];
                    registry_owner := registry_owner registry |}
  /\ SuiSafeEscrow.safe_id cap = i
  /\ SuiSafeEscrow.secret_hash safe = h /\ SuiSafeEscrow.locked_coin safe = coin
  /\ SuiSafeEscrow.use_sha256 safe = use
  /\ SuiSafeEscrow.is_safe_available safe = true.
Proof.
  unfold create_and_register_safe_with_hash, SuiSafeEscrow.create_safe_sha256,
    SuiSafeEscrow.create_safe, SuiSafeEscrow.create_safe_internal, table_add,
    SuiSafeEscrow.get_owner_cap_safe_id.
  destruct (0 <? coin) eqn:Hpos; cbn [negb]; [apply Z.ltb_lt in Hpos | discriminate].
  destruct use; cbn -[lookup insert].
  - destruct (hash_to_safe registry !! h) eqn:Hh; [discriminate|]. cbn -[lookup insert].
    destruct (safe_metadata registry !! _) eqn:Hm; [discriminate|]. cbn -[lookup insert].
    intros [= <- <- <- <- <-]. cbn. repeat split; assumption.
  - destruct (hash_to_safe registry !! h) eqn:Hh; [discriminate|]. cbn -[lookup insert].
    destruct (safe_metadata registry !! _) eqn:Hm; [discriminate|]. cbn -[lookup insert].
    intros [= <- <- <- <- <-]. cbn. repeat split; assumption.
Qed.

(** X8.  Registry round trip: after [create_and_register_safe_with_hash]
    succeeded, [get_safe_by_hash] of the hash returns the id of the new
    safe, [is_safe_registered] is true where it was false before,
    [get_safe_metadata] of that id returns active metadata made of the
    arguments of the call, the safe and the capability returned carry that
    hash, coin and id, and every other hash and every other id is answered
    as before. *)
Theorem X8_registry_round_trip
    registry coin ben h lock use clock ctx registry' safe cap evs ctx' :
  create_and_register_safe_with_hash registry coin ben h lock use clock ctx
  = Done (registry', safe, cap, evs, ctx') ->
  let i := SuiSafeEscrow.id safe in
  get_safe_by_hash registry' h = Some i
  /\ is_safe_registered registry' h = true
  /\ is_safe_registered registry h = false
  /\ get_safe_metadata registry' i
     = Some {| safe_id := i; owner := SuiSafeEscrow.sender ctx; beneficiary := ben;
               amount := coin; secret_hash := h; start_time := clock;
               lock_duration := lock; use_sha256 := use; is_active := true |}
  /\ SuiSafeEscrow.secret_hash safe = h /\ SuiSafeEscrow.locked_coin safe = coin
  /\ SuiSafeEscrow.get_owner_cap_safe_id cap = i
  /\ (forall h', h' <> h -> get_safe_by_hash registry' h' = get_safe_by_hash registry h')
  /\ (forall j, j <> i -> get_safe_metadata registry' j = get_safe_metadata registry j).
Proof.
  intros H i. apply register_done in H. cbn zeta in H. fold i in H.
  destruct H as (_ & Hh & Hm & -> & Hcap & Hsh & Hcoin & _).
  unfold get_safe_by_hash, is_safe_registered, get_safe_metadata. cbn -[lookup insert].
  rewrite !lookup_insert_eq, Hh.
  repeat split; try assumption.
  - intros h' Hne. apply lookup_insert_ne. congruence.
  - intros j Hne. apply lookup_insert_ne. congruence.
Qed.


(** What one call does to the registry: nothing, a registration, or a
    deactivation. *)
Lemma registry_apply_call_cases registry c :
  apply_call registry c = registry
  \/ (exists h i metadata,
        hash_to_safe registry !! h = None /\ safe_metadata registry !! i = None
        /\ is_active metadata = true
        /\ apply_call registry c
           = {| registry_id := registry_id registry;
                hash_to_safe := <[h := i]> (hash_to_safe registry);
                safe_metadata := <[i := metadata]> (safe_metadata registry);
                safe_addresses := safe_addresses registry ++ [i];
                registry_owner := registry_owner registry |})
  \/ (exists i metadata,
        safe_metadata registry !! i = Some metadata
        /\ apply_call registry c
           = {| registry_id := registry_id registry;
                hash_to_safe := hash_to_safe registry;
                safe_metadata := <[i := set_inactive metadata]> (safe_metadata registry);
                safe_addresses := safe_addresses registry;
                registry_owner := registry_owner registry |}).
Proof.
  destruct c as [sha coin ben secret lock clock ctx | i ctx]; cbn [apply_call].
  - unfold create_and_register_safe_sha256, create_and_register_safe.
    match goal with
    | |- context [if sha then ?a else ?b] =>
        assert (Hr : exists h use, (if sha then a else b)
                  = create_and_register_safe_with_hash registry coin ben h lock use clock ctx)
          by (destruct sha; eauto)
    end.
    destruct Hr as (h & use & ->).
    destruct (create_and_register_safe_with_hash _ _ _ _ _ _ _ _)
      as [[[[[registry' safe] cap] evs] ctx']|e] eqn:Hc; [|left; reflexivity].
    apply register_done in Hc. cbn zeta in Hc.
    destruct Hc as (_ & Hh & Hm & -> & _).
    right. left. do 3 eexists. repeat split; eassumption || reflexivity.
  - unfold deactivate_safe.
    destruct (safe_metadata registry !! i) as [metadata|] eqn:Hm; [|left; reflexivity].
    right. right. eauto.
Qed.

Lemma registry_run_hash (cs : list call) : forall registry h i,
  hash_to_safe registry !! h = Some i -> hash_to_safe (run registry cs) !! h = Some i.
Proof.
  induction cs as [|c cs IH]; intros registry h i Hh; [exact Hh|].
  change (run registry (c :: cs)) with (run (apply_call registry c) cs).
  apply IH.
  destruct (registry_apply_call_cases registry c)
    as [-> | [(h0 & i0 & md & Hnew & _ & _ & ->) | (i0 & md & _ & ->)]]; cbn -[lookup insert].
  - exact Hh.
  - rewrite lookup_insert_ne by congruence. exact Hh.
  - exact Hh.
Qed.

(** X9.  A secret hash is registered once and for all: once
    [is_safe_registered] holds of a hash, it holds after any sequence of
    registrations and deactivations, [get_safe_by_hash] keeps returning
    the same safe, and every further registration under that hash aborts.
    Deactivating the safe does not free its hash. *)
Theorem X9_registry_hash_is_taken_for_good registry h (cs : list call)
    coin ben lock use clock ctx :
  is_safe_registered registry h = true ->
  is_safe_registered (run registry cs) h = true
  /\ get_safe_by_hash (run registry cs) h = get_safe_by_hash registry h
  /\ succeeded (create_and_register_safe_with_hash (run registry cs)
                  coin ben h lock use clock ctx) = false.
Proof.
  unfold is_safe_registered, get_safe_by_hash.
  intros [i Hi]%bool_decide_eq_true.
  pose proof (registry_run_hash cs registry h i Hi) as Hrun.
  rewrite Hrun, Hi. repeat split.
  destruct (create_and_register_safe_with_hash _ _ _ _ _ _ _ _)
    as [[[[[registry' safe] cap] evs] ctx']|e] eqn:Hc; [|reflexivity].
  apply register_done in Hc. cbn zeta in Hc. destruct Hc as (_ & Hnone & _). congruence.
Qed.

(** The registry's list of addresses holds exactly the keys of its
    metadata table, each once. *)
Lemma registry_run_addresses (cs : list call) : forall registry,
  (forall i, i ∈ safe_addresses registry <-> is_Some (safe_metadata registry !! i)) ->
  NoDup (safe_addresses registry) ->
  (forall i, i ∈ safe_addresses (run registry cs)
             <-> is_Some (safe_metadata (run registry cs) !! i))
  /\ NoDup (safe_addresses (run registry cs)).
Proof.
  induction cs as [|c cs IH]; intros registry Hkeys Hnd; [auto|].
  change (run registry (c :: cs)) with (run (apply_call registry c) cs).
  destruct (registry_apply_call_cases registry c)
    as [-> | [(h0 & i0 & md & _ & Hnew & _ & ->) | (i0 & md & Hold & ->)]].
  - apply IH; assumption.
  - apply IH; cbn -[lookup insert].
    + intros i. rewrite elem_of_app, list_elem_of_singleton, lookup_insert_is_Some, Hkeys.
      destruct (decide (i0 = i)) as [->|Hne]; [intuition | intuition congruence].
    + apply NoDup_app. repeat split; [exact Hnd | | apply NoDup_singleton].
      intros i Hi ->%list_elem_of_singleton. apply Hkeys in Hi as [x Hx]. congruence.
  - apply IH; cbn -[lookup insert]; [|exact Hnd].
    intros i. rewrite lookup_insert_is_Some, Hkeys.
    destruct (decide (i0 = i)) as [->|Hne]; [|intuition congruence].
    split; [auto | intros _; eauto].
Qed.

Lemma active_safes_loop_total registry (addresses : list SuiSafeEscrow.ID) : forall active,
  (forall i, i ∈ addresses -> is_Some (safe_metadata registry !! i)) ->
  exists found,
    active_safes_loop registry addresses active = Done (active ++ found)
    /\ forall i, i ∈ found
                 <-> i ∈ addresses
                     /\ exists metadata, safe_metadata registry !! i = Some metadata
                                          /\ is_active metadata = true.
Proof.
  induction addresses as [|a rest IH]; intros active Hall; cbn [active_safes_loop].
  - exists []. rewrite app_nil_r. split; [reflexivity|].
    intros i. rewrite !elem_of_nil. tauto.
  - destruct (Hall a ltac:(left)) as [md Hmd]. rewrite Hmd.
    destruct (IH (if is_active md then active ++ [a] else active)
                 (fun i Hi => Hall i ltac:(right; exact Hi))) as (found & Hrun & Hfound).
    destruct (is_active md) eqn:Hact.
    + exists (a :: found). rewrite Hrun, <- app_assoc. split; [reflexivity|].
      intros i. rewrite !elem_of_cons, Hfound.
      split; [intros [-> | H]; [eauto | tauto] | intros [[-> | H] Hmeta]; tauto].
    + exists found. split; [exact Hrun|].
      intros i. rewrite elem_of_cons, Hfound.
      split; [tauto | intros [[-> | H] Hmeta]; [|tauto]].
      destruct Hmeta as (md' & Hmd' & Hact'). congruence.
Qed.

(** X10.  [get_all_active_safes] is total and exact on every registry
    reached from [init] by registrations and deactivations: it does not
    abort on a missing table entry, and it returns exactly the ids whose
    metadata is active. *)
Theorem X10_registry_lists_active_safes ctx (cs : list call) :
  let registry := run (fst (init ctx)) cs in
  exists active,
    get_all_active_safes registry = Done active
    /\ forall i, i ∈ active
                 <-> exists metadata, get_safe_metadata registry i = Some metadata
                                      /\ is_active metadata = true.
Proof.
  intros registry.
  destruct (registry_run_addresses cs (fst (init ctx))) as [Hkeys _].
  { intros i. cbn. rewrite elem_of_nil, lookup_empty. split; [tauto | intros [x Hx]; discriminate]. }
  { cbn. constructor. }
  fold registry in Hkeys.
  destruct (active_safes_loop_total registry (safe_addresses registry) [])
    as (found & Hrun & Hfound).
  { intros i Hi. apply Hkeys, Hi. }
  exists found. split; [exact Hrun|].
  intros i. rewrite Hfound. unfold get_safe_metadata. split.
  - tauto.
  - intros (md & Hmd & Hact). split; [apply Hkeys; eauto | eauto].
Qed.

End RegistryRules.

Example sui_safe_is_registered :
  SuiSafeRecord.create_and_register_safe_with_hash Scenario.sui_registry 10 2
    (SuiSafeEscrow.create_secret_hash Scenario.alpha_key) 500 false 1000 (Scenario.sui_ctx 1)
  = Done (Scenario.sui_registered, Scenario.sui_safe, Scenario.sui_cap,
          [SuiSafeRecord.EscrowEvent
             (SuiSafeEscrow.SafeCreated (7, 0) 1 2 10
                (SuiSafeEscrow.secret_hash Scenario.sui_safe) 1000 500 false);
           SuiSafeRecord.SafeRegistered (7, 0) 1 2 10
             (SuiSafeEscrow.secret_hash Scenario.sui_safe) (3, 0)],
          {| SuiSafeEscrow.sender := 1; SuiSafeEscrow.tx_hash := 7;
             SuiSafeEscrow.ids_created := 2 |}).
Proof. vm_compute. reflexivity. Qed.

Lemma X8_registry_round_trip_witness :
  let h := SuiSafeEscrow.create_secret_hash Scenario.alpha_key in
  let i := SuiSafeEscrow.id Scenario.sui_safe in
  SuiSafeRecord.get_safe_by_hash Scenario.sui_registered h = Some i
  /\ SuiSafeRecord.is_safe_registered Scenario.sui_registered h = true
  /\ SuiSafeRecord.is_safe_registered Scenario.sui_registry h = false
  /\ SuiSafeRecord.get_safe_metadata Scenario.sui_registered i
     = Some {| SuiSafeRecord.safe_id := i;
               SuiSafeRecord.owner := SuiSafeEscrow.sender (Scenario.sui_ctx 1);
               SuiSafeRecord.beneficiary := 2; SuiSafeRecord.amount := 10;
               SuiSafeRecord.secret_hash := h; SuiSafeRecord.start_time := 1000;
               SuiSafeRecord.lock_duration := 500; SuiSafeRecord.use_sha256 := false;
               SuiSafeRecord.is_active := true |}
  /\ SuiSafeEscrow.secret_hash Scenario.sui_safe = h
  /\ SuiSafeEscrow.locked_coin Scenario.sui_safe = 10
  /\ SuiSafeEscrow.get_owner_cap_safe_id Scenario.sui_cap = i
  /\ (forall h', h' <> h ->
      SuiSafeRecord.get_safe_by_hash Scenario.sui_registered h'
      = SuiSafeRecord.get_safe_by_hash Scenario.sui_registry h')
  /\ (forall j, j <> i ->
      SuiSafeRecord.get_safe_metadata Scenario.sui_registered j
      = SuiSafeRecord.get_safe_metadata Scenario.sui_registry j).
Proof.
  exact (X8_registry_round_trip Scenario.sui_registry 10 2
           (SuiSafeEscrow.create_secret_hash Scenario.alpha_key) 500 false 1000
           (Scenario.sui_ctx 1) Scenario.sui_registered Scenario.sui_safe Scenario.sui_cap _ _
           sui_safe_is_registered).
Defined.

Example sui_hash_is_registered :
  SuiSafeRecord.is_safe_registered Scenario.sui_registered
    (SuiSafeEscrow.create_secret_hash Scenario.alpha_key) = true.
Proof. vm_compute. reflexivity. Qed.

Lemma X9_registry_hash_is_taken_for_good_witness :
  let h := SuiSafeEscrow.create_secret_hash Scenario.alpha_key in
  let later := SuiSafeRecord.run Scenario.sui_registered
                 [SuiSafeRecord.CallDeactivate (7, 0) (Scenario.sui_ctx 5)] in
  SuiSafeRecord.is_safe_registered later h = true
  /\ SuiSafeRecord.get_safe_by_hash later h
     = SuiSafeRecord.get_safe_by_hash Scenario.sui_registered h
  /\ succeeded (SuiSafeRecord.create_and_register_safe_with_hash later
                  20 3 h 700 false 4000 (Scenario.sui_ctx 6)) = false.
Proof.
  exact (X9_registry_hash_is_taken_for_good Scenario.sui_registered
           (SuiSafeEscrow.create_secret_hash Scenario.alpha_key)
           [SuiSafeRecord.CallDeactivate (7, 0) (Scenario.sui_ctx 5)]
           20 3 700 false 4000 (Scenario.sui_ctx 6) sui_hash_is_registered).
Defined.

(** ** ETHWSUISwap: views, windows, terms and fees *)

Section EthMore.
Import ETHWSUISwap.
Context `{HH : Hashes}.

Ltac tx_simpl :=
  unfold mbind, tx_bind, mret, tx_ret, fmap, tx_fmap, require, nonpayable, safeTransfer,
         safeTransferFrom, checked_add, checked_sub, checked_mul in *.

Ltac split_ifs H :=
  repeat match type of H with
         | context [if ?c then _ else _] => destruct c eqn:?; try discriminate H
         end.

(** What a successful initiation checked and stored. *)
Lemma eth_initiateETHToWSUI_stored st env h p w t st' fx :
  initiateETHToWSUI st env h p w t = Done (st', fx) ->
  let i := swap_id (msg_sender env) p h (block_timestamp env) (msg_value env) w in
  let sw := {| secretHash := h; ethAmount := msg_value env; wsuiAmount := w;
               initiator := msg_sender env; participant := p; timelock := t;
               withdrawn := false; refunded := false; swapType := ETH_TO_WSUI |} in
  st' = store st i sw /\ timelock (swap_at st i) = 0
  /\ paused st = false /\ 0 < msg_value env /\ 0 < w /\ p <> 0 /\ p <> msg_sender env
  /\ h <> 0
  /\ block_timestamp env + MIN_TIMELOCK <= t <= block_timestamp env + MAX_TIMELOCK
  /\ fx = [SwapInitiated i h (msg_sender env) p (msg_value env) w t ETH_TO_WSUI].
Proof.
  unfold initiateETHToWSUI, whenNotPaused, timelock_is_zero. tx_simpl. intros H.
  split_ifs H.
  injection H as <- <-.
  repeat match goal with
         | H : negb _ = true |- _ => apply negb_true_iff in H
         | H : (_ =? _) = false |- _ => apply Z.eqb_neq in H
         | H : (_ =? _) = true |- _ => apply Z.eqb_eq in H
         | H : (_ <? _) = true |- _ => apply Z.ltb_lt in H
         | H : (_ <=? _) = true |- _ => apply Z.leb_le in H
         end.
  repeat split; try assumption; try lia.
Qed.

Lemma eth_initiateWSUIToETH_stored st env h p w e t st' fx :
  initiateWSUIToETH st env h p w e t = Done (st', fx) ->
  let i := swap_id (msg_sender env) p h (block_timestamp env) w e in
  let sw := {| secretHash := h; ethAmount := e; wsuiAmount := w;
               initiator := msg_sender env; participant := p; timelock := t;
               withdrawn := false; refunded := false; swapType := WSUI_TO_ETH |} in
  st' = store st i sw /\ timelock (swap_at st i) = 0
  /\ paused st = false /\ 0 < e /\ 0 < w /\ p <> 0 /\ p <> msg_sender env
  /\ h <> 0
  /\ block_timestamp env + MIN_TIMELOCK <= t <= block_timestamp env + MAX_TIMELOCK
  /\ wsui_transferFrom env (msg_sender env) w = true
  /\ fx = [PullWSUI (msg_sender env) w;
           SwapInitiated i h (msg_sender env) p e w t WSUI_TO_ETH].
Proof.
  unfold initiateWSUIToETH, whenNotPaused, timelock_is_zero. tx_simpl. intros H.
  split_ifs H.
  injection H as <- <-.
  repeat match goal with
         | H : negb _ = true |- _ => apply negb_true_iff in H
         | H : (_ =? _) = false |- _ => apply Z.eqb_neq in H
         | H : (_ =? _) = true |- _ => apply Z.eqb_eq in H
         | H : (_ <? _) = true |- _ => apply Z.ltb_lt in H
         | H : (_ <=? _) = true |- _ => apply Z.leb_le in H
         end.
  repeat split; try assumption; try lia.
Qed.


Lemma isWithdrawable_true_iff st env swapId secret :
  isWithdrawable st env swapId secret = true
  <-> 0 < timelock (swap_at st swapId) /\ withdrawn (swap_at st swapId) = false
      /\ refunded (swap_at st swapId) = false
      /\ block_timestamp env <= timelock (swap_at st swapId)
      /\ sha256_bytes32 secret = secretHash (swap_at st swapId).
Proof.
  unfold isWithdrawable. cbn zeta.
  rewrite !andb_true_iff, !negb_true_iff, Z.ltb_lt, Z.leb_le, Z.eqb_eq. tauto.
Qed.

Lemma isRefundable_true_iff st env swapId :
  isRefundable st env swapId = true
  <-> 0 < timelock (swap_at st swapId) /\ withdrawn (swap_at st swapId) = false
      /\ refunded (swap_at st swapId) = false
      /\ timelock (swap_at st swapId) < block_timestamp env.
Proof.
  unfold isRefundable. cbn zeta.
  rewrite !andb_true_iff, !negb_true_iff, !Z.ltb_lt. tauto.
Qed.

(** [withdraw] goes through exactly when the call carries no value, the
    view [isWithdrawable] holds, the caller is the participant, the fee
    computation stays in range and the transfers go through. *)
Lemma eth_withdraw_succeeds_iff st env swapId secret :
  let sw := swap_at st swapId in
  let fee := locked_amount sw * swapFee st / 10000 in
  succeeded (withdraw st env swapId secret) = true
  <-> msg_value env = 0
      /\ isWithdrawable st env swapId secret = true
      /\ msg_sender env = participant sw
      /\ locked_amount sw * swapFee st <= UINT256_MAX
      /\ fee <= locked_amount sw
      /\ transfer_ok env sw (participant sw) (locked_amount sw - fee) = true
      /\ (0 < fee -> transfer_ok env sw (feeRecipient st) fee = true).
Proof.
  intros sw fee. subst fee. rewrite isWithdrawable_true_iff. fold sw.
  unfold withdraw, validSwap, withdrawable, fee_split, locked_amount, transfer_ok.
  fold sw. tx_simpl.
  destruct (msg_value env =? 0) eqn:Hv; cbn [succeeded];
    [apply Z.eqb_eq in Hv | apply Z.eqb_neq in Hv; split; [discriminate | tauto]].
  destruct (0 <? timelock sw) eqn:Ht; cbn [succeeded];
    [apply Z.ltb_lt in Ht | apply Z.ltb_ge in Ht; split; [discriminate | lia]].
  destruct (withdrawn sw) eqn:Hw; cbn [negb succeeded]; [intuition discriminate|].
  destruct (refunded sw) eqn:Hr; cbn [negb succeeded]; [intuition discriminate|].
  destruct (block_timestamp env <=? timelock sw) eqn:Hd; cbn [succeeded];
    [apply Z.leb_le in Hd | apply Z.leb_gt in Hd; split; [discriminate | lia]].
  destruct (sha256_bytes32 secret =? secretHash sw) eqn:Hs; cbn [succeeded];
    [apply Z.eqb_eq in Hs | apply Z.eqb_neq in Hs; split; [discriminate | tauto]].
  destruct (msg_sender env =? participant sw) eqn:Hp; cbn [succeeded];
    [apply Z.eqb_eq in Hp | apply Z.eqb_neq in Hp; split; [discriminate | tauto]].
  cbn [swapType mark_withdrawn ethAmount wsuiAmount participant swapFee store feeRecipient].
  destruct (swapType sw) eqn:Hty.
  - destruct (ethAmount sw * swapFee st <=? UINT256_MAX) eqn:Hm; cbn [succeeded];
      [apply Z.leb_le in Hm | apply Z.leb_gt in Hm; split; [discriminate | lia]].
    destruct (ethAmount sw * swapFee st / 10000 <=? ethAmount sw) eqn:Hf; cbn [succeeded];
      [apply Z.leb_le in Hf | apply Z.leb_gt in Hf; split; [discriminate | lia]].
    destruct (eth_call env (participant sw) _) eqn:Hc; cbn [succeeded];
      [|intuition discriminate].
    destruct (0 <? ethAmount sw * swapFee st / 10000) eqn:Hpos;
      [apply Z.ltb_lt in Hpos | apply Z.ltb_ge in Hpos].
    + destruct (eth_call env (feeRecipient st) _) eqn:Hc2; cbn [succeeded].
      * intuition.
      * split; [discriminate|]. intros (_ & _ & _ & _ & _ & _ & Hfee).
        specialize (Hfee Hpos). discriminate.
    + cbn [succeeded]. intuition lia.
  - destruct (wsuiAmount sw * swapFee st <=? UINT256_MAX) eqn:Hm; cbn [succeeded];
      [apply Z.leb_le in Hm | apply Z.leb_gt in Hm; split; [discriminate | lia]].
    destruct (wsuiAmount sw * swapFee st / 10000 <=? wsuiAmount sw) eqn:Hf; cbn [succeeded];
      [apply Z.leb_le in Hf | apply Z.leb_gt in Hf; split; [discriminate | lia]].
    destruct (wsui_transfer env (participant sw) _) eqn:Hc; cbn [succeeded];
      [|intuition discriminate].
    destruct (0 <? wsuiAmount sw * swapFee st / 10000) eqn:Hpos;
      [apply Z.ltb_lt in Hpos | apply Z.ltb_ge in Hpos].
    + destruct (wsui_transfer env (feeRecipient st) _) eqn:Hc2; cbn [succeeded].
      * intuition.
      * split; [discriminate|]. intros (_ & _ & _ & _ & _ & _ & Hfee).
        specialize (Hfee Hpos). discriminate.
    + cbn [succeeded]. intuition lia.
Qed.


(** X11.  On ETHWSUISwap the withdraw and refund windows of a swap never
    overlap: at one block timestamp [isWithdrawable] and [isRefundable]
    are not both true, and a [withdraw] and a [refund] of the same swap
    cannot both succeed. *)
Theorem X11_eth_windows_disjoint st env env' swapId secret :
  block_timestamp env = block_timestamp env' ->
  isWithdrawable st env swapId secret && isRefundable st env' swapId = false
  /\ succeeded (withdraw st env swapId secret) && succeeded (refund st env' swapId) = false.
Proof.
  intros Hnow. split.
  - apply not_true_is_false. intros [Hw Hr]%andb_true_iff.
    apply isWithdrawable_true_iff in Hw. apply isRefundable_true_iff in Hr. lia.
  - apply not_true_is_false. intros [Hw Hr]%andb_true_iff.
    apply eth_withdraw_succeeds_iff in Hw as (_ & Hw & _).
    apply eth_refund_succeeds_iff in Hr.
    apply isWithdrawable_true_iff in Hw. cbn zeta in Hr. lia.
Qed.

Lemma eth_refund_needs_isRefundable st env swapId :
  succeeded (refund st env swapId) = true -> isRefundable st env swapId = true.
Proof.
  intros H. apply eth_refund_succeeds_iff in H. cbn zeta in H.
  apply isRefundable_true_iff. tauto.
Qed.

(** X12.  The views of ETHWSUISwap predict its calls.  [withdraw] succeeds
    exactly when the call carries no value, [isWithdrawable] is true, the
    caller is the participant, the fee computation stays within uint256
    and the transfers to the participant and, for a positive fee, to the
    fee recipient go through.  [refund] succeeds exactly when the call
    carries no value, [isRefundable] is true, the caller is the initiator
    and the transfer back goes through.  A call of either that carries
    value reverts whatever the views say. *)
Theorem X12_eth_views_predict st env swapId secret :
  let sw := swap_at st swapId in
  let fee := locked_amount sw * swapFee st / 10000 in
  (succeeded (withdraw st env swapId secret) = true
   <-> msg_value env = 0
       /\ isWithdrawable st env swapId secret = true
       /\ msg_sender env = participant sw
       /\ locked_amount sw * swapFee st <= UINT256_MAX
       /\ fee <= locked_amount sw
       /\ transfer_ok env sw (participant sw) (locked_amount sw - fee) = true
       /\ (0 < fee -> transfer_ok env sw (feeRecipient st) fee = true))
  /\ (succeeded (refund st env swapId) = true
      <-> msg_value env = 0
          /\ isRefundable st env swapId = true
          /\ msg_sender env = initiator sw
          /\ transfer_ok env sw (initiator sw) (locked_amount sw) = true)
  /\ (msg_value env <> 0 ->
      withdraw st env swapId secret = Aborted NonPayable
      /\ refund st env swapId = Aborted NonPayable).
Proof.
  intros sw fee. split; [|split].
  - apply eth_withdraw_succeeds_iff.
  - rewrite isRefundable_true_iff. fold sw.
    pose proof (eth_refund_succeeds_iff st env swapId) as H. cbn zeta in H. fold sw in H.
    rewrite H. tauto.
  - intros Hv. apply Z.eqb_neq in Hv. unfold withdraw, refund, nonpayable.
    rewrite Hv. split; reflexivity.
Qed.

(** One successful call leaves the terms of every existing swap alone. *)
Lemma eth_dispatch_terms st env c st' i :
  dispatch st env c = Done st' -> 0 < timelock (swap_at st i) ->
  terms st' i = terms st i.
Proof.
  intros Hc Hex. unfold terms, getSwap.
  assert (Hstore : forall j sw,
             (j = i -> (secretHash sw, ethAmount sw, wsuiAmount sw, initiator sw,
                        participant sw, timelock sw, swapType sw)
                       = (secretHash (swap_at st i), ethAmount (swap_at st i),
                          wsuiAmount (swap_at st i), initiator (swap_at st i),
                          participant (swap_at st i), timelock (swap_at st i),
                          swapType (swap_at st i))) ->
             (let sw' := swap_at (store st j sw) i in
              (secretHash sw', ethAmount sw', wsuiAmount sw', initiator sw',
               participant sw', timelock sw', swapType sw'))
             = (secretHash (swap_at st i), ethAmount (swap_at st i),
                wsuiAmount (swap_at st i), initiator (swap_at st i),
                participant (swap_at st i), timelock (swap_at st i),
                swapType (swap_at st i))).
  { intros j sw Hsame. cbn zeta. rewrite swap_at_store.
    destruct (bool_decide (j = i)) eqn:Hji; [|reflexivity].
    apply bool_decide_eq_true in Hji. exact (Hsame Hji). }
  destruct c.
  - cbn [dispatch] in Hc. apply fmap_fst_done in Hc as [fx Hc].
    apply eth_initiateETHToWSUI_stored in Hc as (-> & Hz & _).
    apply Hstore. intros <-. lia.
  - cbn [dispatch] in Hc. apply fmap_fst_done in Hc as [fx Hc].
    apply eth_initiateWSUIToETH_stored in Hc as (-> & Hz & _).
    apply Hstore. intros <-. lia.
  - cbn [dispatch] in Hc. apply fmap_fst_done in Hc as [fx Hc].
    apply eth_withdraw_done in Hc. cbn zeta in Hc.
    destruct Hc as (_ & _ & _ & _ & _ & _ & -> & _).
    apply Hstore. intros <-. reflexivity.
  - cbn [dispatch] in Hc. apply fmap_fst_done in Hc as [fx Hc].
    apply eth_refund_done in Hc. cbn zeta in Hc.
    destruct Hc as (_ & _ & _ & -> & _).
    apply Hstore. intros <-. reflexivity.
  - apply eth_admin_done in Hc; [|exact I]. unfold swap_at. rewrite Hc. reflexivity.
  - apply eth_admin_done in Hc; [|exact I]. unfold swap_at. rewrite Hc. reflexivity.
  - apply eth_admin_done in Hc; [|exact I]. unfold swap_at. rewrite Hc. reflexivity.
  - apply eth_admin_done in Hc; [|exact I]. unfold swap_at. rewrite Hc. reflexivity.
Qed.

Lemma terms_timelock st st' i :
  terms st' i = terms st i -> timelock (swap_at st' i) = timelock (swap_at st i).
Proof. unfold terms, getSwap. intros [= _ _ _ _ _ H _]. exact H. Qed.

(** X13.  The terms of an existing swap never change: for a swap whose
    timelock is set, whatever calls follow, the secret hash, both amounts,
    the initiator, the participant, the timelock and the type that
    [getSwap] returns stay the same; only the two flags can change.  In
    particular no initiation overwrites an existing swap. *)
Theorem X13_eth_terms_never_change (cs : list (Env * call)) : forall st i,
  0 < timelock (swap_at st i) ->
  terms (run st cs) i = terms st i.
Proof.
  induction cs as [|ec cs IH]; intros st i Hex; [reflexivity|].
  change (run st (ec :: cs)) with (run (apply_call st ec) cs).
  assert (Hstep : terms (apply_call st ec) i = terms st i).
  { unfold apply_call. destruct (dispatch st ec.1 ec.2) as [st'|e] eqn:Hc; [|reflexivity].
    exact (eth_dispatch_terms _ _ _ _ _ Hc Hex). }
  rewrite IH; [exact Hstep|].
  rewrite (terms_timelock _ _ _ Hstep). exact Hex.
Qed.


Lemma locked_amount_mark sw :
  locked_amount (mark_withdrawn sw) = locked_amount sw
  /\ locked_amount (mark_refunded sw) = locked_amount sw.
Proof. split; reflexivity. Qed.

(** [fees_ok] is kept by every call. *)
Lemma eth_dispatch_fees st env c st' :
  fees_ok st -> dispatch st env c = Done st' -> fees_ok st'.
Proof.
  intros (Hfee & Hrec & Hamt) Hc.
  assert (Hstore : forall j sw, 0 <= locked_amount sw -> fees_ok (store st j sw)).
  { intros j sw Hsw. repeat split; [exact Hfee | exact Hrec |].
    intros i. rewrite swap_at_store. destruct (bool_decide (j = i)); [exact Hsw | apply Hamt]. }
  destruct c.
  - cbn [dispatch] in Hc. apply fmap_fst_done in Hc as [fx Hc].
    apply eth_initiateETHToWSUI_stored in Hc as (-> & _ & _ & Hv & _).
    apply Hstore. cbn. lia.
  - cbn [dispatch] in Hc. apply fmap_fst_done in Hc as [fx Hc].
    apply eth_initiateWSUIToETH_stored in Hc as (-> & _ & _ & _ & Hw & _).
    apply Hstore. cbn. lia.
  - cbn [dispatch] in Hc. apply fmap_fst_done in Hc as [fx Hc].
    apply eth_withdraw_done in Hc. cbn zeta in Hc.
    destruct Hc as (_ & _ & _ & _ & _ & _ & -> & _).
    apply Hstore. rewrite (proj1 (locked_amount_mark _)). apply Hamt.
  - cbn [dispatch] in Hc. apply fmap_fst_done in Hc as [fx Hc].
    apply eth_refund_done in Hc. cbn zeta in Hc.
    destruct Hc as (_ & _ & _ & -> & _).
    apply Hstore. rewrite (proj2 (locked_amount_mark _)). apply Hamt.
  - cbn [dispatch] in Hc. unfold setSwapFee, onlyOwner in Hc. tx_simpl. split_ifs Hc.
    injection Hc as <-. repeat split; cbn; [lia | exact Hrec | exact Hamt].
  - cbn [dispatch] in Hc. unfold setFeeRecipient, onlyOwner in Hc. tx_simpl. split_ifs Hc.
    injection Hc as <-. repeat split; cbn; [exact Hfee | | exact Hamt].
    match goal with H : negb (_ =? 0) = true |- _ =>
      apply negb_true_iff, Z.eqb_neq in H; exact H end.
  - cbn [dispatch] in Hc. unfold pause, onlyOwner in Hc. tx_simpl. split_ifs Hc.
    injection Hc as <-. repeat split; cbn; [exact Hfee | exact Hrec | exact Hamt].
  - cbn [dispatch] in Hc. unfold unpause, onlyOwner in Hc. tx_simpl. split_ifs Hc.
    injection Hc as <-. repeat split; cbn; [exact Hfee | exact Hrec | exact Hamt].
Qed.

Lemma eth_run_fees cs : forall st, fees_ok st -> fees_ok (run st cs).
Proof.
  induction cs as [|ec cs IH]; intros st Hok; [exact Hok|].
  change (run st (ec :: cs)) with (run (apply_call st ec) cs).
  apply IH. unfold apply_call.
  destruct (dispatch st ec.1 ec.2) as [st'|e] eqn:Hc; [|exact Hok].
  exact (eth_dispatch_fees _ _ _ _ Hok Hc).
Qed.

Lemma eth_constructor_fees deployer token recipient st :
  constructor deployer token recipient = Done st -> fees_ok st.
Proof.
  unfold constructor. tx_simpl. intros H. split_ifs H. injection H as <-.
  repeat split; cbn.
  - unfold MAX_FEE. lia.
  - match goal with H : negb (recipient =? 0) = true |- _ =>
      apply negb_true_iff, Z.eqb_neq in H; exact H end.
  - intros i. unfold swap_at. cbn. rewrite lookup_empty. cbn. lia.
Qed.

(** X14.  The fee is capped in every state reached from the constructor:
    the fee rate is at most [MAX_FEE] and there is a fee recipient; a
    successful [withdraw] first pays the participant the locked amount
    minus the fee, the fee is at most a tenth of the locked amount, and
    the participant receives at least nine tenths of it. *)
Theorem X14_eth_fee_is_capped deployer token recipient st0
    (cs : list (Env * call)) env swapId secret st' fx :
  constructor deployer token recipient = Done st0 ->
  withdraw (run st0 cs) env swapId secret = Done (st', fx) ->
  let st := run st0 cs in
  let sw := swap_at st swapId in
  let fee := locked_amount sw * swapFee st / 10000 in
  swapFee st <= MAX_FEE /\ feeRecipient st <> 0
  /\ hd_error fx = Some (pay sw (participant sw) (locked_amount sw - fee))
  /\ 10 * fee <= locked_amount sw
  /\ 9 * locked_amount sw <= 10 * (locked_amount sw - fee).
Proof.
  intros Hc Hw st sw fee.
  pose proof (eth_run_fees cs st0 (eth_constructor_fees _ _ _ _ Hc)) as (Hfee & Hrec & Hamt).
  fold st in Hfee, Hrec, Hamt. specialize (Hamt swapId). fold sw in Hamt.
  apply eth_withdraw_done in Hw. cbn zeta in Hw. fold st sw fee in Hw.
  destruct Hw as (_ & _ & _ & _ & _ & _ & _ & _ & _ & ->).
  assert (Hten : 10 * fee <= locked_amount sw).
  { subst fee. unfold MAX_FEE in Hfee.
    assert (H1 : locked_amount sw * swapFee st / 10000 <= locked_amount sw * 1000 / 10000)
      by (apply Z.div_le_mono; nia).
    assert (H2 : locked_amount sw * 1000 / 10000 = locked_amount sw / 10)
      by (change 10000 with (10 * 1000); apply Z.div_mul_cancel_r; lia).
    pose proof (Z.mul_div_le (locked_amount sw) 10 ltac:(lia)). lia. }
  repeat split; auto; lia.
Qed.

(** [withdraw] and [refund] read the swaps, the fee and the fee recipient
    only. *)
Lemma eth_withdraw_frame st1 st2 env i s :
  swaps st1 = swaps st2 -> swapFee st1 = swapFee st2 -> feeRecipient st1 = feeRecipient st2 ->
  snd <$> withdraw st1 env i s = snd <$> withdraw st2 env i s.
Proof.
  intros Hs Hf Hr.
  unfold withdraw, validSwap, withdrawable, fee_split.
  assert (Hsw : swap_at st1 i = swap_at st2 i) by (unfold swap_at; rewrite Hs; reflexivity).
  rewrite Hsw. tx_simpl.
  cbn [swapType mark_withdrawn ethAmount wsuiAmount participant swapFee store feeRecipient].
  rewrite Hf, Hr.
  repeat match goal with
         | |- context [if ?c then _ else _] => destruct c
         | |- context [match swapType ?x with _ => _ end] => destruct (swapType x)
         end; reflexivity.
Qed.

Lemma eth_refund_frame st1 st2 env i :
  swaps st1 = swaps st2 ->
  snd <$> refund st1 env i = snd <$> refund st2 env i.
Proof.
  intros Hs.
  unfold refund, validSwap, refundable.
  assert (Hsw : swap_at st1 i = swap_at st2 i) by (unfold swap_at; rewrite Hs; reflexivity).
  rewrite Hsw. tx_simpl.
  cbn [swapType mark_refunded ethAmount wsuiAmount initiator].
  repeat match goal with
         | |- context [if ?c then _ else _] => destruct c
         | |- context [match swapType ?x with _ => _ end] => destruct (swapType x)
         end; reflexivity.
Qed.

Lemma eth_pause_done st env st' :
  pause st env = Done st' ->
  swaps st' = swaps st /\ swapFee st' = swapFee st /\ feeRecipient st' = feeRecipient st
  /\ paused st' = true.
Proof.
  unfold pause, onlyOwner. tx_simpl. intros H. split_ifs H. injection H as <-.
  repeat split.
Qed.

(** X15.  Pausing blocks initiations only: after a successful [pause]
    both initiations revert with "Pausable: paused" ([initiateWSUIToETH],
    which is not payable, with no reason when the call carries value),
    while every [withdraw] and every [refund] does what it did before the
    pause: the same effects, or the same revert. *)
Theorem X15_eth_pause_blocks_initiation_only st env st' :
  pause st env = Done st' ->
  (forall env' h p w t,
     initiateETHToWSUI st' env' h p w t = Aborted (Require "Pausable: paused"))
  /\ (forall env' h p w e t,
       initiateWSUIToETH st' env' h p w e t
       = Aborted (if msg_value env' =? 0 then Require "Pausable: paused" else NonPayable))
  /\ (forall env' i s, snd <$> withdraw st' env' i s = snd <$> withdraw st env' i s)
  /\ (forall env' i, snd <$> refund st' env' i = snd <$> refund st env' i).
Proof.
  intros (Hs & Hf & Hr & Hp)%eth_pause_done.
  repeat split; intros.
  - unfold initiateETHToWSUI, whenNotPaused. rewrite Hp. reflexivity.
  - unfold initiateWSUIToETH, whenNotPaused, nonpayable. rewrite Hp.
    destruct (msg_value env' =? 0); reflexivity.
  - apply eth_withdraw_frame; assumption.
  - apply eth_refund_frame; assumption.
Qed.


Lemma eth_settled_is_closed st env i s :
  settled (swap_at st i) = true ->
  succeeded (withdraw st env i s) = false /\ succeeded (refund st env i) = false
  /\ isWithdrawable st env i s = false /\ isRefundable st env i = false.
Proof.
  unfold settled. intros Hset.
  assert (Hw : isWithdrawable st env i s = false).
  { apply not_true_is_false. intros H%isWithdrawable_true_iff.
    destruct H as (_ & H1 & H2 & _). rewrite H1, H2 in Hset. discriminate. }
  assert (Hr : isRefundable st env i = false).
  { apply not_true_is_false. intros H%isRefundable_true_iff.
    destruct H as (_ & H1 & H2 & _). rewrite H1, H2 in Hset. discriminate. }
  repeat split; try assumption.
  - apply not_true_is_false. intros H%eth_withdraw_succeeds_iff.
    destruct H as (_ & H & _). congruence.
  - apply not_true_is_false. intros H%eth_refund_needs_isRefundable.
    congruence.
Qed.


(** X16.  A settled swap stays closed: in a state reached from the
    constructor, once a [withdraw] or a [refund] of a swap has succeeded,
    then after any further calls every [withdraw] and every [refund] of
    that swap reverts and both views are false. *)
Theorem X16_eth_settled_swap_stays_closed deployer token recipient st0
    (cs0 cs : list (Env * call)) env c st' i secret env' secret' :
  constructor deployer token recipient = Done st0 ->
  c = CallWithdraw i secret \/ c = CallRefund i ->
  dispatch (run st0 cs0) env c = Done st' ->
  succeeded (withdraw (run st' cs) env' i secret') = false
  /\ succeeded (refund (run st' cs) env' i) = false
  /\ isWithdrawable (run st' cs) env' i secret' = false
  /\ isRefundable (run st' cs) env' i = false.
Proof.
  intros Hc Hcall Hd.
  pose proof (eth_run_flags cs0 st0 (eth_constructor_flags _ _ _ _ Hc)) as [Hok _].
  destruct (eth_dispatch_flags _ _ _ _ Hok Hd) as [Hok' _].
  assert (Hset : settled (swap_at st' i) = true).
  { unfold settled. destruct Hcall as [-> | ->]; cbn [dispatch] in Hd;
      apply fmap_fst_done in Hd as [fx Hd].
    - apply eth_withdraw_done in Hd. cbn zeta in Hd.
      destruct Hd as (_ & _ & _ & _ & _ & _ & -> & _).
      rewrite swap_at_store, bool_decide_eq_true_2 by reflexivity. reflexivity.
    - apply eth_refund_done in Hd. cbn zeta in Hd.
      destruct Hd as (_ & _ & _ & -> & _).
      rewrite swap_at_store, bool_decide_eq_true_2 by reflexivity. cbn.
      apply orb_true_r. }
  apply eth_settled_is_closed.
  destruct (eth_run_flags cs st' Hok') as [_ Hmono]. destruct (Hmono i) as [Hw Hr].
  unfold settled in *. apply orb_true_iff in Hset as [H | H].
  - rewrite (Hw H). reflexivity.
  - rewrite (Hr H). apply orb_true_r.
Qed.

(** X17.  Lock round trip on ETHWSUISwap: after a successful initiation,
    in either direction and at a block time that is not negative,
    [getSwap] under the id computed from the call returns the terms of the
    call with both flags clear and every other id is answered as before;
    the new swap is withdrawable exactly while the block time is at most
    its timelock, with a secret that hashes to its secret hash, and
    refundable exactly after the timelock. *)
Theorem X17_eth_lock_round_trip st env h p w e t st' fx :
  0 <= block_timestamp env ->
  (initiateETHToWSUI st env h p w t = Done (st', fx) ->
   let i := swap_id (msg_sender env) p h (block_timestamp env) (msg_value env) w in
   getSwap st' i = (h, msg_value env, w, msg_sender env, p, t, false, false, ETH_TO_WSUI)
   /\ (forall j, j <> i -> getSwap st' j = getSwap st j)
   /\ (forall env' s, isWithdrawable st' env' i s
                      = (block_timestamp env' <=? t) && (sha256_bytes32 s =? h))
   /\ (forall env', isRefundable st' env' i = (t <? block_timestamp env')))
  /\ (initiateWSUIToETH st env h p w e t = Done (st', fx) ->
      let i := swap_id (msg_sender env) p h (block_timestamp env) w e in
      getSwap st' i = (h, e, w, msg_sender env, p, t, false, false, WSUI_TO_ETH)
      /\ (forall j, j <> i -> getSwap st' j = getSwap st j)
      /\ (forall env' s, isWithdrawable st' env' i s
                         = (block_timestamp env' <=? t) && (sha256_bytes32 s =? h))
      /\ (forall env', isRefundable st' env' i = (t <? block_timestamp env'))).
Proof.
  intros Hnow. split; intros Hi i.
  - apply eth_initiateETHToWSUI_stored in Hi. cbn zeta in Hi. fold i in Hi.
    destruct Hi as (-> & _ & _ & _ & _ & _ & _ & _ & Ht & _).
    unfold MIN_TIMELOCK in Ht.
    assert (Hpos : (0 <? t) = true) by (apply Z.ltb_lt; lia).
    unfold getSwap, isWithdrawable, isRefundable. repeat split.
    + rewrite swap_at_store, bool_decide_eq_true_2 by reflexivity. reflexivity.
    + intros j Hj. rewrite swap_at_store, bool_decide_eq_false_2 by congruence. reflexivity.
    + intros env' s. rewrite swap_at_store, bool_decide_eq_true_2 by reflexivity.
      cbn. rewrite Hpos. reflexivity.
    + intros env'. rewrite swap_at_store, bool_decide_eq_true_2 by reflexivity.
      cbn. rewrite Hpos. reflexivity.
  - apply eth_initiateWSUIToETH_stored in Hi. cbn zeta in Hi. fold i in Hi.
    destruct Hi as (-> & _ & _ & _ & _ & _ & _ & _ & Ht & _).
    unfold MIN_TIMELOCK in Ht.
    assert (Hpos : (0 <? t) = true) by (apply Z.ltb_lt; lia).
    unfold getSwap, isWithdrawable, isRefundable. repeat split.
    + rewrite swap_at_store, bool_decide_eq_true_2 by reflexivity. reflexivity.
    + intros j Hj. rewrite swap_at_store, bool_decide_eq_false_2 by congruence. reflexivity.
    + intros env' s. rewrite swap_at_store, bool_decide_eq_true_2 by reflexivity.
      cbn. rewrite Hpos. reflexivity.
    + intros env'. rewrite swap_at_store, bool_decide_eq_true_2 by reflexivity.
      cbn. rewrite Hpos. reflexivity.
Qed.

End EthMore.

Lemma X11_eth_windows_disjoint_witness :
  ETHWSUISwap.isWithdrawable (H := ETHWSUISwap.evm) (Scenario.eth_locked 1)
    (Scenario.eth_env 2 0 10000) (Scenario.eth_swap_id 1) Scenario.eth_secret
  && ETHWSUISwap.isRefundable (Scenario.eth_locked 1) (Scenario.eth_env 1 0 10000)
       (Scenario.eth_swap_id 1) = false
  /\ succeeded (ETHWSUISwap.withdraw (H := ETHWSUISwap.evm) (Scenario.eth_locked 1)
                  (Scenario.eth_env 2 0 10000) (Scenario.eth_swap_id 1) Scenario.eth_secret)
     && succeeded (ETHWSUISwap.refund (Scenario.eth_locked 1) (Scenario.eth_env 1 0 10000)
                     (Scenario.eth_swap_id 1)) = false.
Proof.
  exact (@X11_eth_windows_disjoint ETHWSUISwap.evm (Scenario.eth_locked 1)
           (Scenario.eth_env 2 0 10000) (Scenario.eth_env 1 0 10000)
           (Scenario.eth_swap_id 1) Scenario.eth_secret eq_refl).
Defined.

Example eth_one_wei_swap_exists :
  0 < ETHWSUISwap.timelock
        (ETHWSUISwap.swap_at
           (ETHWSUISwap.run (H := ETHWSUISwap.evm) Scenario.eth_deployed (Scenario.eth_lock 1))
           (Scenario.eth_swap_id 1)).
Proof. vm_compute. reflexivity. Qed.

Lemma X13_eth_terms_never_change_witness :
  ETHWSUISwap.terms
    (ETHWSUISwap.run (H := ETHWSUISwap.evm)
       (ETHWSUISwap.run (H := ETHWSUISwap.evm) Scenario.eth_deployed (Scenario.eth_lock 1))
       [(Scenario.eth_env 2 0 2000, Scenario.eth_withdraw_call 1);
        (Scenario.eth_env 1 1 1000,
         ETHWSUISwap.CallInitiateETHToWSUI Scenario.eth_secret_hash 2 5 10000)])
    (Scenario.eth_swap_id 1)
  = ETHWSUISwap.terms
      (ETHWSUISwap.run (H := ETHWSUISwap.evm) Scenario.eth_deployed (Scenario.eth_lock 1))
      (Scenario.eth_swap_id 1).
Proof.
  exact (@X13_eth_terms_never_change ETHWSUISwap.evm
           [(Scenario.eth_env 2 0 2000, Scenario.eth_withdraw_call 1);
            (Scenario.eth_env 1 1 1000,
             ETHWSUISwap.CallInitiateETHToWSUI Scenario.eth_secret_hash 2 5 10000)]
           (ETHWSUISwap.run (H := ETHWSUISwap.evm) Scenario.eth_deployed (Scenario.eth_lock 1))
           (Scenario.eth_swap_id 1) eth_one_wei_swap_exists).
Defined.

Example eth_one_ether_withdrawal :
  ETHWSUISwap.withdraw (H := ETHWSUISwap.evm)
    (ETHWSUISwap.run (H := ETHWSUISwap.evm) Scenario.eth_deployed
                     (Scenario.eth_lock Scenario.ether))
    (Scenario.eth_env 2 0 2000) (Scenario.eth_swap_id Scenario.ether) Scenario.eth_secret
  = Done (ETHWSUISwap.run (H := ETHWSUISwap.evm) Scenario.eth_deployed
            (Scenario.eth_lock Scenario.ether
             ++ [(Scenario.eth_env 2 0 2000, Scenario.eth_withdraw_call Scenario.ether)]),
          [ETHWSUISwap.SendETH 2 997000000000000000;
           ETHWSUISwap.SendETH 300 3000000000000000;
           ETHWSUISwap.SwapWithdrawn (Scenario.eth_swap_id Scenario.ether) 2
                                     Scenario.eth_secret]).
Proof. vm_compute. reflexivity. Qed.

Lemma X14_eth_fee_is_capped_witness :
  let st := ETHWSUISwap.run (H := ETHWSUISwap.evm) Scenario.eth_deployed
              (Scenario.eth_lock Scenario.ether) in
  let sw := ETHWSUISwap.swap_at st (Scenario.eth_swap_id Scenario.ether) in
  let fee := ETHWSUISwap.locked_amount sw * ETHWSUISwap.swapFee st / 10000 in
  ETHWSUISwap.swapFee st <= ETHWSUISwap.MAX_FEE /\ ETHWSUISwap.feeRecipient st <> 0
  /\ hd_error [ETHWSUISwap.SendETH 2 997000000000000000;
               ETHWSUISwap.SendETH 300 3000000000000000;
               ETHWSUISwap.SwapWithdrawn (Scenario.eth_swap_id Scenario.ether) 2
                                         Scenario.eth_secret]
     = Some (ETHWSUISwap.pay sw (ETHWSUISwap.participant sw)
                             (ETHWSUISwap.locked_amount sw - fee))
  /\ 10 * fee <= ETHWSUISwap.locked_amount sw
  /\ 9 * ETHWSUISwap.locked_amount sw <= 10 * (ETHWSUISwap.locked_amount sw - fee).
Proof.
  exact (@X14_eth_fee_is_capped ETHWSUISwap.evm 100 200 300 Scenario.eth_deployed
           (Scenario.eth_lock Scenario.ether) (Scenario.eth_env 2 0 2000)
           (Scenario.eth_swap_id Scenario.ether) Scenario.eth_secret _ _
           eth_deployed_by_constructor eth_one_ether_withdrawal).
Defined.

Example eth_owner_pauses :
  ETHWSUISwap.pause Scenario.eth_deployed (Scenario.eth_env 100 0 5) = Done Scenario.eth_paused.
Proof. reflexivity. Qed.

Lemma X15_eth_pause_blocks_initiation_only_witness :
  (forall env' h p w t,
     ETHWSUISwap.initiateETHToWSUI (H := ETHWSUISwap.evm) Scenario.eth_paused env' h p w t
     = Aborted (ETHWSUISwap.Require "Pausable: paused"))
  /\ (forall env' h p w e t,
       ETHWSUISwap.initiateWSUIToETH (H := ETHWSUISwap.evm) Scenario.eth_paused env' h p w e t
       = Aborted (if ETHWSUISwap.msg_value env' =? 0
                  then ETHWSUISwap.Require "Pausable: paused" else ETHWSUISwap.NonPayable))
  /\ (forall env' i s,
       snd <$> ETHWSUISwap.withdraw (H := ETHWSUISwap.evm) Scenario.eth_paused env' i s
       = snd <$> ETHWSUISwap.withdraw (H := ETHWSUISwap.evm) Scenario.eth_deployed env' i s)
  /\ (forall env' i,
       snd <$> ETHWSUISwap.refund Scenario.eth_paused env' i
       = snd <$> ETHWSUISwap.refund Scenario.eth_deployed env' i).
Proof.
  exact (@X15_eth_pause_blocks_initiation_only ETHWSUISwap.evm Scenario.eth_deployed
           (Scenario.eth_env 100 0 5) Scenario.eth_paused eth_owner_pauses).
Defined.

Example eth_one_wei_withdrawal :
  ETHWSUISwap.dispatch (H := ETHWSUISwap.evm)
    (ETHWSUISwap.run (H := ETHWSUISwap.evm) Scenario.eth_deployed (Scenario.eth_lock 1))
    (Scenario.eth_env 2 0 2000) (ETHWSUISwap.CallWithdraw (Scenario.eth_swap_id 1) Scenario.eth_secret)
  = Done Scenario.eth_withdrawn.
Proof. vm_compute. reflexivity. Qed.

Lemma X16_eth_settled_swap_stays_closed_witness :
  succeeded (ETHWSUISwap.withdraw (H := ETHWSUISwap.evm)
               (ETHWSUISwap.run (H := ETHWSUISwap.evm) Scenario.eth_withdrawn
                  (Scenario.eth_lock 1))
               (Scenario.eth_env 2 0 3000) (Scenario.eth_swap_id 1) Scenario.eth_secret) = false
  /\ succeeded (ETHWSUISwap.refund
                  (ETHWSUISwap.run (H := ETHWSUISwap.evm) Scenario.eth_withdrawn
                     (Scenario.eth_lock 1))
                  (Scenario.eth_env 2 0 3000) (Scenario.eth_swap_id 1)) = false
  /\ ETHWSUISwap.isWithdrawable (H := ETHWSUISwap.evm)
       (ETHWSUISwap.run (H := ETHWSUISwap.evm) Scenario.eth_withdrawn (Scenario.eth_lock 1))
       (Scenario.eth_env 2 0 3000) (Scenario.eth_swap_id 1) Scenario.eth_secret = false
  /\ ETHWSUISwap.isRefundable
       (ETHWSUISwap.run (H := ETHWSUISwap.evm) Scenario.eth_withdrawn (Scenario.eth_lock 1))
       (Scenario.eth_env 2 0 3000) (Scenario.eth_swap_id 1) = false.
Proof.
  exact (@X16_eth_settled_swap_stays_closed ETHWSUISwap.evm 100 200 300 Scenario.eth_deployed
           (Scenario.eth_lock 1) (Scenario.eth_lock 1) (Scenario.eth_env 2 0 2000)
           (ETHWSUISwap.CallWithdraw (Scenario.eth_swap_id 1) Scenario.eth_secret)
           Scenario.eth_withdrawn (Scenario.eth_swap_id 1) Scenario.eth_secret
           (Scenario.eth_env 2 0 3000) Scenario.eth_secret
           eth_deployed_by_constructor (or_introl eq_refl) eth_one_wei_withdrawal).
Defined.

Example eth_one_wei_lock :
  0 <= ETHWSUISwap.block_timestamp (Scenario.eth_env 1 1 1000)
  /\ ETHWSUISwap.initiateETHToWSUI (H := ETHWSUISwap.evm) Scenario.eth_deployed
       (Scenario.eth_env 1 1 1000) Scenario.eth_secret_hash 2 5 10000
     = Done (Scenario.eth_locked 1,
             [ETHWSUISwap.SwapInitiated (Scenario.eth_swap_id 1) Scenario.eth_secret_hash
                1 2 1 5 10000 ETHWSUISwap.ETH_TO_WSUI]).
Proof. split; vm_compute; [discriminate | reflexivity]. Qed.

Lemma X17_eth_lock_round_trip_witness :
  let env := Scenario.eth_env 1 1 1000 in
  let i := ETHWSUISwap.swap_id (Hashes := ETHWSUISwap.evm) (ETHWSUISwap.msg_sender env) 2
             Scenario.eth_secret_hash (ETHWSUISwap.block_timestamp env)
             (ETHWSUISwap.msg_value env) 5 in
  ETHWSUISwap.getSwap (Scenario.eth_locked 1) i
  = (Scenario.eth_secret_hash, ETHWSUISwap.msg_value env, 5, ETHWSUISwap.msg_sender env, 2,
     10000, false, false, ETHWSUISwap.ETH_TO_WSUI)
  /\ (forall j, j <> i ->
      ETHWSUISwap.getSwap (Scenario.eth_locked 1) j = ETHWSUISwap.getSwap Scenario.eth_deployed j)
  /\ (forall env' s,
      ETHWSUISwap.isWithdrawable (H := ETHWSUISwap.evm) (Scenario.eth_locked 1) env' i s
      = (ETHWSUISwap.block_timestamp env' <=? 10000)
        && (ETHWSUISwap.sha256_bytes32 (Hashes := ETHWSUISwap.evm) s =? Scenario.eth_secret_hash))
  /\ (forall env',
      ETHWSUISwap.isRefundable (Scenario.eth_locked 1) env' i
      = (10000 <? ETHWSUISwap.block_timestamp env')).
Proof.
  exact (proj1 (@X17_eth_lock_round_trip ETHWSUISwap.evm Scenario.eth_deployed
                  (Scenario.eth_env 1 1 1000) Scenario.eth_secret_hash 2 5 0 10000
                  (Scenario.eth_locked 1) _ (proj1 eth_one_wei_lock))
               (proj2 eth_one_wei_lock)).
Defined.

(** ** The Ethereum [SafeEscrow] contract *)

Section EthSafeRules.
Import EthSafeEscrow.

Ltac safe_unfold :=
  unfold mbind, tx_bind, mret, tx_ret, require, nonpayable, checked_add,
         payable_transfer in *.

Lemma eth_safe_withdraw_iff st env _secret :
  succeeded (withdraw st env _secret) = true
  <-> msg_value env = 0
      /\ isSafeAvailable st = true
      /\ startTime st + lockDuration st <= UINT256_MAX
      /\ block_timestamp env <= startTime st + lockDuration st
      /\ Bytes.bytes_eqb (if useSha256 st then SHA256.sha256 _secret
                          else Keccak.keccak256 _secret) (secretHash st) = true
      /\ transfer env (msg_sender env) (amount st) = true.
Proof.
  unfold withdraw, isSafeAvailable. safe_unfold.
  destruct (msg_value env =? 0) eqn:Hv; cbn [succeeded];
    [apply Z.eqb_eq in Hv | apply Z.eqb_neq in Hv; split; [discriminate | tauto]].
  destruct (isWithdrawn st); cbn [negb andb succeeded]; [intuition discriminate|].
  destruct (isRefunded st); cbn [negb andb succeeded]; [intuition discriminate|].
  destruct (startTime st + lockDuration st <=? UINT256_MAX) eqn:Hfit; cbn [succeeded];
    [apply Z.leb_le in Hfit | apply Z.leb_gt in Hfit; split; [discriminate | lia]].
  destruct (block_timestamp env <=? startTime st + lockDuration st) eqn:Hd; cbn [succeeded];
    [apply Z.leb_le in Hd | apply Z.leb_gt in Hd; split; [discriminate | lia]].
  destruct (Bytes.bytes_eqb _ _); cbn [succeeded]; [|intuition discriminate].
  cbn [amount].
  destruct (transfer env (msg_sender env) (amount st)); cbn [succeeded]; intuition discriminate.
Qed.

Lemma eth_safe_refund_iff st env :
  succeeded (refund st env) = true
  <-> msg_value env = 0
      /\ msg_sender env = owner st
      /\ isSafeAvailable st = true
      /\ startTime st + lockDuration st <= UINT256_MAX
      /\ startTime st + lockDuration st < block_timestamp env
      /\ transfer env (owner st) (amount st) = true.
Proof.
  unfold refund, isSafeAvailable. safe_unfold.
  destruct (msg_value env =? 0) eqn:Hv; cbn [succeeded];
    [apply Z.eqb_eq in Hv | apply Z.eqb_neq in Hv; split; [discriminate | tauto]].
  destruct (msg_sender env =? owner st) eqn:Ho; cbn [succeeded];
    [apply Z.eqb_eq in Ho | apply Z.eqb_neq in Ho; split; [discriminate | tauto]].
  destruct (isWithdrawn st); cbn [negb andb succeeded]; [intuition discriminate|].
  destruct (isRefunded st); cbn [negb andb succeeded]; [intuition discriminate|].
  destruct (startTime st + lockDuration st <=? UINT256_MAX) eqn:Hfit; cbn [succeeded];
    [apply Z.leb_le in Hfit | apply Z.leb_gt in Hfit; split; [discriminate | lia]].
  destruct (startTime st + lockDuration st <? block_timestamp env) eqn:Hd; cbn [succeeded];
    [apply Z.ltb_lt in Hd | apply Z.ltb_ge in Hd; split; [discriminate | lia]].
  cbn [amount owner].
  destruct (transfer env (owner st) (amount st)); cbn [succeeded]; intuition discriminate.
Qed.

(** X18.  The rules of the Ethereum [SafeEscrow].  [withdraw] succeeds
    exactly when the call carries no value, the safe is open, the
    deadline fits a uint256, the block time is at most the deadline, the
    secret hashes to the stored hash and the transfer to the caller goes
    through; [refund] exactly when the call carries no value, the caller
    is the owner, the safe is open, the block time is strictly after the
    deadline and the transfer goes through.  A call of either that
    carries value reverts.  At one block time the two cannot both
    succeed.  When the deadline fits, [isLockExpired] is the refund's
    time test and [getTimeLeft] is the time to the deadline, zero from
    the deadline on. *)
Theorem X18_eth_safe_windows st env _secret :
  let deadline := startTime st + lockDuration st in
  (succeeded (withdraw st env _secret) = true
   <-> msg_value env = 0
       /\ isSafeAvailable st = true /\ deadline <= UINT256_MAX
       /\ block_timestamp env <= deadline
       /\ Bytes.bytes_eqb (if useSha256 st then SHA256.sha256 _secret
                           else Keccak.keccak256 _secret) (secretHash st) = true
       /\ transfer env (msg_sender env) (amount st) = true)
  /\ (succeeded (refund st env) = true
      <-> msg_value env = 0
          /\ msg_sender env = owner st /\ isSafeAvailable st = true
          /\ deadline <= UINT256_MAX /\ deadline < block_timestamp env
          /\ transfer env (owner st) (amount st) = true)
  /\ (msg_value env <> 0 ->
      withdraw st env _secret = Aborted NonPayable /\ refund st env = Aborted NonPayable)
  /\ (forall env', block_timestamp env' = block_timestamp env ->
        succeeded (withdraw st env _secret) && succeeded (refund st env') = false)
  /\ (deadline <= UINT256_MAX ->
      isLockExpired st env = Done (deadline <? block_timestamp env)
      /\ getTimeLeft st env = Done (Z.max 0 (deadline - block_timestamp env))).
Proof.
  intros deadline. split; [apply eth_safe_withdraw_iff|].
  split; [apply eth_safe_refund_iff|]. split; [|split].
  - intros Hv. apply Z.eqb_neq in Hv. unfold withdraw, refund, nonpayable.
    rewrite Hv. split; reflexivity.
  - intros env' Hnow. apply not_true_is_false. intros [Hw Hr]%andb_true_iff.
    apply eth_safe_withdraw_iff in Hw. apply eth_safe_refund_iff in Hr. lia.
  - intros Hfit. unfold isLockExpired, getTimeLeft. safe_unfold. fold deadline.
    apply Z.leb_le in Hfit. rewrite Hfit. split; [reflexivity|].
    destruct (deadline <=? block_timestamp env) eqn:Hd;
      [apply Z.leb_le in Hd | apply Z.leb_gt in Hd]; f_equal; lia.
Qed.

Lemma eth_safe_constructed env h o b lock use st fx :
  constructor env h o b lock use = Done (st, fx) ->
  startTime st = block_timestamp env /\ lockDuration st = lock
  /\ amount st = msg_value env /\ 0 < amount st
  /\ isSafeAvailable st = true /\ owner st = o /\ secretHash st = h.
Proof.
  unfold constructor. safe_unfold. intros H.
  destruct (0 <? msg_value env) eqn:Hv; [apply Z.ltb_lt in Hv | discriminate H].
  destruct (negb (b =? 0)); [|discriminate H].
  destruct (negb (o =? 0)); [|discriminate H].
  injection H as <- <-. cbn. repeat split. exact Hv.
Qed.

(** X19.  A lock that overflows locks for ever: the constructor of
    [SafeEscrow] accepts every lock duration; when the block time plus the
    lock duration exceeds the largest uint256, no sequence of calls
    changes the safe, every [withdraw] and every [refund] reverts, and
    [isLockExpired] and [getTimeLeft] panic with code 0x11. *)
Theorem X19_eth_safe_overflowing_lock env0 h o b lock use st fx
    (cs : list (Env * call)) env _secret :
  constructor env0 h o b lock use = Done (st, fx) ->
  UINT256_MAX < block_timestamp env0 + lock ->
  run st cs = st
  /\ succeeded (withdraw (run st cs) env _secret) = false
  /\ succeeded (refund (run st cs) env) = false
  /\ isLockExpired (run st cs) env = Aborted (Panic 17)
  /\ getTimeLeft (run st cs) env = Aborted (Panic 17).
Proof.
  intros Hc Hover. apply eth_safe_constructed in Hc as (Hs & Hl & _).
  assert (Hw : forall e s, succeeded (withdraw st e s) = false).
  { intros e s. apply not_true_is_false. intros H%eth_safe_withdraw_iff. lia. }
  assert (Hr : forall e, succeeded (refund st e) = false).
  { intros e. apply not_true_is_false. intros H%eth_safe_refund_iff. lia. }
  assert (Hrun : run st cs = st).
  { induction cs as [|[e c] cs IH]; [reflexivity|].
    change (run st ((e, c) :: cs)) with (run (apply_call st (e, c)) cs).
    assert (Hstep : apply_call st (e, c) = st).
    { unfold apply_call. cbn [fst snd]. destruct c as [s|].
      - specialize (Hw e s). destruct (withdraw st e s); [discriminate | reflexivity].
      - specialize (Hr e). destruct (refund st e); [discriminate | reflexivity]. }
    rewrite Hstep. exact IH. }
  rewrite Hrun. repeat split; [apply Hw | apply Hr | |].
  - unfold isLockExpired. safe_unfold.
    rewrite (proj2 (Z.leb_gt _ _)) by lia. reflexivity.
  - unfold getTimeLeft. safe_unfold.
    rewrite (proj2 (Z.leb_gt _ _)) by lia. reflexivity.
Qed.

End EthSafeRules.

Example eth_forever_safe_is_constructed :
  EthSafeEscrow.constructor (Scenario.safe_env 1 10 1000)
    (EthHashUtility.calculateHash Scenario.alpha_key) 1 2 EthSafeEscrow.UINT256_MAX false
  = Done (Scenario.eth_forever_safe,
          [EthSafeEscrow.SafeCreated 500 1 2 10 (EthHashUtility.calculateHash Scenario.alpha_key)
             1000 EthSafeEscrow.UINT256_MAX false])
  /\ EthSafeEscrow.UINT256_MAX
     < EthSafeEscrow.block_timestamp (Scenario.safe_env 1 10 1000) + EthSafeEscrow.UINT256_MAX.
Proof. split; [vm_compute; reflexivity | cbn; lia]. Qed.

Lemma X19_eth_safe_overflowing_lock_witness :
  let cs := [(Scenario.safe_env 2 0 2000, EthSafeEscrow.CallWithdraw Scenario.alpha_key);
             (Scenario.safe_env 1 0 EthSafeEscrow.UINT256_MAX, EthSafeEscrow.CallRefund)] in
  let env := Scenario.safe_env 2 0 3000 in
  EthSafeEscrow.run Scenario.eth_forever_safe cs = Scenario.eth_forever_safe
  /\ succeeded (EthSafeEscrow.withdraw (EthSafeEscrow.run Scenario.eth_forever_safe cs) env
                  Scenario.alpha_key) = false
  /\ succeeded (EthSafeEscrow.refund (EthSafeEscrow.run Scenario.eth_forever_safe cs) env) = false
  /\ EthSafeEscrow.isLockExpired (EthSafeEscrow.run Scenario.eth_forever_safe cs) env
     = Aborted (EthSafeEscrow.Panic 17)
  /\ EthSafeEscrow.getTimeLeft (EthSafeEscrow.run Scenario.eth_forever_safe cs) env
     = Aborted (EthSafeEscrow.Panic 17).
Proof.
  exact (X19_eth_safe_overflowing_lock (Scenario.safe_env 1 10 1000)
           (EthHashUtility.calculateHash Scenario.alpha_key) 1 2 EthSafeEscrow.UINT256_MAX false
           Scenario.eth_forever_safe _
           [(Scenario.safe_env 2 0 2000, EthSafeEscrow.CallWithdraw Scenario.alpha_key);
            (Scenario.safe_env 1 0 EthSafeEscrow.UINT256_MAX, EthSafeEscrow.CallRefund)]
           (Scenario.safe_env 2 0 3000) Scenario.alpha_key
           (proj1 eth_forever_safe_is_constructed) (proj2 eth_forever_safe_is_constructed)).
Defined.

Section EthSafePayout.
Import EthSafeEscrow.

Ltac safe_unfold' :=
  unfold mbind, tx_bind, mret, tx_ret, require, nonpayable, checked_add,
         payable_transfer in *.

(** What a successful call did: it closed an open safe, kept its amount
    and owner, and made one transfer of the amount. *)
Lemma eth_safe_withdraw_done st env _secret st' fx :
  withdraw st env _secret = Done (st', fx) ->
  isSafeAvailable st = true /\ isSafeAvailable st' = false
  /\ amount st' = amount st /\ owner st' = owner st
  /\ isWithdrawn st' = true /\ isRefunded st' = false
  /\ revealedSecret st' = _secret
  /\ transfers fx = [(msg_sender env, amount st)].
Proof.
  unfold withdraw, isSafeAvailable. safe_unfold'.
  destruct (msg_value env =? 0); [|discriminate].
  destruct (isWithdrawn st); cbn [negb]; [discriminate|].
  destruct (isRefunded st) eqn:Hr; cbn [negb]; [discriminate|].
  destruct (_ <=? UINT256_MAX); [|discriminate].
  destruct (block_timestamp env <=? _); [|discriminate].
  destruct (Bytes.bytes_eqb _ _); [|discriminate].
  cbn [amount]. destruct (transfer env _ _); [|discriminate].
  intros [= <- <-]. cbn. rewrite ?Hr. repeat split.
Qed.

Lemma eth_safe_refund_done st env st' fx :
  refund st env = Done (st', fx) ->
  isSafeAvailable st = true /\ isSafeAvailable st' = false
  /\ amount st' = amount st /\ owner st' = owner st
  /\ isWithdrawn st' = false /\ isRefunded st' = true
  /\ msg_sender env = owner st
  /\ transfers fx = [(owner st, amount st)].
Proof.
  unfold refund, isSafeAvailable. safe_unfold'.
  destruct (msg_value env =? 0); [|discriminate].
  destruct (msg_sender env =? owner st) eqn:Ho; [apply Z.eqb_eq in Ho | discriminate].
  destruct (isWithdrawn st) eqn:Hw; cbn [negb]; [discriminate|].
  destruct (isRefunded st) eqn:Hr; cbn [negb]; [discriminate|].
  destruct (_ <=? UINT256_MAX); [|discriminate].
  destruct (_ <? block_timestamp env); [|discriminate].
  cbn [amount owner]. destruct (transfer env _ _); [|discriminate].
  intros [= <- <-]. cbn. rewrite ?Hw. repeat split. exact Ho.
Qed.

Lemma eth_safe_run_paid_inv value who (cs : list (Env * call)) : forall r,
  amount (fst r) = value -> owner (fst r) = who ->
  (isSafeAvailable (fst r) = true /\ snd r = [])
  \/ (isSafeAvailable (fst r) = false /\ exists to, snd r = [(to, value)]
      /\ (isRefunded (fst r) = true -> to = who)) ->
  let r' := fold_left apply_call_paid cs r in
  amount (fst r') = value /\ owner (fst r') = who
  /\ ((isSafeAvailable (fst r') = true /\ snd r' = [])
      \/ (isSafeAvailable (fst r') = false /\ exists to, snd r' = [(to, value)]
          /\ (isRefunded (fst r') = true -> to = who))).
Proof.
  induction cs as [|[e c] cs IH]; intros r Ha Ho Hinv; [cbn; auto|].
  cbn [fold_left]. apply IH; clear IH.
  - unfold apply_call_paid. cbn [fst snd]. destruct c as [s|].
    + destruct (withdraw (fst r) e s) as [[st' fx]|] eqn:Hc; [|exact Ha].
      apply eth_safe_withdraw_done in Hc. cbn [fst]. intuition congruence.
    + destruct (refund (fst r) e) as [[st' fx]|] eqn:Hc; [|exact Ha].
      apply eth_safe_refund_done in Hc. cbn [fst]. intuition congruence.
  - unfold apply_call_paid. cbn [fst snd]. destruct c as [s|].
    + destruct (withdraw (fst r) e s) as [[st' fx]|] eqn:Hc; [|exact Ho].
      apply eth_safe_withdraw_done in Hc. cbn [fst]. intuition congruence.
    + destruct (refund (fst r) e) as [[st' fx]|] eqn:Hc; [|exact Ho].
      apply eth_safe_refund_done in Hc. cbn [fst]. intuition congruence.
  - unfold apply_call_paid. cbn [fst snd]. destruct c as [s|].
    + destruct (withdraw (fst r) e s) as [[st' fx]|] eqn:Hc; [|exact Hinv].
      apply eth_safe_withdraw_done in Hc as (Hopen & Hclosed & _ & _ & _ & Hnr & _ & Hfx).
      cbn [fst snd]. right. split; [exact Hclosed|].
      destruct Hinv as [(_ & ->) | (Hno & _)]; [|congruence].
      exists (msg_sender e). rewrite Hfx, Ha. split; [reflexivity | congruence].
    + destruct (refund (fst r) e) as [[st' fx]|] eqn:Hc; [|exact Hinv].
      apply eth_safe_refund_done in Hc as (Hopen & Hclosed & _ & _ & _ & _ & _ & Hfx).
      cbn [fst snd]. right. split; [exact Hclosed|].
      destruct Hinv as [(_ & ->) | (Hno & _)]; [|congruence].
      exists who. rewrite Hfx, Ha, Ho. split; [reflexivity | reflexivity].
Qed.

(** X28.  A [SafeEscrow] contract pays at most once.  After any list of
    [withdraw] and [refund] calls on a safe that was constructed, either
    the safe is still available and no ETH was transferred, or it is
    closed and exactly one transfer was made, of the whole deposit; if
    the safe was refunded, that transfer went to the owner. *)
Theorem X28_eth_safe_paid_at_most_once env0 h o b lock use st fx
    (cs : list (Env * call)) :
  constructor env0 h o b lock use = Done (st, fx) ->
  let r := run_paid st cs in
  (isSafeAvailable (fst r) = true /\ snd r = [])
  \/ (isSafeAvailable (fst r) = false
      /\ exists to, snd r = [(to, msg_value env0)]
                    /\ (isRefunded (fst r) = true -> to = o)).
Proof.
  intros Hc. apply eth_safe_constructed in Hc as (_ & _ & Ha & _ & Hopen & Ho & _).
  apply (eth_safe_run_paid_inv (msg_value env0) o cs (st, [])); cbn [fst snd]; auto.
Qed.

End EthSafePayout.

Example eth_safe_is_constructed :
  EthSafeEscrow.constructor (Scenario.safe_env 1 10 1000)
    (EthHashUtility.calculateHash Scenario.alpha_key) 1 2 500 false
  = Done (Scenario.eth_safe,
          [EthSafeEscrow.SafeCreated 500 1 2 10 (EthHashUtility.calculateHash Scenario.alpha_key)
             1000 500 false]).
Proof. vm_compute. reflexivity. Qed.

Lemma X28_eth_safe_paid_at_most_once_witness :
  let r := EthSafeEscrow.run_paid Scenario.eth_safe Scenario.eth_safe_calls in
  (EthSafeEscrow.isSafeAvailable (fst r) = true /\ snd r = [])
  \/ (EthSafeEscrow.isSafeAvailable (fst r) = false
      /\ exists to, snd r = [(to, EthSafeEscrow.msg_value (Scenario.safe_env 1 10 1000))]
                    /\ (EthSafeEscrow.isRefunded (fst r) = true -> to = 1)).
Proof.
  exact (X28_eth_safe_paid_at_most_once (Scenario.safe_env 1 10 1000)
           (EthHashUtility.calculateHash Scenario.alpha_key) 1 2 500 false
           Scenario.eth_safe _ Scenario.eth_safe_calls eth_safe_is_constructed).
Defined.

(** ** The timeout manager: proposals, expiry and validation *)

Section TimeoutMore.
Import Js TimeoutManager.


(** X21.  Remaining time and expiry: [getRemainingTime] is never
    negative and is zero exactly from the expiry time on, while
    [isSafeExpired] holds only strictly after it; [getTimeoutWarnings] of
    the remaining time is the single critical warning "Safe has expired"
    exactly from the expiry time on. *)
Theorem X21_remaining_time_and_expiry (currentTime startTime lockDuration : Z) :
  let remaining := getRemainingTime currentTime startTime lockDuration in
  0 <= remaining
  /\ (remaining = 0 <-> startTime + lockDuration <= currentTime)
  /\ (isSafeExpired currentTime startTime lockDuration = true
      <-> startTime + lockDuration < currentTime)
  /\ (getTimeoutWarnings remaining
      = [{| level := "critical"; message := "Safe has expired" |}]
      <-> startTime + lockDuration <= currentTime).
Proof.
  intros remaining. subst remaining. unfold getRemainingTime, isSafeExpired. cbn zeta.
  destruct (startTime + lockDuration <=? currentTime) eqn:Hle;
    [apply Z.leb_le in Hle | apply Z.leb_gt in Hle].
  - repeat split; try lia; reflexivity.
  - repeat split; try lia.
    unfold getTimeoutWarnings. cbn zeta.
    destruct (_ <=? 0) eqn:H0; [apply Z.leb_le in H0; lia|].
    intros H.
    repeat match type of H with
           | context [if ?c then _ else _] => destruct c
           end; discriminate H.
Qed.

(** X22.  With a network name inherited from [Object.prototype] the
    manager validates nothing: the constructor keeps the inherited member
    as its configuration, [validateTimeouts] then accepts every pair of
    timeouts, and [calculateOptimalTimeouts] proposes NaN for both. *)
Theorem X22_inherited_network_validates_nothing (name : string)
    (sourceTimeout destTimeout estimatedExecutionTime : Z) :
  name ∈ object_prototype_keys ->
  let tm := {| network := name; config := Builtin name |} in
  constructor (Some name) = Done tm
  /\ validateTimeouts tm sourceTimeout destTimeout = Done true
  /\ calculateOptimalTimeouts tm estimatedExecutionTime
     = Done {| sourceTimeout := NaN; destTimeout := NaN; safetyMargin := Undefined |}.
Proof.
  intros Hin tm. split; [apply inherited_network_is_builtin, Hin|].
  split; reflexivity.
Qed.

End TimeoutMore.

Example constructor_is_inherited : "constructor"%string ∈ Js.object_prototype_keys.
Proof. unfold Js.object_prototype_keys. constructor. Qed.


Lemma X22_inherited_network_validates_nothing_witness :
  let tm := {| TimeoutManager.network := "constructor";
               TimeoutManager.config := Js.Builtin "constructor" |} in
  TimeoutManager.constructor (Some "constructor"%string) = Done tm
  /\ TimeoutManager.validateTimeouts tm 1 999999999 = Done true
  /\ TimeoutManager.calculateOptimalTimeouts tm 0
     = Done {| TimeoutManager.sourceTimeout := Js.NaN; TimeoutManager.destTimeout := Js.NaN;
               TimeoutManager.safetyMargin := Js.Undefined |}.
Proof.
  exact (X22_inherited_network_validates_nothing "constructor" 1 999999999 0
           constructor_is_inherited).
Defined.

(** ** [createCrossChainSafe] *)

Section CrossChainMore.
Import CrossChainEscrowManager.

(** X23.  What a successful [createCrossChainSafe] created, on a manager
    with a timeout profile: exactly two safes, the source one first, both
    returned by their managers; both carry the SHA-256 digest of the
    secret, which is the hex string of the result; the source safe goes to
    the manager of the source chain with the destination owner as
    beneficiary and the source lock, the destination safe the other way
    round; the destination lock is at least the minimum and the source
    lock exceeds it by more than the safety margin. *)
Theorem X23_cross_chain_pair name S D M m ini creates p calls res :
  createCrossChainSafe
    {| timeoutManager := TimeoutManager.with_profile name S D M m; isInitialized := ini |}
    creates p = (calls, Done res) ->
  exists r1 r2,
    calls = [r1; r2]
    /\ creates r1 = Some (sourceSafe res) /\ creates r2 = Some (destSafe res)
    /\ secretHash r1 = HashUtility.sha256 (HashUtility.Str (secret p))
    /\ secretHash r2 = secretHash r1
    /\ result_secretHash res = HashUtility.toHexString (secretHash r1)
    /\ manager_of (sourceChain p) = Some (manager r1)
    /\ manager_of (destChain p) = Some (manager r2)
    /\ beneficiary r1 = destOwner p /\ beneficiary r2 = sourceOwner p
    /\ lockDuration r1 = sourceLockDuration p /\ lockDuration r2 = destLockDuration p
    /\ m <= lockDuration r2 /\ lockDuration r2 + M < lockDuration r1.
Proof.
  unfold createCrossChainSafe. cbn [isInitialized timeoutManager].
  destruct ini; cbn [negb]; [|discriminate].
  destruct (TimeoutManager.validateTimeouts _ _ _) as [b|f] eqn:Hv; [|discriminate].
  assert (Hb : b = true).
  { revert Hv. unfold TimeoutManager.validateTimeouts, TimeoutManager.read,
      TimeoutManager.with_profile. cbn.
    repeat match goal with |- context [if ?c then _ else _] => destruct c end;
      try discriminate. intros [= <-]. reflexivity. }
  subst b. apply validateTimeouts_model_rule in Hv as (_ & Hd & Hs).
  destruct (manager_of (sourceChain p)) as [m1|] eqn:Hm1; [|discriminate].
  match goal with |- context [creates ?r] => set (r1 := r) end.
  destruct (creates r1) as [src|] eqn:Hc1; [|discriminate].
  destruct (manager_of (destChain p)) as [m2|] eqn:Hm2; [|discriminate].
  match goal with |- context [creates ?r] => lazymatch r with r1 => fail | _ => set (r2 := r) end end.
  destruct (creates r2) as [dst|] eqn:Hc2; [|discriminate].
  intros [= <- <-]. exists r1, r2. cbn [sourceSafe destSafe result_secretHash].
  subst r1 r2. cbn [secretHash manager beneficiary lockDuration].
  repeat split; try assumption; try reflexivity.
Qed.

(** X24.  What a failed [createCrossChainSafe] leaves behind.  When it
    throws for a missing initialisation, for the timeouts or for the
    source chain, no manager was asked for anything.  When it throws for
    an unsupported destination chain, the source safe has been created and
    stays.  When a manager throws, it is the last one asked, and if that
    was the destination manager the source safe has been created and
    stays. *)
Theorem X24_cross_chain_failure_leaves_source this creates p e :
  snd (createCrossChainSafe this creates p) = Aborted e ->
  let calls := fst (createCrossChainSafe this creates p) in
  match e with
  | NotInitialized | InvalidTimeouts _ | UnsupportedSourceChain _ => calls = []
  | UnsupportedDestinationChain _ =>
      exists r1 source, calls = [r1] /\ creates r1 = Some source
  | ManagerThrew r =>
      creates r = None
      /\ (calls = [r] \/ exists r1 source, calls = [r1; r] /\ creates r1 = Some source)
  | LookupThrew => False
  end.
Proof.
  unfold createCrossChainSafe.
  destruct (isInitialized this); cbn [negb]; [|intros [= <-]; reflexivity].
  destruct (TimeoutManager.validateTimeouts _ _ _) as [b|f]; [|intros [= <-]; reflexivity].
  destruct (manager_of (sourceChain p)) as [m1|]; [|intros [= <-]; reflexivity].
  match goal with |- context [creates ?r] => set (r1 := r) end.
  destruct (creates r1) as [src|] eqn:Hc1; [|intros [= <-]; cbn; auto].
  destruct (manager_of (destChain p)) as [m2|]; [|intros [= <-]; cbn; eauto].
  match goal with |- context [creates ?r] => lazymatch r with r1 => fail | _ => set (r2 := r) end end.
  destruct (creates r2) as [dst|] eqn:Hc2; [discriminate|].
  intros [= <-]. cbn. split; [exact Hc2|]. right. eauto.
Qed.

End CrossChainMore.

Example cross_pair_is_created :
  CrossChainEscrowManager.createCrossChainSafe
    {| CrossChainEscrowManager.timeoutManager :=
         TimeoutManager.with_profile "testnet" 1800000 300000 300000 120000;
       CrossChainEscrowManager.isInitialized := true |}
    Scenario.always_creates (Scenario.cross_params "sui")
  = (fst (CrossChainEscrowManager.createCrossChainSafe Scenario.cross_manager
            Scenario.always_creates (Scenario.cross_params "sui")),
     Done {| CrossChainEscrowManager.result_secretHash :=
               "3f8ad42d6dc52445378196cb2e49281f812253eaea7830fe46f4756f2ca0a3d4";
             CrossChainEscrowManager.sourceSafe := "safe";
             CrossChainEscrowManager.destSafe := "safe";
             CrossChainEscrowManager.result_sourceChain := "ethereum";
             CrossChainEscrowManager.result_destChain := "sui" |}).
Proof. vm_compute. reflexivity. Qed.

Lemma X23_cross_chain_pair_witness :
  let p := Scenario.cross_params "sui" in
  let res := {| CrossChainEscrowManager.result_secretHash :=
                  "3f8ad42d6dc52445378196cb2e49281f812253eaea7830fe46f4756f2ca0a3d4";
                CrossChainEscrowManager.sourceSafe := "safe";
                CrossChainEscrowManager.destSafe := "safe";
                CrossChainEscrowManager.result_sourceChain := "ethereum";
                CrossChainEscrowManager.result_destChain := "sui" |} in
  exists r1 r2,
    fst (CrossChainEscrowManager.createCrossChainSafe Scenario.cross_manager
           Scenario.always_creates p) = [r1; r2]
    /\ Scenario.always_creates r1 = Some (CrossChainEscrowManager.sourceSafe res)
    /\ Scenario.always_creates r2 = Some (CrossChainEscrowManager.destSafe res)
    /\ CrossChainEscrowManager.secretHash r1
       = HashUtility.sha256 (HashUtility.Str (CrossChainEscrowManager.secret p))
    /\ CrossChainEscrowManager.secretHash r2 = CrossChainEscrowManager.secretHash r1
    /\ CrossChainEscrowManager.result_secretHash res
       = HashUtility.toHexString (CrossChainEscrowManager.secretHash r1)
    /\ CrossChainEscrowManager.manager_of (CrossChainEscrowManager.sourceChain p)
       = Some (CrossChainEscrowManager.manager r1)
    /\ CrossChainEscrowManager.manager_of (CrossChainEscrowManager.destChain p)
       = Some (CrossChainEscrowManager.manager r2)
    /\ CrossChainEscrowManager.beneficiary r1 = CrossChainEscrowManager.destOwner p
    /\ CrossChainEscrowManager.beneficiary r2 = CrossChainEscrowManager.sourceOwner p
    /\ CrossChainEscrowManager.lockDuration r1 = CrossChainEscrowManager.sourceLockDuration p
    /\ CrossChainEscrowManager.lockDuration r2 = CrossChainEscrowManager.destLockDuration p
    /\ 120000 <= CrossChainEscrowManager.lockDuration r2
    /\ CrossChainEscrowManager.lockDuration r2 + 300000 < CrossChainEscrowManager.lockDuration r1.
Proof.
  exact (X23_cross_chain_pair "testnet" 1800000 300000 300000 120000 true
           Scenario.always_creates (Scenario.cross_params "sui") _ _ cross_pair_is_created).
Defined.

Example cross_pair_unsupported_destination :
  snd (CrossChainEscrowManager.createCrossChainSafe Scenario.cross_manager
         Scenario.always_creates (Scenario.cross_params "solana"))
  = Aborted (CrossChainEscrowManager.UnsupportedDestinationChain "solana").
Proof. vm_compute. reflexivity. Qed.

Lemma X24_cross_chain_failure_leaves_source_witness :
  exists r1 source,
    fst (CrossChainEscrowManager.createCrossChainSafe Scenario.cross_manager
           Scenario.always_creates (Scenario.cross_params "solana")) = [r1]
    /\ Scenario.always_creates r1 = Some source.
Proof.
  exact (X24_cross_chain_failure_leaves_source Scenario.cross_manager Scenario.always_creates
           (Scenario.cross_params "solana")
           (CrossChainEscrowManager.UnsupportedDestinationChain "solana")
           cross_pair_unsupported_destination).
Defined.

(** ** The relayer's listeners of [SafeWithdrawn] events *)

Section ListenerRules.
Import RelayerService RelayerEvents.

Lemma withdrawals_app tr1 tr2 : withdrawals (tr1 ++ tr2) = withdrawals tr1 ++ withdrawals tr2.
Proof. unfold withdrawals. apply omap_app. Qed.

(** A retry loop calls [withdrawFromSafe] once per attempt, always on its
    own safe. *)
Lemma withdrawals_retry_loop this c safe secret resolves fuel : forall a,
  withdrawals (map Retry (retry_loop this c safe secret resolves fuel a))
  = repeat (c, safe) (length (attempts (retry_loop this c safe secret resolves fuel a))).
Proof.
  induction fuel as [|k IH]; intros a; [reflexivity|].
  rewrite attempts_loop. cbn [retry_loop].
  destruct (a <=? retryAttempts this); [|reflexivity].
  destruct (resolves a); [reflexivity|].
  cbn [map withdrawals omap length repeat].
  destruct (a <? retryAttempts this); cbn; f_equal; apply IH.
Qed.

Lemma first_attempt_is_made this c safe secret resolves :
  1 <= retryAttempts this ->
  (1 <= length (attempts (retry_loop this c safe secret resolves
                            (Z.to_nat (retryAttempts this)) 1)))%nat
  /\ (resolves 1 = true ->
      length (attempts (retry_loop this c safe secret resolves
                          (Z.to_nat (retryAttempts this)) 1)) = 1%nat).
Proof.
  intros Hn. rewrite attempts_loop.
  destruct (Z.to_nat (retryAttempts this)) as [|k] eqn:Hk; [lia|].
  rewrite (proj2 (Z.leb_le 1 _)) by exact Hn.
  split; [cbn; lia|]. intros ->. reflexivity.
Qed.

(** X29.  The relayer's listener of Ethereum [SafeWithdrawn] events never
    withdraws from a Sui safe: [SuiSafeManager.getSafeByHash] returns
    [null] for every hash.  A stopped listener does nothing; a running
    one logs the event, looks the SHA-256 hash of the secret up, and
    then logs that no Sui safe was found, or the error when one of the
    two managers is not initialised. *)
Theorem X29_ethereum_listener_never_relays this isRunning escrowManager
    suiManagerInitialized secret resolves :
  let tr := onEthereumSafeWithdrawn this isRunning escrowManager suiManagerInitialized
              secret resolves in
  let secretHash := HashUtility.sha256 (HashUtility.Str secret) in
  withdrawals tr = []
  /\ tr = if negb isRunning then []
          else [LogDetected ethereum; FindSafesByHash sui secretHash;
                if CrossChainEscrowManager.isInitialized escrowManager && suiManagerInitialized
                then LogNoSafe sui (HashUtility.toHexString secretHash)
                else LogListenerError ethereum].
Proof.
  intros tr secretHash. subst tr.
  unfold onEthereumSafeWithdrawn, CrossChainEscrowManager.findSafesByHash_sui,
    CrossChainEscrowManager.SuiSafeManager_getSafeByHash.
  fold secretHash.
  destruct isRunning; cbn [negb]; [|split; reflexivity].
  destruct (CrossChainEscrowManager.isInitialized escrowManager); cbn [negb andb];
    [|split; reflexivity].
  destruct suiManagerInitialized; cbn [negb]; split; reflexivity.
Qed.

(** X30.  The listener of Sui [SafeWithdrawn] events relays to every
    Ethereum safe registered under the SHA-256 hash of the secret.  With
    at least one attempt configured, an initialised manager and a
    registry that returns [ethSafes], a running listener calls
    [withdrawFromSafe] only on chain ethereum, on the safes of
    [ethSafes] in the registry's order, between 1 and [retryAttempts]
    times on each one whether or not the calls before succeeded; when
    every first call succeeds, it is exactly one call per safe. *)
Theorem X30_sui_listener_relays_to_every_safe this escrowManager getSafesByHash secret
    resolves ethSafes :
  1 <= retryAttempts this ->
  CrossChainEscrowManager.isInitialized escrowManager = true ->
  getSafesByHash (HashUtility.sha256 (HashUtility.Str secret)) = Some ethSafes ->
  let tr := onSuiSafeWithdrawn this true escrowManager getSafesByHash secret resolves in
  let tries safe :=
    length (attempts (_withdrawFromEthereumSafeWithRetry this safe secret (resolves safe))) in
  withdrawals tr = flat_map (fun safe => repeat (ethereum, safe) (tries safe)) ethSafes
  /\ Forall (fun safe => (1 <= tries safe)%nat
                         /\ Z.of_nat (tries safe) <= retryAttempts this) ethSafes
  /\ ((forall safe, resolves safe 1 = true) ->
      withdrawals tr = map (fun safe => (ethereum, safe)) ethSafes).
Proof.
  intros Hn Hinit Hfound tr tries.
  assert (Hloops : forall safes,
            withdrawals
              (flat_map (fun a => map Retry (_withdrawFromEthereumSafeWithRetry
                                               this a secret (resolves a))) safes)
            = flat_map (fun safe => repeat (ethereum, safe) (tries safe)) safes).
  { induction safes as [|a safes IH]; [reflexivity|].
    cbn [flat_map]. rewrite withdrawals_app, IH. f_equal.
    apply withdrawals_retry_loop. }
  assert (Htr : withdrawals tr
                = flat_map (fun safe => repeat (ethereum, safe) (tries safe)) ethSafes).
  { subst tr. unfold onSuiSafeWithdrawn, CrossChainEscrowManager.findSafesByHash_ethereum.
    rewrite Hinit, Hfound. cbn [negb].
    destruct ethSafes as [|a safes]; [reflexivity|].
    change (0 <? Z.of_nat (length (a :: safes))) with true. cbn iota.
    change (withdrawals (?x :: ?y :: ?l)) with (withdrawals l).
    apply Hloops. }
  split; [exact Htr|]. split.
  - apply Forall_forall. intros safe _. subst tries. cbn beta.
    unfold _withdrawFromEthereumSafeWithRetry.
    split; [apply first_attempt_is_made, Hn|].
    pose proof (attempts_bounded this ethereum safe secret (resolves safe)
                  (Z.to_nat (retryAttempts this)) 1). lia.
  - intros Hall. rewrite Htr. clear Htr Hfound tr.
    induction ethSafes as [|a safes IH]; [reflexivity|].
    cbn [flat_map map]. rewrite IH. subst tries. cbn beta.
    unfold _withdrawFromEthereumSafeWithRetry.
    rewrite (proj2 (first_attempt_is_made this ethereum a secret (resolves a) Hn) (Hall a)).
    reflexivity.
Qed.

End ListenerRules.

Example relayer_finds_two_safes :
  1 <= RelayerService.retryAttempts Scenario.relayer
  /\ CrossChainEscrowManager.isInitialized Scenario.cross_manager = true
  /\ Scenario.two_safes (HashUtility.sha256 (HashUtility.Str (JsString.of_ascii Scenario.alpha_secret)))
     = Some ["0xsafe1"; "0xsafe2"]%string.
Proof. split; [vm_compute; discriminate | split; reflexivity]. Qed.

Lemma X30_sui_listener_relays_to_every_safe_witness :
  let this := Scenario.relayer in
  let secret := JsString.of_ascii Scenario.alpha_secret in
  let resolves := fun (_ : string) (attempt : Z) => 2 <=? attempt in
  let ethSafes := ["0xsafe1"; "0xsafe2"]%string in
  let tr := RelayerEvents.onSuiSafeWithdrawn this true Scenario.cross_manager
              Scenario.two_safes secret resolves in
  let tries safe :=
    length (RelayerService.attempts
              (RelayerService._withdrawFromEthereumSafeWithRetry this safe secret
                 (resolves safe))) in
  RelayerEvents.withdrawals tr
  = flat_map (fun safe => repeat (RelayerService.ethereum, safe) (tries safe)) ethSafes
  /\ Forall (fun safe => (1 <= tries safe)%nat
                         /\ Z.of_nat (tries safe) <= RelayerService.retryAttempts this) ethSafes
  /\ ((forall safe, resolves safe 1 = true) ->
      RelayerEvents.withdrawals tr = map (fun safe => (RelayerService.ethereum, safe)) ethSafes).
Proof.
  exact (X30_sui_listener_relays_to_every_safe Scenario.relayer Scenario.cross_manager
           Scenario.two_safes (JsString.of_ascii Scenario.alpha_secret)
           (fun (_ : string) (attempt : Z) => 2 <=? attempt)
           ["0xsafe1"; "0xsafe2"]%string
           (proj1 relayer_finds_two_safes)
           (proj1 (proj2 relayer_finds_two_safes))
           (proj2 (proj2 relayer_finds_two_safes))).
Defined.

(** ** The resolver's monitor: frame, clean-up and the placeholder queries *)

Section MonitorMore.
Import ResolverService.

(** Two services that differ at most in the entry and the interval of
    [swapId]. *)
Lemma updateSwapStatus_frame sv swapId newStatus j :
  j <> swapId ->
  activeSwaps (fst (updateSwapStatus sv swapId newStatus)) !! j = activeSwaps sv !! j
  /\ monitoringIntervals (fst (updateSwapStatus sv swapId newStatus)) = monitoringIntervals sv.
Proof.
  intros Hj. unfold updateSwapStatus.
  destruct (activeSwaps sv !! swapId); cbn; [|auto].
  rewrite lookup_insert_ne by congruence. auto.
Qed.

Lemma stopSwapMonitoring_frame sv swapId j :
  j <> swapId ->
  activeSwaps (stopSwapMonitoring sv swapId) !! j = activeSwaps sv !! j
  /\ (j ∈ monitoringIntervals (stopSwapMonitoring sv swapId) <-> j ∈ monitoringIntervals sv).
Proof.
  intros Hj. unfold stopSwapMonitoring. cbn. split.
  - destruct (activeSwaps sv !! swapId) as [swap|]; [|reflexivity].
    destruct (is_finished (status swap)); [|reflexivity].
    apply lookup_delete_ne. congruence.
  - rewrite elem_of_difference, elem_of_singleton. tauto.
Qed.

Lemma monitorSwap_frame sv w swapId j :
  j <> swapId ->
  activeSwaps (fst (monitorSwap sv w swapId)) !! j = activeSwaps sv !! j
  /\ (j ∈ monitoringIntervals (fst (monitorSwap sv w swapId)) <-> j ∈ monitoringIntervals sv).
Proof.
  intros Hj.
  assert (Hup : forall sv0 st,
             activeSwaps (fst (updateSwapStatus sv0 swapId st)) !! j = activeSwaps sv0 !! j
             /\ (j ∈ monitoringIntervals (fst (updateSwapStatus sv0 swapId st))
                 <-> j ∈ monitoringIntervals sv0)).
  { intros sv0 st. destruct (updateSwapStatus_frame sv0 swapId st j Hj) as [H1 H2].
    rewrite H1, H2. tauto. }
  unfold monitorSwap.
  destruct (activeSwaps sv !! swapId) as [cur|]; [|cbn; tauto].
  destruct (status cur);
    unfold handlePendingSwap, handleUserLockedSwap, handleBothLockedSwap,
           handleUserClaimedSwap, claimResolverSide;
    rewrite ?fst_andThen;
    repeat match goal with
           | |- context [if ?c then _ else _] => destruct c
           end;
    rewrite ?fst_andThen; cbn [fst ResolverService.log];
    try (apply stopSwapMonitoring_frame; exact Hj);
    try tauto;
    repeat match goal with
           | |- context [updateSwapStatus ?s swapId ?st] =>
               let H1 := fresh in let H2 := fresh in
               destruct (Hup s st) as [H1 H2]; rewrite H1, H2; clear H1 H2
           end;
    try tauto.
Qed.


Lemma tick_frame r w swapId j :
  j <> swapId ->
  activeSwaps (fst (tick r swapId w)) !! j = activeSwaps (fst r) !! j
  /\ (j ∈ monitoringIntervals (fst (tick r swapId w)) <-> j ∈ monitoringIntervals (fst r)).
Proof.
  intros Hj. unfold tick.
  destruct (bool_decide (swapId ∈ monitoringIntervals (fst r))); [|tauto].
  rewrite fst_andThen. apply monitorSwap_frame, Hj.
Qed.

Lemma ticks_frame (ws : list World) : forall r swapId j,
  j <> swapId ->
  activeSwaps (fst (fold_left (fun r w => tick r swapId w) ws r)) !! j
  = activeSwaps (fst r) !! j
  /\ (j ∈ monitoringIntervals (fst (fold_left (fun r w => tick r swapId w) ws r))
      <-> j ∈ monitoringIntervals (fst r)).
Proof.
  induction ws as [|w ws IH]; intros r swapId j Hj; cbn [fold_left]; [tauto|].
  destruct (IH (tick r swapId w) swapId j Hj) as [H1 H2].
  destruct (tick_frame r w swapId j Hj) as [H3 H4].
  split; [congruence | tauto].
Qed.

(** X25.  Monitoring one swap touches no other: whatever the chains
    answer and however many ticks run, the entry of every other swap id
    in [activeSwaps] and the presence of its monitoring interval are as
    before. *)
Theorem X25_monitor_touches_one_swap sv swapId (ws : list World) j :
  j <> swapId ->
  activeSwaps (fst (monitor sv swapId ws)) !! j = activeSwaps sv !! j
  /\ (j ∈ monitoringIntervals (fst (monitor sv swapId ws)) <-> j ∈ monitoringIntervals sv).
Proof. intros Hj. exact (ticks_frame ws (sv, []) swapId j Hj). Qed.

(** Once the interval of a swap is cleared, no tick does anything. *)
Lemma monitor_stopped (ws : list World) : forall r swapId,
  swapId ∉ monitoringIntervals (fst r) ->
  fold_left (fun r w => tick r swapId w) ws r = r.
Proof.
  induction ws as [|w ws IH]; intros r swapId Hout; [reflexivity|].
  cbn [fold_left]. unfold tick at 2.
  rewrite bool_decide_eq_false_2 by exact Hout. apply IH, Hout.
Qed.

(** X26.  The monitor's clean-up: for a monitored swap that is COMPLETED,
    FAILED, EXPIRED, REFUNDED or RESOLVER_CLAIMED the first tick stops the
    monitoring without any effect and all later ticks do nothing; the
    swap is removed from [activeSwaps] when it is COMPLETED, FAILED or
    EXPIRED, and stays there unchanged when it is REFUNDED or
    RESOLVER_CLAIMED. *)
Theorem X26_monitor_cleans_up sv swapId swap (w : World) (ws : list World) :
  activeSwaps sv !! swapId = Some swap ->
  swapId ∈ monitoringIntervals sv ->
  match status swap with
  | COMPLETED | FAILED | EXPIRED | REFUNDED | RESOLVER_CLAIMED => True
  | _ => False
  end ->
  let r := monitor sv swapId (w :: ws) in
  r = (stopSwapMonitoring sv swapId, [])
  /\ (swapId ∉ monitoringIntervals (fst r))
  /\ activeSwaps (fst r) !! swapId
     = if is_finished (status swap) then None else Some swap.
Proof.
  intros Hget Hin Hst r. subst r.
  assert (Hm : monitorSwap sv w swapId = (stopSwapMonitoring sv swapId, [])).
  { unfold monitorSwap. rewrite Hget. destruct (status swap); try contradiction; reflexivity. }
  assert (Htick : tick (sv, []) swapId w = (stopSwapMonitoring sv swapId, [])).
  { unfold tick. cbn [fst]. rewrite bool_decide_eq_true_2 by exact Hin.
    unfold andThen. cbn [fst snd]. rewrite Hm. reflexivity. }
  assert (Hout : swapId ∉ monitoringIntervals (stopSwapMonitoring sv swapId)).
  { unfold stopSwapMonitoring. cbn. rewrite elem_of_difference, elem_of_singleton. tauto. }
  unfold monitor. cbn [fold_left]. rewrite Htick.
  rewrite monitor_stopped by exact Hout.
  split; [reflexivity|]. split; [exact Hout|].
  unfold stopSwapMonitoring. cbn. rewrite Hget.
  destruct (is_finished (status swap)); [apply lookup_delete_eq | exact Hget].
Qed.


#[local] Abbreviation quiet w :=
  (userLocked w = false /\ userClaimed w = false /\ resolverClaimed w = false).

#[local] Abbreviation expires_or_locks es :=
  (Forall (fun e => match e with
                    | SwapStatusChanged _ _ new => new = EXPIRED \/ new = BOTH_LOCKED
                    | _ => True
                    end) es).

(** X27.  With chain queries that answer false, as the three [check...]
    placeholders of the source do, the monitor completes nothing: the only
    status changes it makes are to EXPIRED and to BOTH_LOCKED, and a swap
    that is RESOLVER_LOCKED, BOTH_LOCKED or USER_CLAIMED is left as it is,
    still monitored, with no effect at all. *)
Theorem X27_placeholder_queries_complete_nothing sv swapId (ws : list World) :
  Forall (fun w => quiet w) ws ->
  expires_or_locks (snd (monitor sv swapId ws))
  /\ forall swap,
       activeSwaps sv !! swapId = Some swap ->
       match status swap with
       | RESOLVER_LOCKED | BOTH_LOCKED | USER_CLAIMED => True
       | _ => False
       end ->
       monitor sv swapId ws = (sv, []).
Proof.
  intros Hq. split.
  - unfold monitor.
    assert (Hgen : forall r, expires_or_locks (snd r) ->
              expires_or_locks (snd (fold_left (fun r w => tick r swapId w) ws r))).
    { induction Hq as [|w ws Hw _ IH]; intros r Hr; cbn [fold_left]; [exact Hr|].
      apply IH. unfold tick.
      destruct (bool_decide _); [|exact Hr].
      rewrite snd_andThen. apply Forall_app. split; [exact Hr|].
      apply monitorSwap_quiet, Hw. }
    apply Hgen. constructor.
  - intros swap Hget Hst. unfold monitor.
    induction Hq as [|w ws Hw _ IH]; cbn [fold_left]; [reflexivity|].
    assert (Htick : tick (sv, []) swapId w = (sv, [])).
    { unfold tick. destruct (bool_decide _); [|reflexivity].
      unfold andThen. cbn [fst snd].
      rewrite (monitorSwap_idle sv w swapId swap Hw Hget Hst). reflexivity. }
    rewrite Htick. exact IH.
Qed.

End MonitorMore.

Example swap_2_is_another_swap : "swap-2"%string <> "swap-1"%string.
Proof. intros H. discriminate H. Qed.

Lemma X25_monitor_touches_one_swap_witness :
  ResolverService.activeSwaps
    (fst (ResolverService.monitor Scenario.resolver "swap-1" [Scenario.user_claimed_world]))
    !! "swap-2"%string
  = ResolverService.activeSwaps Scenario.resolver !! "swap-2"%string
  /\ ("swap-2"%string
        ∈ ResolverService.monitoringIntervals
            (fst (ResolverService.monitor Scenario.resolver "swap-1"
                    [Scenario.user_claimed_world]))
      <-> "swap-2"%string ∈ ResolverService.monitoringIntervals Scenario.resolver).
Proof.
  exact (X25_monitor_touches_one_swap Scenario.resolver "swap-1"
           [Scenario.user_claimed_world] "swap-2" swap_2_is_another_swap).
Defined.

Example completed_swap_is_monitored :
  ResolverService.activeSwaps Scenario.completed_resolver !! "swap-1"%string
  = Some Scenario.completed_swap
  /\ bool_decide ("swap-1"%string
                  ∈ ResolverService.monitoringIntervals Scenario.completed_resolver) = true.
Proof. split; vm_compute; reflexivity. Qed.

Lemma X26_monitor_cleans_up_witness :
  let r := ResolverService.monitor Scenario.completed_resolver "swap-1"
             [ResolverService.placeholder 6000 false; ResolverService.placeholder 7000 false] in
  r = (ResolverService.stopSwapMonitoring Scenario.completed_resolver "swap-1", [])
  /\ ("swap-1"%string ∉ ResolverService.monitoringIntervals (fst r))
  /\ ResolverService.activeSwaps (fst r) !! "swap-1"%string
     = if ResolverService.is_finished (ResolverService.status Scenario.completed_swap)
       then None else Some Scenario.completed_swap.
Proof.
  exact (X26_monitor_cleans_up Scenario.completed_resolver "swap-1" Scenario.completed_swap
           (ResolverService.placeholder 6000 false) [ResolverService.placeholder 7000 false]
           (proj1 completed_swap_is_monitored)
           (proj1 (bool_decide_eq_true _) (proj2 completed_swap_is_monitored)) I).
Defined.

Lemma X27_placeholder_queries_complete_nothing_witness :
  let ws := [ResolverService.placeholder 6000 false; ResolverService.placeholder 7000 true] in
  Forall (fun e => match e with
                   | ResolverService.SwapStatusChanged _ _ new =>
                       new = ResolverService.EXPIRED \/ new = ResolverService.BOTH_LOCKED
                   | _ => True
                   end)
         (snd (ResolverService.monitor Scenario.resolver "swap-1" ws))
  /\ forall swap,
       ResolverService.activeSwaps Scenario.resolver !! "swap-1"%string = Some swap ->
       match ResolverService.status swap with
       | ResolverService.RESOLVER_LOCKED | ResolverService.BOTH_LOCKED
       | ResolverService.USER_CLAIMED => True
       | _ => False
       end ->
       ResolverService.monitor Scenario.resolver "swap-1" ws = (Scenario.resolver, []).
Proof.
  apply (X27_placeholder_queries_complete_nothing Scenario.resolver "swap-1"
           [ResolverService.placeholder 6000 false; ResolverService.placeholder 7000 true]).
  repeat constructor.
Defined.
